(** * PartitionAlloc: the partition root and its size-class table

    A shallow embedding of
    [base/allocator/partition_allocator/partition_root.h] and of the
    start-up checks of [partition_alloc.cc].

    Integers of the program are modelled as [Z] with the wrap-around of
    their C++ type written out; pointers are addresses ([Z], [0] for
    [nullptr]); arrays are lists indexed from [0]. *)

From Stdlib Require Import ZArith List Bool Lia.
Import ListNotations.
Local Open Scope Z_scope.

(** ** Platform constants *)

(** The two preprocessor-dependent quantities the size-class code reads:
    the width of [size_t] ([PA_HAS_64_BITS_POINTERS]) and the allocation
    alignment ("aligned to 8B (16B if ...)", partition_root.h:103). *)
Record Platform := mkPlatform {
  kBitsPerSizeT : Z;
  kAlignment : Z
}.

Definition supported (p : Platform) : bool :=
  ((kBitsPerSizeT p =? 32) || (kBitsPerSizeT p =? 64)) &&
  ((kAlignment p =? 8) || (kAlignment p =? 16)).

(** Values of C++ type [size_t] wrap modulo [2 ^ kBitsPerSizeT]. *)
Definition size_max_plus_1 (p : Platform) : Z := 2 ^ kBitsPerSizeT p.
Definition to_size_t (p : Platform) (x : Z) : Z := x mod size_max_plus_1 p.
Definition is_size_t (p : Platform) (x : Z) : Prop := 0 <= x < size_max_plus_1 p.

(** Modelled from the spec: partition_alloc_constants.h is not among the
    sources.  "order_index is the next three MSB" (partition_root.h:463)
    fixes three bits per order; section 3 of the specification gives
    [SmallestBucket = Alignment] and [MaxBucketed = 983040], both asserted
    by [PartitionAllocGlobalInit]; the largest bucketed order is the one
    whose last step is [983040 = 15 * 2^16], i.e. order 20. *)
Definition kNumBucketsPerOrderBits : Z := 3.
Definition kNumBucketsPerOrder : Z := Z.shiftl 1 kNumBucketsPerOrderBits.
Definition kSmallestBucket (p : Platform) : Z := kAlignment p.
Definition kMinBucketedOrder (p : Platform) : Z := Z.log2 (kSmallestBucket p) + 1.
Definition kMaxBucketedOrder : Z := 20.
Definition kNumBucketedOrders (p : Platform) : Z :=
  kMaxBucketedOrder - kMinBucketedOrder p + 1.
Definition kNumBuckets (p : Platform) : Z :=
  kNumBucketedOrders p * kNumBucketsPerOrder.
Definition kMaxBucketed : Z := 983040.

(** Modelled from the spec: base/bits.h is not among the sources.  The
    specification computes the order "via count-leading-zeros"; this is the
    number of zero bits above the most significant set bit of a [w]-bit
    value, [w] itself for the value [0]. *)
Fixpoint leading_zeros (w : nat) (x : Z) : Z :=
  match w with
  | O => 0
  | S w' => if Z.testbit x (Z.of_nat w') then 0 else 1 + leading_zeros w' x
  end.

Definition CountLeadingZeroBitsSizeT (p : Platform) (x : Z) : Z :=
  leading_zeros (Z.to_nat (kBitsPerSizeT p)) x.

(** ** Shift and mask constants of the hot path *)

Definition OrderIndexShift (order : Z) : Z :=
  if order <? kNumBucketsPerOrderBits + 1 then 0
  else order - (kNumBucketsPerOrderBits + 1).

Definition OrderSubIndexMask (p : Platform) (order : Z) : Z :=
  if order =? kBitsPerSizeT p
  then Z.shiftr (size_max_plus_1 p - 1) (kNumBucketsPerOrderBits + 1)
  else Z.shiftr (to_size_t p (to_size_t p (Z.shiftl 1 order) - 1))
                (kNumBucketsPerOrderBits + 1).

(** [0, 1, ..., n-1] as integers: the index range of a [for] loop. *)
Definition upto (n : Z) : list Z := map Z.of_nat (seq 0 (Z.to_nat n)).

Definition kOrderIndexShift (p : Platform) : list Z :=
  map OrderIndexShift (upto (kBitsPerSizeT p + 1)).

Definition kOrderSubIndexMask (p : Platform) : list Z :=
  map (OrderSubIndexMask p) (upto (kBitsPerSizeT p + 1)).

(** Array read; the default is never observed for an index in range. *)
Definition at_index (l : list Z) (i : Z) : Z := nth (Z.to_nat i) l 0.

(** ** The compile-time bucket table: [BucketIndexLookup] *)

(** A C++ [for (i = 0; i < n; ++i) body] over a state that the body may
    fail to produce (an out-of-range array read). *)
Definition for_loop {S : Type} (n : Z) (body : Z -> S -> option S) (s : S)
  : option S :=
  fold_left (fun acc i => match acc with Some st => body i st | None => None end)
            (upto n) (Some s).

Record SizesState := mkSizesState {
  current_size : Z;
  current_increment : Z;
  sizes_out : list Z
}.

(** [InitBucketSizes]: [kNumBucketedOrders] orders of [kNumBucketsPerOrder]
    linear steps each, the step doubling from one order to the next. *)
Definition InitBucketSizes (p : Platform) : list Z :=
  let inner (_ : Z) (s : SizesState) : option SizesState :=
    Some (mkSizesState (to_size_t p (current_size s + current_increment s))
                       (current_increment s)
                       (sizes_out s ++ [current_size s])) in
  let outer (_ : Z) (s : SizesState) : option SizesState :=
    match for_loop kNumBucketsPerOrder inner s with
    | Some s' => Some (mkSizesState (current_size s')
                                    (to_size_t p (Z.shiftl (current_increment s') 1))
                                    (sizes_out s'))
    | None => None
    end in
  match for_loop (kNumBucketedOrders p) outer
          (mkSizesState (kSmallestBucket p)
                        (Z.shiftr (kSmallestBucket p) kNumBucketsPerOrderBits)
                        [])
  with
  | Some s => sizes_out s
  | None => []
  end.

(** [while (bucket_sizes_[valid_bucket_index] % kSmallestBucket)
       valid_bucket_index++;]
    over the part of [bucket_sizes_] that starts at [valid_bucket_index];
    [None] when the scan would leave the array. *)
Fixpoint skip_pseudo_buckets (p : Platform) (rest : list Z) (valid_bucket_index : Z)
  : option Z :=
  match rest with
  | [] => None
  | s :: rest' =>
      if s mod kSmallestBucket p =? 0 then Some valid_bucket_index
      else skip_pseudo_buckets p rest' (valid_bucket_index + 1)
  end.

Record Lookup := mkLookup {
  bucket_sizes_ : list Z;
  bucket_index_lookup_ : list Z
}.

(** The constructor of [BucketIndexLookup].  The loop state is the pair of
    the entries written so far and [bucket_index]. *)
Definition BucketIndexLookup (p : Platform) : option Lookup :=
  let sentinel_bucket_index := kNumBuckets p in
  let sizes := InitBucketSizes p in
  let entry (order : Z) (_ : Z) (st : list Z * Z) : option (list Z * Z) :=
    let '(out, bucket_index) := st in
    if order <? kMinBucketedOrder p then Some (out ++ [0], bucket_index)
    else if order >? kMaxBucketedOrder then
      Some (out ++ [sentinel_bucket_index], bucket_index)
    else
      match skip_pseudo_buckets p (skipn (Z.to_nat bucket_index) sizes) bucket_index with
      | Some valid_bucket_index =>
          Some (out ++ [valid_bucket_index], bucket_index + 1)
      | None => None
      end in
  let per_order (order : Z) (st : list Z * Z) : option (list Z * Z) :=
    for_loop kNumBucketsPerOrder (entry order) st in
  match for_loop (kBitsPerSizeT p + 1) per_order ([], 0) with
  | Some (out, _) => Some (mkLookup sizes (out ++ [sentinel_bucket_index]))
  | None => None
  end.

(** The three quantities [GetIndex] derives from a size. *)
Definition order_of (p : Platform) (size : Z) : Z :=
  kBitsPerSizeT p - CountLeadingZeroBitsSizeT p size.

Definition order_index_of (p : Platform) (size : Z) : Z :=
  Z.land (Z.shiftr size (at_index (kOrderIndexShift p) (order_of p size)))
         (kNumBucketsPerOrder - 1).

Definition sub_order_index_of (p : Platform) (size : Z) : Z :=
  Z.land size (at_index (kOrderSubIndexMask p) (order_of p size)).

(** The position read in [bucket_index_lookup_]; [!!x] is [1] for a
    non-zero [x]. *)
Definition lookup_position (p : Platform) (size : Z) : Z :=
  Z.shiftl (order_of p size) kNumBucketsPerOrderBits
  + order_index_of p size
  + (if sub_order_index_of p size =? 0 then 0 else 1).

(** [BucketIndexLookup::GetIndex]; [None] if the table could not be built
    or the read were out of range. *)
Definition GetIndex (p : Platform) (size : Z) : option Z :=
  match BucketIndexLookup p with
  | Some lookup =>
      nth_error (bucket_index_lookup_ lookup) (Z.to_nat (lookup_position p size))
  | None => None
  end.

(** [PartitionRoot::SizeToBucketIndex]: the index narrowed to [uint16_t]. *)
Definition SizeToBucketIndex (p : Platform) (size : Z) : option Z :=
  option_map (fun index => index mod 2 ^ 16) (GetIndex p size).

Definition p64_16 := mkPlatform 64 16.
Definition p64_8 := mkPlatform 64 8.
Definition p32_16 := mkPlatform 32 16.
Definition p32_8 := mkPlatform 32 8.



(** ** Build configuration *)

(** The preprocessor switches and the constants of headers that are not
    among the sources, as one value.  [kCookieValue] is the byte pattern of
    a cookie, [kRefCountInitial] the object representation of a freshly
    constructed [PartitionRefCount], [kSentinelSlotSpan] the address of the
    static sentinel slot span. *)
Record Build := mkBuild {
  platform :> Platform;
  ENABLE_REF_COUNT_FOR_BACKUP_REF_PTR : bool;
  DCHECK_IS_ON : bool;
  MEMORY_TOOL_REPLACES_ALLOCATOR : bool;
  MaxDirectMapped : Z;
  SystemPageSize : Z;
  kSuperPageSize : Z;
  kCookieValue : list Z;
  kRefCountInitial : list Z;
  kUninitializedByte : Z;
  kFreedByte : Z;
  kQuarantinedByte : Z;
  kSentinelSlotSpan : Z
}.

Definition kCookieSize (b : Build) : Z := Z.of_nat (length (kCookieValue b)).
Definition kRefCountSize (b : Build) : Z := Z.of_nat (length (kRefCountInitial b)).

(** [MaxDirectMapped() <= (1UL << 31) + PageAllocationGranularity()] is
    asserted at start-up; bucketed sizes lie below it.  Only the weaker
    facts that it is a [size_t] above [kMaxBucketed] are used. *)
Definition build_ok (b : Build) : bool :=
  supported b
  && (kMaxBucketed <? MaxDirectMapped b)
  && (MaxDirectMapped b <? size_max_plus_1 b).

(** Modelled from the spec: the flags [{ReturnNull, ZeroFill, NoHooks}] of
    [AllocFlags] (section 4.4), defined in partition_alloc_constants.h; they
    are three distinct bits. *)
Definition PartitionAllocReturnNull : Z := Z.shiftl 1 0.
Definition PartitionAllocZeroFill : Z := Z.shiftl 1 1.
Definition PartitionAllocNoHooks : Z := Z.shiftl 1 2.

(** [flags & f] as a condition. *)
Definition has_flag (flags f : Z) : bool := negb (Z.land flags f =? 0).

(** Bitwise NOT of a [uintptr_t]. *)
Definition bitwise_not (p : Platform) (x : Z) : Z := to_size_t p (Z.lnot x).

(** Modelled from the spec: [SystemPageBaseMask()] and [kSuperPageBaseMask]
    of the constants header, "masking with [~(SuperPageSize - 1)]"
    (section 3). *)
Definition SystemPageBaseMask (b : Build) : Z := bitwise_not b (SystemPageSize b - 1).
Definition kSuperPageBaseMask (b : Build) : Z := bitwise_not b (kSuperPageSize b - 1).

(** Modelled from the spec: [PartitionSuperPageToMetadataArea] of
    partition_page.h; the metadata follows the leading guard page of the
    super page (section 4.2). *)
Definition PartitionSuperPageToMetadataArea (b : Build) (super_page : Z) : Z :=
  to_size_t b (super_page + SystemPageSize b).

(** Modelled from the spec: [bits::IsPowerOfTwo] of base/bits.h;
    "[alignment] has to be a power of two" (partition_root.h:260). *)
Definition IsPowerOfTwo (x : Z) : bool := (0 <? x) && (x =? 2 ^ Z.log2 x).

(** ** Outcomes of a call *)

(** A call either returns or terminates the process ([PA_CHECK] failure,
    out-of-memory crash). *)
Inductive outcome (A : Type) : Type :=
| Returns (a : A)
| Crashes.
Arguments Returns {A} a.
Arguments Crashes {A}.

Definition bind {A B : Type} (m : outcome A) (k : A -> outcome B) : outcome B :=
  match m with
  | Returns a => k a
  | Crashes => Crashes
  end.

Notation "x <- m ;; k" := (bind m (fun x => k))
  (at level 61, m at next level, right associativity).
Notation "' pat <- m ;; k" := (bind m (fun x => match x with pat => k end))
  (at level 61, pat pattern, m at next level, right associativity).

Definition PA_CHECK (c : bool) : outcome unit := if c then Returns tt else Crashes.

(** [PA_DCHECK] is compiled out unless [DCHECK_IS_ON()]. *)
Definition PA_DCHECK (b : Build) (c : bool) : outcome unit :=
  if DCHECK_IS_ON b then PA_CHECK c else Returns tt.

(** ** Data model *)

Inductive Alignment := kRegular | kAlignedAlloc.
Inductive ThreadCacheOption := ThreadCache_kDisabled | ThreadCache_kEnabled.
Inductive PCScanOption := kAlwaysDisabled | kDisabledByDefault | kForcedEnabledForTesting.
Inductive RefCountOption := RefCount_kEnabled | RefCount_kDisabled.

Record PartitionOptions := mkOptions {
  alignment : Alignment;
  thread_cache : ThreadCacheOption;
  pcscan : PCScanOption;
  ref_count : RefCountOption
}.

Inductive PCScanMode := kNonScannable | kDisabled | kEnabled.

(** The fields of [PartitionBucket] that partition_root.h reads.
    [is_direct_mapped()] holds for a bucket without system pages per slot
    span. *)
Record Bucket := mkBucket {
  slot_size : Z;
  active_slot_spans_head : Z;
  num_system_pages_per_slot_span : Z
}.

Definition is_direct_mapped (bk : Bucket) : bool :=
  num_system_pages_per_slot_span bk =? 0.

(** A [Bucket*]: an element of a root's [buckets] array (index
    [kNumBuckets] is the sentinel bucket that follows the array), or a bucket
    stored with a direct-map extent. *)
Inductive BucketPtr :=
| RootBucket (root : Z) (index : Z)
| ExtentBucket (address : Z).

Definition BucketPtr_eqb (x y : BucketPtr) : bool :=
  match x, y with
  | RootBucket r i, RootBucket r' i' => (r =? r') && (i =? i')
  | ExtentBucket a, ExtentBucket a' => a =? a'
  | _, _ => false
  end.

(** The fields of [SlotSpanMetadata] that partition_root.h reads;
    [raw_size] is present when [CanStoreRawSize()]. *)
Record SlotSpanMetadata := mkSlotSpan {
  freelist_head : Z;
  num_allocated_slots : Z;
  bucket : BucketPtr;
  raw_size : option Z
}.

Record PartitionRoot := mkRoot {
  pcscan_mode : PCScanMode;
  with_thread_cache : bool;
  is_thread_safe : bool;
  allow_ref_count : bool;
  allow_cookies : bool;
  extras_size : Z;
  extras_offset : Z;
  buckets : list Bucket;
  sentinel_bucket : Bucket;
  initialized : bool;
  inverted_self : Z
}.

(** Calls into the collaborators that have an effect outside the partition,
    in the order they were made (most recent first). *)
Inductive Event :=
| EvAllocationOverrideHook (flags size : Z)
| EvAllocationObserverHook (ptr size : Z)
| EvFreeObserverHook (ptr : Z)
| EvFreeOverrideHook (ptr : Z)
| EvMoveToQuarantine (ptr slot_span : Z)
| EvThreadCachePut (ptr bucket_index : Z)
| EvSlotSpanFree (slot_span ptr : Z)
| EvLibcAlloc (zeroed : bool) (size : Z)
| EvLibcFree (ptr : Z).

(** The process memory, one typed store per kind of object, by address. *)
Record Heap := mkHeap {
  roots : Z -> PartitionRoot;
  slot_spans : Z -> SlotSpanMetadata;
  extent_buckets : Z -> Bucket;
  extent_root : Z -> Z;        (* [SuperPageExtentEntry::root] *)
  span_of : Z -> Z;            (* page descriptors: address -> its slot span *)
  mem : Z -> Z;                (* bytes of the payload *)
  trace : list Event
}.

Definition update {A : Type} (f : Z -> A) (k : Z) (v : A) : Z -> A :=
  fun x => if x =? k then v else f x.

Definition set_root (h : Heap) (this : Z) (r : PartitionRoot) : Heap :=
  mkHeap (update (roots h) this r) (slot_spans h) (extent_buckets h)
         (extent_root h) (span_of h) (mem h) (trace h).

Definition set_slot_span (h : Heap) (a : Z) (s : SlotSpanMetadata) : Heap :=
  mkHeap (roots h) (update (slot_spans h) a s) (extent_buckets h)
         (extent_root h) (span_of h) (mem h) (trace h).

Definition set_mem (h : Heap) (m : Z -> Z) : Heap :=
  mkHeap (roots h) (slot_spans h) (extent_buckets h)
         (extent_root h) (span_of h) m (trace h).

Definition record (e : Event) (h : Heap) : Heap :=
  mkHeap (roots h) (slot_spans h) (extent_buckets h)
         (extent_root h) (span_of h) (mem h) (e :: trace h).

Definition set_with_thread_cache (r : PartitionRoot) (v : bool) : PartitionRoot :=
  mkRoot (pcscan_mode r) v (is_thread_safe r) (allow_ref_count r) (allow_cookies r)
         (extras_size r) (extras_offset r) (buckets r) (sentinel_bucket r)
         (initialized r) (inverted_self r).

(** [memset(dst, value, n)]. *)
Definition memset (m : Z -> Z) (dst value n : Z) : Z -> Z :=
  fun a => if (dst <=? a) && (a <? dst + n) then value else m a.

(** Storing the bytes [bs] from address [dst] on. *)
Fixpoint write_bytes (m : Z -> Z) (dst : Z) (bs : list Z) : Z -> Z :=
  match bs with
  | [] => m
  | x :: bs' => write_bytes (update m dst x) (dst + 1) bs'
  end.

Fixpoint read_bytes (m : Z -> Z) (src : Z) (n : nat) : list Z :=
  match n with
  | O => []
  | S n' => m src :: read_bytes m (src + 1) n'
  end.

Fixpoint list_Z_eqb (l1 l2 : list Z) : bool :=
  match l1, l2 with
  | [], [] => true
  | x :: l1', y :: l2' => (x =? y) && list_Z_eqb l1' l2'
  | _, _ => false
  end.

(** [bucket_at(i)]: index [kNumBuckets] is occupied by the sentinel bucket. *)
Definition bucket_at (r : PartitionRoot) (i : Z) : Bucket :=
  nth (Z.to_nat i) (buckets r ++ [sentinel_bucket r]) (sentinel_bucket r).

Definition load_bucket (h : Heap) (bp : BucketPtr) : Bucket :=
  match bp with
  | RootBucket root i => bucket_at (roots h root) i
  | ExtentBucket a => extent_buckets h a
  end.

(** ** Collaborators *)

(** The functions partition_root.h calls whose code is outside the sources:
    the slow path of partition_bucket.cc, the free-list and slot-span
    operations of partition_page.h, the thread cache, the hooks, the
    quarantine, the reference count and the C library. *)
Record Collaborators := mkCollaborators {
  SlowPathAlloc : Z -> BucketPtr -> Z -> Z -> Heap -> outcome (Z * bool * Heap);
  FreelistGetNext : Heap -> Z -> Z;
  SlotSpanFree : Z -> Z -> Heap -> outcome (Z * Heap);
  DeferredUnmapRun : Z -> Heap -> Heap;
  ThreadCacheGet : Heap -> Z;
  ThreadCacheCreate : Z -> Heap -> Z * Heap;
  GetFromCache : Z -> Z -> Heap -> Z * Z * Heap;
  MaybePutInCache : Z -> Z -> Z -> Heap -> bool * Heap;
  AreHooksEnabled : Heap -> bool;
  AllocationOverrideHookIfEnabled : Z -> Z -> Heap -> bool * Z * Heap;
  AllocationObserverHookIfEnabled : Z -> Z -> Heap -> Heap;
  FreeObserverHookIfEnabled : Z -> Heap -> Heap;
  FreeOverrideHookIfEnabled : Z -> Heap -> bool * Heap;
  MoveToQuarantine : Z -> Z -> Heap -> Heap;
  HasOneRef : Heap -> Z -> bool;
  ReleaseFromAllocator : Z -> Heap -> bool * Heap;
  libc_malloc : Z -> Heap -> Z * Heap;
  libc_calloc : Z -> Z -> Heap -> Z * Heap;
  libc_free : Z -> Heap -> Heap
}.

(** ** The partition root *)

Section PartitionRootCode.
Variable C : Collaborators.
Variable b : Build.

(** Modelled from the spec: [SlotSpanMetadata::FromPointer] and
    [FromPointerNoAlignmentCheck] of partition_page.h; the page descriptors
    of the super page recover the slot span from any payload pointer
    (section 4.2). *)
Definition FromPointerNoAlignmentCheck (h : Heap) (ptr : Z) : Z := span_of h ptr.
Definition FromPointer (h : Heap) (ptr : Z) : Z := span_of h ptr.

(** Modelled from the spec: [SlotSpanMetadata::GetUtilizedSlotSize] of
    partition_page.h: the raw size where the span can store it ("large
    allocations", partition_root.h:1212), the bucket's slot size
    otherwise. *)
Definition CanStoreRawSize (s : SlotSpanMetadata) : bool :=
  match raw_size s with Some _ => true | None => false end.

Definition GetUtilizedSlotSize (h : Heap) (slot_span : Z) : Z :=
  let s := slot_spans h slot_span in
  match raw_size s with
  | Some raw => raw
  | None => slot_size (load_bucket h (bucket s))
  end.

Definition AdjustSizeForExtrasAdd (r : PartitionRoot) (size : Z) : outcome Z :=
  _ <- PA_DCHECK b (to_size_t b (size + extras_size r) >=? size) ;;
  Returns (to_size_t b (size + extras_size r)).

Definition AdjustSizeForExtrasSubtract (r : PartitionRoot) (size : Z) : Z :=
  to_size_t b (size - extras_size r).

Definition AdjustPointerForExtrasAdd (r : PartitionRoot) (ptr : Z) : Z :=
  to_size_t b (ptr + extras_offset r).

Definition AdjustPointerForExtrasSubtract (r : PartitionRoot) (ptr : Z) : Z :=
  to_size_t b (ptr - extras_offset r).

Definition FromSlotSpan (h : Heap) (slot_span : Z) : Z :=
  extent_root h (Z.land slot_span (SystemPageBaseMask b)).

Definition IsValidSlotSpan (h : Heap) (slot_span : Z) : bool :=
  let root := FromSlotSpan h slot_span in
  inverted_self (roots h root) =? bitwise_not b root.

Definition FromSuperPage (h : Heap) (super_page : Z) : outcome Z :=
  let root := extent_root h (PartitionSuperPageToMetadataArea b super_page) in
  _ <- PA_DCHECK b (inverted_self (roots h root) =? bitwise_not b root) ;;
  Returns root.

(** [FromPointerInNormalBucketPool]; [IsManagedByPartitionAllocDirectMap]
    is the query of the address pools, whose code is outside the sources. *)
Definition FromPointerInNormalBucketPool
    (IsManagedByPartitionAllocDirectMap : Heap -> Z -> bool) (h : Heap) (ptr : Z)
  : outcome Z :=
  _ <- PA_DCHECK b (negb (IsManagedByPartitionAllocDirectMap h ptr)) ;;
  FromSuperPage h (Z.land ptr (kSuperPageBaseMask b)).

Definition IsScanEnabled (r : PartitionRoot) : bool :=
  match pcscan_mode r with kEnabled => true | _ => false end.

Definition GetUsableSize (h : Heap) (ptr : Z) : Z :=
  let slot_span := FromPointerNoAlignmentCheck h ptr in
  let root := FromSlotSpan h slot_span in
  let size := GetUtilizedSlotSize h slot_span in
  AdjustSizeForExtrasSubtract (roots h root) size.

(** Modelled from the spec: [PartitionCookieWriteValue] and
    [PartitionCookieCheckValue] of partition_cookie.h: a cookie is
    [kCookieSize] bytes of a fixed pattern (section 4.5). *)
Definition PartitionCookieWriteValue (h : Heap) (ptr : Z) : Heap :=
  set_mem h (write_bytes (mem h) ptr (kCookieValue b)).

Definition PartitionCookieCheckValue (h : Heap) (ptr : Z) : outcome unit :=
  PA_DCHECK b (list_Z_eqb (read_bytes (mem h) ptr (length (kCookieValue b)))
                          (kCookieValue b)).

(** Modelled from the spec: placement [new] of a [PartitionRefCount] at
    [PartitionRefCountPointer(slot_start)]; the count is "placed at the slot
    start" (section 4.5). *)
Definition PartitionRefCountPointer (slot_start : Z) : Z := slot_start.

Definition PartitionRefCountConstruct (h : Heap) (address : Z) : Heap :=
  set_mem h (write_bytes (mem h) address (kRefCountInitial b)).

(** [AllocFromBucket]; the result is the slot, [*utilized_slot_size],
    [*is_already_zeroed] and the heap.  The out-parameters are left unset
    ([0], [false]) when the slow path returns [nullptr]. *)
Definition AllocFromBucket (this : Z) (bucket_ptr : BucketPtr) (flags raw_sz : Z)
    (h : Heap) : outcome (Z * Z * bool * Heap) :=
  let bk := load_bucket h bucket_ptr in
  let slot_span := active_slot_spans_head bk in
  _ <- PA_DCHECK b (negb (slot_span =? 0)) ;;
  _ <- PA_DCHECK b (num_allocated_slots (slot_spans h slot_span) >=? 0) ;;
  let ret := freelist_head (slot_spans h slot_span) in
  if negb (ret =? 0) then
    _ <- PA_DCHECK b (IsValidSlotSpan h slot_span) ;;
    _ <- PA_DCHECK b (negb (CanStoreRawSize (slot_spans h slot_span))) ;;
    _ <- PA_DCHECK b (negb (is_direct_mapped
                              (load_bucket h (bucket (slot_spans h slot_span))))) ;;
    let new_head := FreelistGetNext C h ret in
    let s := slot_spans h slot_span in
    let h1 := set_slot_span h slot_span
                (mkSlotSpan new_head (num_allocated_slots s + 1) (bucket s) (raw_size s)) in
    _ <- PA_DCHECK b (BucketPtr_eqb (bucket (slot_spans h1 slot_span)) bucket_ptr) ;;
    Returns (ret, slot_size bk, false, h1)
  else
    '(ret, is_already_zeroed, h1) <- SlowPathAlloc C this bucket_ptr flags raw_sz h ;;
    _ <- PA_DCHECK b ((ret =? 0) || IsValidSlotSpan h1 (FromPointer h1 ret)) ;;
    if ret =? 0 then Returns (0, 0, false, h1)
    else
      let slot_span := FromPointer h1 ret in
      _ <- PA_DCHECK b
             (BucketPtr_eqb (bucket (slot_spans h1 slot_span)) bucket_ptr
              || (is_direct_mapped (load_bucket h1 (bucket (slot_spans h1 slot_span)))
                  && BucketPtr_eqb bucket_ptr (RootBucket this (kNumBuckets b)))) ;;
      Returns (ret, GetUtilizedSlotSize h1 slot_span, is_already_zeroed, h1).

(** [RawAlloc]: [AllocFromBucket] under the lock. *)
Definition RawAlloc (this : Z) (bucket_ptr : BucketPtr) (flags raw_sz : Z) (h : Heap)
  : outcome (Z * Z * bool * Heap) :=
  AllocFromBucket this bucket_ptr flags raw_sz h.

(** The zero-size adjustment at the head of [AllocFlagsNoHooks]. *)
Definition initial_raw_size (requested_size : Z) : Z :=
  if ENABLE_REF_COUNT_FOR_BACKUP_REF_PTR b && (requested_size =? 0) then 1
  else requested_size.

(** "Fill the region kUninitializedByte (on debug builds, if not requested
    to 0) or 0 (if requested and not 0 already)." *)
Definition fill_region (flags : Z) (is_already_zeroed : bool) (ret usable_size : Z)
    (h : Heap) : Heap :=
  let zero_fill := has_flag flags PartitionAllocZeroFill in
  if negb zero_fill then
    if DCHECK_IS_ON b
    then set_mem h (memset (mem h) ret (kUninitializedByte b) usable_size)
    else h
  else if negb is_already_zeroed then set_mem h (memset (mem h) ret 0 usable_size)
  else h.

(** [ThreadCache::Get()], and on [nullptr] the creation of the thread's
    cache, during which the root is marked as not having one. *)
Definition thread_cache_for (this : Z) (h : Heap) : Z * Heap :=
  if ThreadCacheGet C h =? 0 then
    let hoff := set_root h this (set_with_thread_cache (roots h this) false) in
    let '(tc, hc) := ThreadCacheCreate C this hoff in
    (tc, set_root hc this (set_with_thread_cache (roots hc this) true))
  else (ThreadCacheGet C h, h).

(** The allocation proper of [AllocFlagsNoHooks]: the thread cache where
    the root has one (a hit is checked, in debug builds, to come from the
    bucket asked for), the raw allocator on a miss or without a cache.  The
    result is the slot, [utilized_slot_size], [is_already_zeroed] and the
    heap. *)
Definition take_slot (this flags bucket_index raw_sz : Z) (h : Heap)
  : outcome (Z * Z * bool * Heap) :=
  if is_thread_safe (roots h this) && with_thread_cache (roots h this) then
    let '(tcache, h0) := thread_cache_for this h in
    let '(ret, utilized_slot_size, h1) := GetFromCache C tcache bucket_index h0 in
    _ <- (if negb (ret =? 0) then
            let slot_span := FromPointerNoAlignmentCheck h1 ret in
            _ <- PA_DCHECK b (IsValidSlotSpan h1 slot_span) ;;
            _ <- PA_DCHECK b (BucketPtr_eqb (bucket (slot_spans h1 slot_span))
                                            (RootBucket this bucket_index)) ;;
            _ <- PA_DCHECK b (negb (CanStoreRawSize (slot_spans h1 slot_span))) ;;
            PA_DCHECK b (negb (is_direct_mapped
                                 (load_bucket h1 (bucket (slot_spans h1 slot_span)))))
          else Returns tt) ;;
    if ret =? 0 then
      RawAlloc this (RootBucket this bucket_index) flags raw_sz h1
    else Returns (ret, utilized_slot_size, false, h1)
  else RawAlloc this (RootBucket this bucket_index) flags raw_sz h.

(** The tail of [AllocFlagsNoHooks] for a slot at [slot_start]: cookies,
    filling, reference count; the result is the pointer given to the
    application. *)
Definition set_up_slot (this flags raw_sz slot_start utilized_slot_size : Z)
    (is_already_zeroed : bool) (h1 : Heap) : Z * Heap :=
  let r := roots h1 this in
  let usable_size := AdjustSizeForExtrasSubtract r utilized_slot_size in
  let ret := AdjustPointerForExtrasAdd r slot_start in
  let h2 :=
    if DCHECK_IS_ON b && allow_cookies r then
      PartitionCookieWriteValue
        (PartitionCookieWriteValue h1 (ret - kCookieSize b)) (ret + usable_size)
    else h1 in
  let h3 := fill_region flags is_already_zeroed ret usable_size h2 in
  let h4 :=
    if ENABLE_REF_COUNT_FOR_BACKUP_REF_PTR b then
      let is_direct := raw_sz >? kMaxBucketed in
      if allow_ref_count r && negb is_direct
      then PartitionRefCountConstruct h3 (PartitionRefCountPointer slot_start)
      else h3
    else h3 in
  (ret, h4).

Definition AllocFlagsNoHooks (this flags requested_size : Z) (h : Heap)
  : outcome (Z * Heap) :=
  let raw_sz := initial_raw_size requested_size in
  raw_sz <- AdjustSizeForExtrasAdd (roots h this) raw_sz ;;
  _ <- PA_CHECK (raw_sz >=? requested_size) ;;
  match SizeToBucketIndex b raw_sz with
  | None => Crashes
  | Some bucket_index =>
      '(ret, utilized_slot_size, is_already_zeroed, h1) <-
        take_slot this flags bucket_index raw_sz h ;;
      if ret =? 0 then Returns (0, h1)
      else Returns (set_up_slot this flags raw_sz ret utilized_slot_size
                                is_already_zeroed h1)
  end.

(** [CHECK_MAX_SIZE_OR_RETURN_NULLPTR(size, flags)], followed by [rest]. *)
Definition CHECK_MAX_SIZE_OR_RETURN_NULLPTR (size flags : Z) (h : Heap)
    (rest : outcome (Z * Heap)) : outcome (Z * Heap) :=
  if size >? MaxDirectMapped b then
    if has_flag flags PartitionAllocReturnNull then Returns (0, h)
    else Crashes
  else rest.

Definition PartitionAllocLastFlag : Z := PartitionAllocNoHooks.

Definition AllocFlags (this flags requested_size : Z) (h : Heap) : outcome (Z * Heap) :=
  _ <- PA_DCHECK b (flags <? Z.shiftl PartitionAllocLastFlag 1) ;;
  _ <- PA_DCHECK b (Z.land flags PartitionAllocNoHooks =? 0) ;;
  _ <- PA_DCHECK b (initialized (roots h this)) ;;
  if MEMORY_TOOL_REPLACES_ALLOCATOR b then
    CHECK_MAX_SIZE_OR_RETURN_NULLPTR requested_size flags h
      (let zero_fill := has_flag flags PartitionAllocZeroFill in
       let '(result, h1) :=
         if zero_fill
         then libc_calloc C 1 requested_size (record (EvLibcAlloc true requested_size) h)
         else libc_malloc C requested_size (record (EvLibcAlloc false requested_size) h) in
       _ <- PA_CHECK (negb (result =? 0) || has_flag flags PartitionAllocReturnNull) ;;
       Returns (result, h1))
  else
    let hooks_enabled := AreHooksEnabled C h in
    let '(overridden, ret, h1) :=
      if hooks_enabled
      then AllocationOverrideHookIfEnabled C flags requested_size
             (record (EvAllocationOverrideHook flags requested_size) h)
      else (false, 0, h) in
    if overridden then
      Returns (ret, AllocationObserverHookIfEnabled C ret requested_size
                      (record (EvAllocationObserverHook ret requested_size) h1))
    else
      '(ret, h2) <- AllocFlagsNoHooks this flags requested_size h1 ;;
      Returns (ret,
               if hooks_enabled
               then AllocationObserverHookIfEnabled C ret requested_size
                      (record (EvAllocationObserverHook ret requested_size) h2)
               else h2).

Definition Alloc (this requested_size : Z) (h : Heap) : outcome (Z * Heap) :=
  AllocFlags this 0 requested_size h.

(** The size [AlignedAllocFlags] asks the allocator for.  A shift by the
    full width of [size_t] yields [0] here, which the overflow check that
    follows rejects. *)
Definition aligned_request_size (alignment size : Z) : Z :=
  if size <? alignment then alignment
  else to_size_t b (Z.shiftl 1 (kBitsPerSizeT b
                                - CountLeadingZeroBitsSizeT b (to_size_t b (size - 1)))).

Definition AlignedAllocFlags (this flags alignment size : Z) (h : Heap)
  : outcome (Z * Heap) :=
  let r := roots h this in
  _ <- PA_DCHECK b (negb (allow_cookies r) && negb (allow_ref_count r)) ;;
  _ <- PA_CHECK (IsPowerOfTwo alignment) ;;
  let requested_size := aligned_request_size alignment size in
  if requested_size <? size then
    if has_flag flags PartitionAllocReturnNull then Returns (0, h)
    else Crashes (* PartitionExcessiveAllocationSize: OOM_CRASH *)
  else
    let no_hooks := has_flag flags PartitionAllocNoHooks in
    '(ptr, h1) <- (if no_hooks then AllocFlagsNoHooks this 0 requested_size h
                   else Alloc this requested_size h) ;;
    _ <- PA_CHECK (Z.land ptr (alignment - 1) =? 0) ;;
    Returns (ptr, h1).

(** [RawFree(ptr, slot_span)]: [slot_span->Free(ptr)] under the lock, then
    the deferred unmapping. *)
Definition RawFree (this ptr slot_span : Z) (h : Heap) : outcome Heap :=
  '(deferred_unmap, h1) <- SlotSpanFree C slot_span ptr
                             (record (EvSlotSpanFree slot_span ptr) h) ;;
  Returns (DeferredUnmapRun C deferred_unmap h1).

(** [slot_span->bucket - this->buckets]. *)
Definition bucket_index_in (this : Z) (bp : BucketPtr) : Z :=
  match bp with
  | RootBucket _ i => i
  | ExtentBucket _ => kNumBuckets b
  end.

(** [bucket >= this->buckets && bucket <= &this->sentinel_bucket]: the
    bucket is an element of this root's array or the sentinel bucket that
    follows it. *)
Definition bucket_within_root (this : Z) (bp : BucketPtr) : bool :=
  match bp with
  | RootBucket root i => (root =? this) && (0 <=? i) && (i <=? kNumBuckets b)
  | ExtentBucket _ => false
  end.

Definition RawFreeWithThreadCache (this ptr slot_span : Z) (h : Heap) : outcome Heap :=
  let r := roots h this in
  let bp := bucket (slot_spans h slot_span) in
  if is_thread_safe r && (with_thread_cache r && negb (is_direct_mapped (load_bucket h bp)))
  then
    _ <- PA_DCHECK b (bucket_within_root this bp) ;;
    let bucket_index := bucket_index_in this bp in
    let thread_cache := ThreadCacheGet C h in
    if negb (thread_cache =? 0) then
      let '(put, h1) := MaybePutInCache C thread_cache ptr bucket_index
                          (record (EvThreadCachePut ptr bucket_index) h) in
      if put then Returns h1 else RawFree this ptr slot_span h1
    else RawFree this ptr slot_span h
  else RawFree this ptr slot_span h.

Definition FreeNoHooksImmediate (this ptr slot_span : Z) (h : Heap) : outcome Heap :=
  _ <- PA_DCHECK b (negb (ptr =? 0)) ;;
  _ <- PA_DCHECK b (negb (slot_span =? 0)) ;;
  _ <- PA_DCHECK b (IsValidSlotSpan h slot_span) ;;
  let r := roots h this in
  let utilized_slot_size := GetUtilizedSlotSize h slot_span in
  let usable_size := AdjustSizeForExtrasSubtract r utilized_slot_size in
  let slot_start := AdjustPointerForExtrasSubtract r ptr in
  _ <- (if DCHECK_IS_ON b && allow_cookies r then
          _ <- PartitionCookieCheckValue h (ptr - kCookieSize b) ;;
          PartitionCookieCheckValue h (ptr + usable_size)
        else Returns tt) ;;
  let direct := is_direct_mapped (load_bucket h (bucket (slot_spans h slot_span))) in
  let '(released, h1) :=
    if ENABLE_REF_COUNT_FOR_BACKUP_REF_PTR b && (allow_ref_count r && negb direct) then
      let ref_count := PartitionRefCountPointer slot_start in
      let h0 := if negb (HasOneRef C h ref_count)
                then set_mem h (memset (mem h) ptr (kQuarantinedByte b) usable_size)
                else h in
      ReleaseFromAllocator C ref_count h0
    else (true, h) in
  if negb released then Returns h1
  else
    let ptr := slot_start in
    let h2 := if DCHECK_IS_ON b
              then set_mem h1 (memset (mem h1) ptr (kFreedByte b) utilized_slot_size)
              else h1 in
    RawFreeWithThreadCache this ptr slot_span h2.

Definition FreeNoHooks (ptr : Z) (h : Heap) : outcome Heap :=
  if ptr =? 0 then Returns h
  else
    let slot_span := FromPointerNoAlignmentCheck h ptr in
    _ <- PA_DCHECK b (IsValidSlotSpan h slot_span) ;;
    let root := FromSlotSpan h slot_span in
    if IsScanEnabled (roots h root)
       && negb (is_direct_mapped (load_bucket h (bucket (slot_spans h slot_span))))
    then Returns (MoveToQuarantine C ptr slot_span
                    (record (EvMoveToQuarantine ptr slot_span) h))
    else FreeNoHooksImmediate root ptr slot_span h.

Definition Free (ptr : Z) (h : Heap) : outcome Heap :=
  if MEMORY_TOOL_REPLACES_ALLOCATOR b then
    Returns (libc_free C ptr (record (EvLibcFree ptr) h))
  else if ptr =? 0 then Returns h
  else if AreHooksEnabled C h then
    let h1 := FreeObserverHookIfEnabled C ptr (record (EvFreeObserverHook ptr) h) in
    let '(overridden, h2) :=
      FreeOverrideHookIfEnabled C ptr (record (EvFreeOverrideHook ptr) h1) in
    if overridden then Returns h2 else FreeNoHooks ptr h2
  else FreeNoHooks ptr h.

(** Modelled from the spec: [PartitionRoot::Init] of partition_root.cc.
    The buckets take the sizes of the size classes (section 4.1); the extras
    are the reference count and the two cookies, the offset the reference
    count and the leading cookie, both absent for aligned-allocation
    partitions (section 4.5); [inverted_self] becomes the bitwise NOT of the
    root's address (section 3). *)
Definition Init (this : Z) (opts : PartitionOptions) (h : Heap) : Heap :=
  let r := roots h this in
  if initialized r then h
  else
    let regular := match alignment opts with kRegular => true | kAlignedAlloc => false end in
    let cookies := regular in
    let counted := regular && match ref_count opts with
                              | RefCount_kEnabled => true
                              | RefCount_kDisabled => false
                              end in
    let cookie := if DCHECK_IS_ON b && cookies then kCookieSize b else 0 in
    let count := if ENABLE_REF_COUNT_FOR_BACKUP_REF_PTR b && counted
                 then kRefCountSize b else 0 in
    set_root h this
      (mkRoot (match pcscan opts with
               | kAlwaysDisabled => kNonScannable
               | kDisabledByDefault => kDisabled
               | kForcedEnabledForTesting => kEnabled
               end)
              (match thread_cache opts with
               | ThreadCache_kEnabled => true
               | ThreadCache_kDisabled => false
               end)
              (is_thread_safe r)
              counted
              cookies
              (count + 2 * cookie)
              (count + cookie)
              (map (fun size => mkBucket size (kSentinelSlotSpan b) 1) (InitBucketSizes b))
              (mkBucket 0 (kSentinelSlotSpan b) 0)
              true
              (bitwise_not b this)).

End PartitionRootCode.
(** ** Checks on the table constant *)

(** Positions of the sizes below [2^4], where the shift is [0] and the
    sub-order mask is empty. *)
Definition small_positions : list Z :=
  [0; 9; 18; 19; 28; 29; 30; 31; 32; 33; 34; 35; 36; 37; 38; 39].

Fixpoint nondecreasing (l : list Z) : bool :=
  match l with
  | [] => true
  | x :: tl =>
      match tl with
      | [] => true
      | y :: _ => (x <=? y) && nondecreasing tl
      end
  end.

(** The number of steps of its order that a size needs, rounding up. *)
Definition steps_up (n d : Z) : Z := n / d + (if n mod d =? 0 then 0 else 1).

(** The largest size served at table position [k >= 40]: the step count
    [k mod 8 + 8] times the step [2 ^ (k / 8 - 4)] of that order. *)
Definition step_bound (k : Z) : Z := (k mod 8 + 8) * 2 ^ (k / 8 - 4).

Definition table_checks (p : Platform) (lk : Lookup) : bool :=
  let tbl := bucket_index_lookup_ lk in
  let sizes := bucket_sizes_ lk in
  let last := (kBitsPerSizeT p + 1) * kNumBucketsPerOrder in
  (Z.of_nat (length tbl) =? last + 1)
  && (Z.of_nat (length sizes) =? kNumBuckets p)
  && nondecreasing tbl
  && (at_index tbl 0 =? 0)
  && (at_index tbl last =? kNumBuckets p)
  && (at_index tbl (lookup_position p kMaxBucketed) =? kNumBuckets p - 1)
  && (at_index tbl (lookup_position p (kMaxBucketed + 1)) =? kNumBuckets p)
  && (at_index sizes (kNumBuckets p - 1) =? kMaxBucketed)
  && forallb (fun i => (i =? kNumBuckets p)
                       || (at_index sizes i mod kSmallestBucket p =? 0)) tbl
  && forallb (fun n => n <=? at_index sizes (at_index tbl (at_index small_positions n)))
             (upto 16)
  && forallb (fun k => step_bound k <=? at_index sizes (at_index tbl k))
             (map (Z.add 40) (upto 128)).

Definition table_ok (p : Platform) : bool :=
  match BucketIndexLookup p with
  | Some lk => table_checks p lk
  | None => false
  end.


(** The size of bucket [i] according to the table constant. *)
Definition bucket_size (p : Platform) (i : Z) : Z :=
  match BucketIndexLookup p with
  | Some lk => at_index (bucket_sizes_ lk) i
  | None => 0
  end.

(** ** Invariants of the heap and contracts of the collaborators *)

(** What the fast path of [AllocFromBucket] relies on for the bucket at
    [idx]: its active slot span exists, and a slot at the head of that
    span's free list lies in the address space, belongs to that span (whose
    super page belongs to [this] root), and the span is one of bucket [idx]
    that stores no raw size.  The sentinel bucket (index [kNumBuckets]) has
    no free list: "No fast path for direct-mapped allocations". *)
Definition freelist_entry_ok (b : Build) (this : Z) (h : Heap) (idx : Z) : bool :=
  let r := roots h this in
  let bk := bucket_at r idx in
  let sp := active_slot_spans_head bk in
  let s := slot_spans h sp in
  let ret := freelist_head s in
  negb (sp =? 0) && (0 <=? num_allocated_slots s)
  && ((ret =? 0)
      || ((idx <? kNumBuckets b) && (0 <? ret)
          && (ret + slot_size bk <=? size_max_plus_1 b)
          && (span_of h (AdjustPointerForExtrasAdd b r ret) =? sp)
          && (FromSlotSpan b h sp =? this)
          && negb (CanStoreRawSize s)
          && BucketPtr_eqb (bucket s) (RootBucket this idx))).

(** The static part of an initialised root: the slot sizes are the size
    classes, the offset of the returned pointer lies within the extras, the
    extras leave room in a bucketed slot, and a reference count fits before
    the returned pointer. *)
Definition root_ok (b : Build) (r : PartitionRoot) : bool :=
  list_Z_eqb (map slot_size (buckets r)) (InitBucketSizes b)
  && (0 <=? extras_offset r) && (extras_offset r <=? extras_size r)
  && (extras_size r <? kMaxBucketed)
  && (negb (ENABLE_REF_COUNT_FOR_BACKUP_REF_PTR b && allow_ref_count r)
      || (kRefCountSize b <=? extras_offset r)).

(** The invariant of the partition at [this], over every bucket the lookup
    table can name. *)
Definition heap_ok (b : Build) (this : Z) (h : Heap) : bool :=
  root_ok b (roots h this)
  && match BucketIndexLookup b with
     | Some lk => forallb (freelist_entry_ok b this h) (bucket_index_lookup_ lk)
     | None => false
     end.

(** The fields of the root fixed by [Init]. *)
Definition same_config (r r' : PartitionRoot) : Prop :=
  extras_size r' = extras_size r /\ extras_offset r' = extras_offset r
  /\ allow_ref_count r' = allow_ref_count r /\ allow_cookies r' = allow_cookies r.

(** The slot that starts at [ret], of utilized size [u], has been handed
    out by the root at [this]: it lies in the address space, and the
    metadata lookup from the pointer the application receives finds a slot
    span of that root with that utilized size. *)
Definition handed_out (b : Build) (this : Z) (h : Heap) (ret u : Z) : Prop :=
  0 < ret /\ ret + u <= size_max_plus_1 b /\
  let sp := span_of h (AdjustPointerForExtrasAdd b (roots h this) ret) in
  FromSlotSpan b h sp = this /\ GetUtilizedSlotSize h sp = u.

(** What [AllocFlagsNoHooks] knows of the slot [take_slot] produced from
    heap [h]: the configuration of the root is as before; a slot that was
    found is large enough for [raw], handed out by this root, and zero where
    reported so. *)
Definition slot_result (b : Build) (this raw : Z) (h h1 : Heap) (ret u : Z) (z : bool)
  : Prop :=
  same_config (roots h this) (roots h1 this) /\
  (ret <> 0 ->
   raw <= u /\ handed_out b this h1 ret u /\
   (z = true -> forall a, ret <= a < ret + u -> mem h1 a = 0)).

(** A call of the [Alloc] family with result [p]: [AllocFlagsNoHooks], or
    [AllocFlags] ([Alloc] is [AllocFlags] with no flag) in a build that does
    not leave allocation to a memory tool, while no hook is installed. *)
Definition allocation_returns (C : Collaborators) (b : Build) (this flags n : Z)
    (h : Heap) (p : Z) (h' : Heap) : Prop :=
  AllocFlagsNoHooks C b this flags n h = Returns (p, h') \/
  (MEMORY_TOOL_REPLACES_ALLOCATOR b = false /\ AreHooksEnabled C h = false /\
   AllocFlags C b this flags n h = Returns (p, h')).

(** What partition_root.h expects of the code it calls.
    - The thread cache a root with [with_thread_cache] obtains
      ([ThreadCache::Get()], created on first use) keeps the invariant and
      the configuration; a hit is a slot of the bucket asked for
      ([PA_DCHECK]s at partition_root.h:1168), never the sentinel's
      ("bypassed for direct-map allocations").
    - The slow path, called for the bucket of the raw size, keeps the
      configuration; "[utilized_slot_size] is guaranteed to be larger or
      equal to [raw_size]" (partition_root.h:435); memory reported as
      already zeroed is zero.
    - A request above [MaxDirectMapped] is out of memory: the slow path
      returns [nullptr] under [ReturnNull] and crashes otherwise. *)
Record CollaboratorsSpec (C : Collaborators) (b : Build) : Prop := mkSpec {
  spec_thread_cache :
    forall this h tcache h0 idx ret u h1,
      heap_ok b this h = true ->
      with_thread_cache (roots h this) = true ->
      thread_cache_for C this h = (tcache, h0) ->
      GetFromCache C tcache idx h0 = (ret, u, h1) ->
      heap_ok b this h1 = true /\ same_config (roots h this) (roots h1 this) /\
      (ret <> 0 ->
       0 <= idx < kNumBuckets b /\
       u = slot_size (bucket_at (roots h1 this) idx) /\
       handed_out b this h1 ret u);
  spec_SlowPathAlloc :
    forall this idx flags raw h ret z h',
      heap_ok b this h = true -> is_size_t b raw ->
      SizeToBucketIndex b raw = Some idx ->
      SlowPathAlloc C this (RootBucket this idx) flags raw h = Returns (ret, z, h') ->
      same_config (roots h this) (roots h' this) /\
      (ret <> 0 ->
       let u := GetUtilizedSlotSize h' (FromPointer h' ret) in
       raw <= u /\ handed_out b this h' ret u /\
       (z = true -> forall a, ret <= a < ret + u -> mem h' a = 0));
  spec_SlowPathAlloc_too_large :
    forall this flags raw h,
      heap_ok b this h = true -> is_size_t b raw -> MaxDirectMapped b < raw ->
      if has_flag flags PartitionAllocReturnNull
      then exists z h', SlowPathAlloc C this (RootBucket this (kNumBuckets b)) flags raw h
                        = Returns (0, z, h')
      else SlowPathAlloc C this (RootBucket this (kNumBuckets b)) flags raw h = Crashes
}.

(** ** A sample configuration *)

(** The addresses of the one region the sample slow path maps (its slot
    and the slot span that describes it) and of the one bin of the sample
    thread cache. *)
Definition direct_map_slot : Z := 4210688.
Definition direct_map_span : Z := 4198432.
Definition thread_cache_bin : Z := 12288.

(** A thread cache of one bin, identified with the root it serves.  The
    bin is kept like a slot span: its free-list head is the cached slot, its
    bucket the one the slot belongs to.  The cache hands the slot out to a
    request for that bucket after checking that the metadata describes it
    as a slot of that bucket and root. *)
Definition checked_cache_get (b : Build) (tcache idx : Z) (h : Heap) : Z * Z * Heap :=
  let bin := slot_spans h thread_cache_bin in
  let ret := freelist_head bin in
  let r := roots h tcache in
  let u := slot_size (bucket_at r idx) in
  let h1 := set_slot_span h thread_cache_bin (mkSlotSpan 0 0 (bucket bin) None) in
  let sp := span_of h1 (AdjustPointerForExtrasAdd b r ret) in
  if BucketPtr_eqb (bucket bin) (RootBucket tcache idx)
     && (0 <=? idx) && (idx <? kNumBuckets b)
     && (0 <? ret) && (ret + u <=? size_max_plus_1 b)
     && (FromSlotSpan b h1 sp =? tcache)
     && (GetUtilizedSlotSize h1 sp =? u)
     && heap_ok b tcache h1
  then (ret, u, h1)
  else (0, 0, h).

(** Collaborators of a process whose slow path maps a fresh, zeroed region
    for every request up to [MaxDirectMapped], stores the raw size with the
    region's slot span, and refuses anything larger; whose thread cache is
    the one above, set up anew by each call; and in which no hook is
    installed. *)
Definition direct_mapping (b : Build) : Collaborators :=
  mkCollaborators
    (fun this bp flags raw h =>
       if MaxDirectMapped b <? raw then
         if has_flag flags PartitionAllocReturnNull then Returns (0, false, h)
         else Crashes
       else
         Returns
           (direct_map_slot, true,
            mkHeap (roots h)
                   (update (slot_spans h) direct_map_span
                           (mkSlotSpan 0 1 bp (Some raw)))
                   (extent_buckets h)
                   (update (extent_root h)
                           (Z.land direct_map_span (SystemPageBaseMask b)) this)
                   (fun a =>
                      if (direct_map_slot <=? a)
                         && (a <? direct_map_slot + MaxDirectMapped b + kMaxBucketed)
                      then direct_map_span else span_of h a)
                   (memset (mem h) direct_map_slot 0 raw)
                   (trace h)))
    (fun _ _ => 0)
    (fun _ _ h => Returns (0, h))
    (fun _ h => h)
    (fun _ => 0)
    (fun this h => (this, h))
    (checked_cache_get b)
    (fun _ _ _ h => (false, h))
    (fun _ => false)
    (fun _ _ h => (false, 0, h))
    (fun _ _ h => h)
    (fun _ h => h)
    (fun _ h => (false, h))
    (fun _ _ h => h)
    (fun _ _ => true)
    (fun _ h => (true, h))
    (fun _ h => (0, h))
    (fun _ _ h => (0, h))
    (fun _ h => h).

(** A 64-bit build with 16-byte alignment; [rc] switches the reference
    count on, [dc] the debug checks. *)
Definition sample_build (rc dc : bool) : Build :=
  mkBuild p64_16 rc dc false (2 ^ 31 + 4096) 4096 (2 ^ 21)
          [222; 173; 190; 239; 202; 254; 208; 13; 19; 55; 240; 5; 186; 17; 171; 30]
          [1; 0; 0; 0; 0; 0; 0; 0; 0; 0; 0; 0; 0; 0; 0; 0]
          171 205 239 8192.

Definition sample_this : Z := 4096.
Definition sample_span : Z := 2105376.
Definition sample_slot : Z := 2162688.

Definition blank_heap : Heap :=
  mkHeap (fun _ => mkRoot kNonScannable false true false false 0 0 []
                          (mkBucket 0 0 0) false 0)
         (fun _ => mkSlotSpan 0 0 (ExtentBucket 0) None)
         (fun _ => mkBucket 0 0 0)
         (fun _ => sample_this)
         (fun _ => sample_span)
         (fun _ => 170)
         [].

Definition set_active_head (r : PartitionRoot) (idx head : Z) : PartitionRoot :=
  mkRoot (pcscan_mode r) (with_thread_cache r) (is_thread_safe r) (allow_ref_count r)
         (allow_cookies r) (extras_size r) (extras_offset r)
         (map (fun '(i, bk) =>
                 if i =? idx
                 then mkBucket (slot_size bk) head (num_system_pages_per_slot_span bk)
                 else bk)
              (combine (upto (Z.of_nat (length (buckets r)))) (buckets r)))
         (sentinel_bucket r) (initialized r) (inverted_self r).

(** The heap after [Init] with options [opts] and after bucket [idx] was
    given a slot span whose free list holds the one slot [sample_slot]. *)
Definition sample_heap (b : Build) (opts : PartitionOptions) (idx : Z) : Heap :=
  let h := Init b sample_this opts blank_heap in
  set_slot_span
    (set_root h sample_this (set_active_head (roots h sample_this) idx sample_span))
    sample_span
    (mkSlotSpan sample_slot 0 (RootBucket sample_this idx) None).

Definition regular_options : PartitionOptions :=
  mkOptions kRegular ThreadCache_kDisabled kAlwaysDisabled RefCount_kEnabled.

Definition aligned_options : PartitionOptions :=
  mkOptions kAlignedAlloc ThreadCache_kDisabled kAlwaysDisabled RefCount_kDisabled.

Definition cached_options : PartitionOptions :=
  mkOptions kRegular ThreadCache_kEnabled kAlwaysDisabled RefCount_kEnabled.

(** The pointer a call returns, if it returns. *)
Definition pointer_of (o : outcome (Z * Heap)) : option Z :=
  match o with
  | Returns (p, _) => Some p
  | Crashes => None
  end.

(** The heap a call leaves behind ([h] itself if the call crashes). *)
Definition heap_after (o : outcome (Z * Heap)) (h : Heap) : Heap :=
  match o with
  | Returns (_, h') => h'
  | Crashes => h
  end.

(** The sample build with the reference count compiled in, its heap with a
    free slot in bucket [idx], a call of [AllocFlagsNoHooks] on that heap
    and the heap the call leaves. *)
Definition counted_build : Build := sample_build true false.

Definition counted_heap (idx : Z) : Heap :=
  sample_heap counted_build regular_options idx.

Abbreviation sample_alloc flags n idx :=
  (AllocFlagsNoHooks (direct_mapping counted_build) counted_build sample_this flags n
     (counted_heap idx))
  (only parsing).

Abbreviation sample_alloc_heap flags n idx :=
  (heap_after (sample_alloc flags n idx) (counted_heap idx)) (only parsing).

(** The heap of a partition with a thread cache: the slot of the span of
    bucket 24 is not on the span's free list but in the cache's bin. *)
Definition cached_heap : Heap :=
  let h := Init counted_build sample_this cached_options blank_heap in
  set_slot_span
    (set_slot_span
       (set_root h sample_this (set_active_head (roots h sample_this) 24 sample_span))
       sample_span
       (mkSlotSpan 0 1 (RootBucket sample_this 24) None))
    thread_cache_bin
    (mkSlotSpan sample_slot 0 (RootBucket sample_this 24) None).

Abbreviation cached_alloc n :=
  (AllocFlagsNoHooks (direct_mapping counted_build) counted_build sample_this 0 n
     cached_heap)
  (only parsing).

Abbreviation cached_alloc_heap n := (heap_after (cached_alloc n) cached_heap)
  (only parsing).

(** A build without extras and a partition for aligned allocation, with a
    free slot in the 64-byte bucket. *)
Definition plain_build : Build := sample_build false false.

Definition aligned_heap : Heap := sample_heap plain_build aligned_options 16.

Abbreviation sample_aligned_alloc :=
  (AlignedAllocFlags (direct_mapping plain_build) plain_build sample_this 0 64 16
     aligned_heap)
  (only parsing).

(** A debug build (cookies, fill bytes, [PA_DCHECK]s) without the reference
    count, and its heap with a free slot in bucket [idx]. *)
Definition debug_build : Build := sample_build false true.

Definition debug_heap (idx : Z) : Heap :=
  sample_heap debug_build regular_options idx.

Abbreviation debug_alloc flags n idx :=
  (AllocFlagsNoHooks (direct_mapping debug_build) debug_build sample_this flags n
     (debug_heap idx))
  (only parsing).

Abbreviation debug_alloc_heap flags n idx :=
  (heap_after (debug_alloc flags n idx) (debug_heap idx)) (only parsing).

(** A partition that can be scanned, with a free slot in bucket [idx]. *)
Definition scan_options : PartitionOptions :=
  mkOptions kRegular ThreadCache_kDisabled kDisabledByDefault RefCount_kEnabled.

Definition scan_heap (idx : Z) : Heap := sample_heap counted_build scan_options idx.

(** Whether a call that frees returned, and the heap it left ([h] itself
    if it crashed). *)
Definition returned (o : outcome Heap) : bool :=
  match o with Returns _ => true | Crashes => false end.

Definition heap_of (o : outcome Heap) (h : Heap) : Heap :=
  match o with Returns h' => h' | Crashes => h end.

(** The heap after the sample slow path mapped a region of 2,000,000
    bytes. *)
Abbreviation mapped_heap := (sample_alloc_heap 0 2000000 8) (only parsing).

(** Collaborators like [C], except that every reference count has other
    holders: [HasOneRef] is false and [ReleaseFromAllocator] leaves the slot
    to them. *)
Definition with_outstanding_refs (C : Collaborators) : Collaborators :=
  mkCollaborators (SlowPathAlloc C) (FreelistGetNext C) (SlotSpanFree C)
    (DeferredUnmapRun C) (ThreadCacheGet C) (ThreadCacheCreate C) (GetFromCache C)
    (MaybePutInCache C) (AreHooksEnabled C) (AllocationOverrideHookIfEnabled C)
    (AllocationObserverHookIfEnabled C) (FreeObserverHookIfEnabled C)
    (FreeOverrideHookIfEnabled C) (MoveToQuarantine C)
    (fun _ _ => false) (fun _ h => (false, h))
    (libc_malloc C) (libc_calloc C) (libc_free C).

(** ** The size classes in closed form *)

(** [n] rounded up to a multiple of [a]. *)
Definition round_up (n a : Z) : Z := steps_up n a * a.

(** Step [j] of the [i]-th bucketed order, as [InitBucketSizes] reaches it:
    the order starts at [kSmallestBucket << i] and advances by
    [(kSmallestBucket >> kNumBucketsPerOrderBits) << i]. *)
Definition size_class (p : Platform) (i j : Z) : Z :=
  Z.shiftl (kSmallestBucket p) i
  + j * Z.shiftl (Z.shiftr (kSmallestBucket p) kNumBucketsPerOrderBits) i.

Fixpoint increasing (l : list Z) : bool :=
  match l with
  | [] => true
  | x :: tl =>
      match tl with
      | [] => true
      | y :: _ => (x <? y) && increasing tl
      end
  end.

(** Checks on the two arrays of the table constant: the sizes follow the
    closed form and increase; the size of a bucket that is a multiple of
    [kSmallestBucket] is looked up to that bucket; the entry at a position
    names the bucket whose size is the largest size served at that position,
    rounded up to a multiple of [kSmallestBucket]. *)
Definition sizes_checks (p : Platform) (lk : Lookup) : bool :=
  let tbl := bucket_index_lookup_ lk in
  let sizes := bucket_sizes_ lk in
  increasing sizes
  && forallb (fun i =>
                forallb (fun j => at_index sizes (i * kNumBucketsPerOrder + j)
                                  =? size_class p i j)
                        (upto kNumBucketsPerOrder))
             (upto (kNumBucketedOrders p))
  && forallb (fun j => negb (at_index sizes j mod kSmallestBucket p =? 0)
                       || (at_index tbl (lookup_position p (at_index sizes j)) =? j))
             (upto (kNumBuckets p))
  && forallb (fun n => at_index sizes (at_index tbl (at_index small_positions n))
                       =? round_up n (kSmallestBucket p))
             (map (Z.add 1) (upto 15))
  && forallb (fun k => at_index sizes (at_index tbl k)
                       =? round_up (step_bound k) (kSmallestBucket p))
             (map (Z.add 40) (upto 128)).

Definition sizes_ok (p : Platform) : bool :=
  match BucketIndexLookup p with
  | Some lk => sizes_checks p lk
  | None => false
  end.

(** ** Sizes of direct-mapped regions and [ActualSize] *)

(** Modelled from the spec: [bits::Align] of base/bits.h, the "align_up"
    of section 4.4: [(size + alignment - 1) & ~(alignment - 1)] on
    [size_t]. *)
Definition Align (p : Platform) (size alignment : Z) : Z :=
  Z.land (to_size_t p (size + alignment - 1)) (bitwise_not p (alignment - 1)).

(** The constants of page_allocator_constants.h and
    partition_alloc_constants.h that the direct-map sizes depend on, and
    the switch [features::IsPartitionAllocGigaCageEnabled()]. *)
Record PageConstants := mkPageConstants {
  PartitionPageSize : Z;
  PageAllocationGranularity : Z;
  IsPartitionAllocGigaCageEnabled : bool
}.

Section DirectMapSizes.
Variable b : Build.
Variable k : PageConstants.

(** [PA_HAS_64_BITS_POINTERS]. *)
Definition PA_HAS_64_BITS_POINTERS : bool := kBitsPerSizeT b =? 64.

Definition UsesGigaCage (r : PartitionRoot) : bool :=
  IsPartitionAllocGigaCageEnabled k
  && (if ENABLE_REF_COUNT_FOR_BACKUP_REF_PTR b then allow_ref_count r else true).

Definition GetDirectMapMetadataAndGuardPagesSize : Z :=
  let ret := PartitionPageSize k in
  if PA_HAS_64_BITS_POINTERS then ret else to_size_t b (ret + SystemPageSize b).

Definition GetDirectMapSlotSize (raw_sz : Z) : outcome Z :=
  _ <- PA_DCHECK b (raw_sz <=? MaxDirectMapped b) ;;
  Returns (Align b raw_sz (SystemPageSize b)).

Definition GetDirectMapReservedSize (r : PartitionRoot) (raw_sz : Z) : outcome Z :=
  _ <- PA_DCHECK b (raw_sz <=? MaxDirectMapped b) ;;
  let alignment :=
    if PA_HAS_64_BITS_POINTERS && UsesGigaCage r then kSuperPageSize b
    else PageAllocationGranularity k in
  Returns (Align b (to_size_t b (raw_sz + GetDirectMapMetadataAndGuardPagesSize))
                 alignment).

(** [ActualSize]; [bucket_at] checks its index in debug builds. *)
Definition ActualSize (r : PartitionRoot) (size : Z) : outcome Z :=
  if MEMORY_TOOL_REPLACES_ALLOCATOR b then Returns size
  else
    _ <- PA_DCHECK b (initialized r) ;;
    size <- AdjustSizeForExtrasAdd b r size ;;
    match SizeToBucketIndex b size with
    | None => Crashes
    | Some index =>
        _ <- PA_DCHECK b (index <=? kNumBuckets b) ;;
        let bk := bucket_at r index in
        _ <- PA_DCHECK b ((slot_size bk =? 0) || (slot_size bk >=? size)) ;;
        _ <- PA_DCHECK b (slot_size bk mod kSmallestBucket b =? 0) ;;
        size <- (if negb (is_direct_mapped bk) then Returns (slot_size bk)
                 else if size >? MaxDirectMapped b then Returns size
                 else GetDirectMapSlotSize size) ;;
        Returns (AdjustSizeForExtrasSubtract b r size)
    end.

End DirectMapSizes.

(** The part of a root that [ActualSize] reads, as [Init] leaves it: the
    root is initialised, the buckets of the array serve slots and the
    sentinel bucket, of slot size [0], is the direct-mapped one. *)
Definition buckets_ok (r : PartitionRoot) : bool :=
  initialized r
  && forallb (fun bk => negb (is_direct_mapped bk)) (buckets r)
  && is_direct_mapped (sentinel_bucket r)
  && (slot_size (sentinel_bucket r) =? 0).

(** The layout of the extras inside a slot ("Layout inside the slot",
    partition_root.h:842): the reference count, where the root keeps one,
    then the leading cookie, where the build writes cookies, then the data
    and the trailing cookie. *)
Definition extras_layout_ok (b : Build) (r : PartitionRoot) : bool :=
  let cookie := if DCHECK_IS_ON b && allow_cookies r then kCookieSize b else 0 in
  let count := if ENABLE_REF_COUNT_FOR_BACKUP_REF_PTR b && allow_ref_count r
               then kRefCountSize b else 0 in
  (extras_offset r =? count + cookie) && (extras_size r =? count + 2 * cookie).

(** ** Scanning *)

Definition IsScannable (r : PartitionRoot) : bool :=
  match pcscan_mode r with kNonScannable => false | _ => true end.

Definition set_pcscan_mode (r : PartitionRoot) (m : PCScanMode) : PartitionRoot :=
  mkRoot m (with_thread_cache r) (is_thread_safe r) (allow_ref_count r) (allow_cookies r)
         (extras_size r) (extras_offset r) (buckets r) (sentinel_bucket r)
         (initialized r) (inverted_self r).

(** [EnablePCScan]; [RegisterRoot] is [PCScan::Instance().RegisterRoot] of
    pcscan.h, [thread_safe] the template argument the root records in
    [is_thread_safe]. *)
Definition EnablePCScan (RegisterRoot : Z -> Heap -> Heap) (this : Z) (h : Heap)
  : outcome Heap :=
  _ <- PA_CHECK (is_thread_safe (roots h this)) ;;
  _ <- PA_CHECK (IsScannable (roots h this)) ;;
  if IsScanEnabled (roots h this) then Returns h
  else
    let h1 := RegisterRoot this h in
    Returns (set_root h1 this (set_pcscan_mode (roots h1 this) kEnabled)).

(** ** Start-up checks *)

(** The constants of partition_alloc_constants.h that
    [PartitionAllocGlobalInit] checks besides those of [Build] and
    [PageConstants]. *)
Record MetadataConstants := mkMetadataConstants {
  kPageMetadataSize : Z;
  sizeof_PartitionPage : Z;
  MaxSystemPagesPerSlotSpan : Z
}.

(** Modelled from the spec: [NumPartitionPagesPerSuperPage()] of the
    constants header, "[SuperPageSize/PartitionPageSize]" (section 3). *)
Definition NumPartitionPagesPerSuperPage (b : Build) (k : PageConstants) : Z :=
  kSuperPageSize b / PartitionPageSize k.

(** [PartitionAllocGlobalInit]: a failing [STATIC_ASSERT_OR_PA_CHECK] or
    [static_assert] leaves no running program; the result is the handler
    stored in [g_oom_handling_function]. *)
Definition PartitionAllocGlobalInit (b : Build) (k : PageConstants)
    (g : MetadataConstants) (on_out_of_memory : Z) : outcome Z :=
  _ <- PA_CHECK (Z.land (SystemPageSize b) (to_size_t b (SystemPageSize b - 1)) =? 0) ;;
  _ <- PA_CHECK (to_size_t b (PartitionPageSize k * 4) <=? kSuperPageSize b) ;;
  _ <- PA_CHECK (kSuperPageSize b mod PartitionPageSize k =? 0) ;;
  _ <- PA_CHECK (to_size_t b (SystemPageSize b * 4) <=? PartitionPageSize k) ;;
  _ <- PA_CHECK (PartitionPageSize k mod SystemPageSize b =? 0) ;;
  _ <- PA_CHECK (sizeof_PartitionPage g <=? kPageMetadataSize g) ;;
  _ <- PA_CHECK (to_size_t b (kPageMetadataSize g * NumPartitionPagesPerSuperPage b k)
                 <=? SystemPageSize b) ;;
  _ <- PA_CHECK (MaxDirectMapped b
                 <=? to_size_t b (Z.shiftl 1 31 + PageAllocationGranularity k)) ;;
  _ <- PA_CHECK (kSmallestBucket b =? kAlignment b) ;;
  _ <- PA_CHECK (kMaxBucketed =? 983040) ;;
  _ <- PA_CHECK (MaxSystemPagesPerSlotSpan g <? Z.shiftl 1 8) ;;
  _ <- PA_DCHECK b (negb (on_out_of_memory =? 0)) ;;
  Returns on_out_of_memory.

(** ** The integrity invariant *)

(** "Integrity check = ~reinterpret_cast<uintptr_t>(this)"
    (partition_root.h:219): every initialized root of the heap carries the
    bitwise NOT of its own address. *)
Definition root_integrity (b : Build) (h : Heap) : Prop :=
  forall root, initialized (roots h root) = true ->
               inverted_self (roots h root) = bitwise_not b root.

(** What the invariant needs of the code outside the sources: whatever a
    collaborator does to the heap, it leaves the invariant in place. *)
Record KeepsIntegrity (C : Collaborators) (b : Build) : Prop := mkKeepsIntegrity {
  keeps_SlowPathAlloc :
    forall this bp flags raw h ret z h',
      SlowPathAlloc C this bp flags raw h = Returns (ret, z, h') ->
      root_integrity b h -> root_integrity b h';
  keeps_SlotSpanFree :
    forall slot_span ptr h deferred_unmap h',
      SlotSpanFree C slot_span ptr h = Returns (deferred_unmap, h') ->
      root_integrity b h -> root_integrity b h';
  keeps_DeferredUnmapRun :
    forall deferred_unmap h,
      root_integrity b h -> root_integrity b (DeferredUnmapRun C deferred_unmap h);
  keeps_ThreadCacheCreate :
    forall this h,
      root_integrity b h -> root_integrity b (snd (ThreadCacheCreate C this h));
  keeps_GetFromCache :
    forall tcache idx h,
      root_integrity b h -> root_integrity b (snd (GetFromCache C tcache idx h));
  keeps_MaybePutInCache :
    forall tcache ptr idx h,
      root_integrity b h -> root_integrity b (snd (MaybePutInCache C tcache ptr idx h));
  keeps_AllocationOverrideHook :
    forall flags size h,
      root_integrity b h ->
      root_integrity b (snd (AllocationOverrideHookIfEnabled C flags size h));
  keeps_AllocationObserverHook :
    forall ptr size h,
      root_integrity b h ->
      root_integrity b (AllocationObserverHookIfEnabled C ptr size h);
  keeps_FreeObserverHook :
    forall ptr h,
      root_integrity b h -> root_integrity b (FreeObserverHookIfEnabled C ptr h);
  keeps_FreeOverrideHook :
    forall ptr h,
      root_integrity b h -> root_integrity b (snd (FreeOverrideHookIfEnabled C ptr h));
  keeps_MoveToQuarantine :
    forall ptr slot_span h,
      root_integrity b h -> root_integrity b (MoveToQuarantine C ptr slot_span h);
  keeps_ReleaseFromAllocator :
    forall ref_count h,
      root_integrity b h -> root_integrity b (snd (ReleaseFromAllocator C ref_count h));
  keeps_libc_malloc :
    forall size h, root_integrity b h -> root_integrity b (snd (libc_malloc C size h));
  keeps_libc_calloc :
    forall n size h, root_integrity b h -> root_integrity b (snd (libc_calloc C n size h));
  keeps_libc_free :
    forall ptr h, root_integrity b h -> root_integrity b (libc_free C ptr h)
}.

(** One call into the partition: the heap before and the heap it leaves
    when it returns. *)
Inductive step (C : Collaborators) (b : Build) : Heap -> Heap -> Prop :=
| step_Init (this : Z) (opts : PartitionOptions) (h : Heap) :
    step C b h (Init b this opts h)
| step_AllocFlags (this flags requested_size : Z) (h : Heap) (p : Z) (h' : Heap) :
    AllocFlags C b this flags requested_size h = Returns (p, h') -> step C b h h'
| step_AllocFlagsNoHooks (this flags requested_size : Z) (h : Heap) (p : Z) (h' : Heap) :
    AllocFlagsNoHooks C b this flags requested_size h = Returns (p, h') -> step C b h h'
| step_AlignedAllocFlags (this flags alignment size : Z) (h : Heap) (p : Z) (h' : Heap) :
    AlignedAllocFlags C b this flags alignment size h = Returns (p, h') -> step C b h h'
| step_Free (ptr : Z) (h h' : Heap) :
    Free C b ptr h = Returns h' -> step C b h h'
| step_FreeNoHooks (ptr : Z) (h h' : Heap) :
    FreeNoHooks C b ptr h = Returns h' -> step C b h h'
| step_FreeNoHooksImmediate (this ptr slot_span : Z) (h h' : Heap) :
    FreeNoHooksImmediate C b this ptr slot_span h = Returns h' -> step C b h h'
| step_RawFree (this ptr slot_span : Z) (h h' : Heap) :
    RawFree C this ptr slot_span h = Returns h' -> step C b h h'
| step_RawFreeWithThreadCache (this ptr slot_span : Z) (h h' : Heap) :
    RawFreeWithThreadCache C b this ptr slot_span h = Returns h' -> step C b h h'
| step_EnablePCScan (RegisterRoot : Z -> Heap -> Heap) (this : Z) (h h' : Heap) :
    (forall x, root_integrity b x -> root_integrity b (RegisterRoot this x)) ->
    EnablePCScan RegisterRoot this h = Returns h' -> step C b h h'.

(** The heaps of a process: at its start no root is initialized
    ([bool initialized = false], partition_root.h:191); every later heap is
    left by a call into the partition. *)
Inductive reachable (C : Collaborators) (b : Build) : Heap -> Prop :=
| reachable_start (h : Heap) :
    (forall root, initialized (roots h root) = false) -> reachable C b h
| reachable_step (h h' : Heap) :
    reachable C b h -> step C b h h' -> reachable C b h'.

(** A sample process on the debug build: the root is initialized, then
    serves one request of 100 bytes. *)
Definition started_heap : Heap := Init debug_build sample_this regular_options blank_heap.

Abbreviation first_alloc :=
  (AllocFlags (direct_mapping debug_build) debug_build sample_this 0 100 started_heap)
  (only parsing).

Abbreviation first_alloc_heap := (heap_after first_alloc started_heap) (only parsing).
(** ** Arithmetic of the size-to-position map *)

Lemma supported_cases (p : Platform) :
  supported p = true ->
  p = p64_16 \/ p = p64_8 \/ p = p32_16 \/ p = p32_8.
Proof.
  destruct p as [b a]; unfold supported; cbn.
  rewrite andb_true_iff, !orb_true_iff, !Z.eqb_eq.
  intros [[-> | ->] [-> | ->]]; auto.
Qed.

Lemma supported_bits (p : Platform) :
  supported p = true -> kBitsPerSizeT p = 32 \/ kBitsPerSizeT p = 64.
Proof.
  intros H; destruct (supported_cases p H) as [-> | [-> | [-> | ->]]]; cbn; auto.
Qed.

Lemma at_index_map_upto (f : Z -> Z) (n i : Z) :
  0 <= i < n -> at_index (map f (upto n)) i = f i.
Proof.
  intros H. unfold at_index, upto.
  rewrite map_map.
  assert (Hlt : (Z.to_nat i < length (seq 0 (Z.to_nat n)))%nat)
    by (rewrite length_seq; lia).
  rewrite (nth_indep _ 0 (f (Z.of_nat 0)) ) by (rewrite length_map; exact Hlt).
  rewrite (map_nth (fun x => f (Z.of_nat x))).
  rewrite seq_nth by lia.
  f_equal. lia.
Qed.

Lemma leading_zeros_log2 (w : nat) (x : Z) :
  0 < x < 2 ^ Z.of_nat w -> Z.of_nat w - leading_zeros w x = Z.log2 x + 1.
Proof.
  induction w as [|w IH]; intros Hx.
  - cbn in Hx. lia.
  - cbn [leading_zeros].
    destruct (Z.testbit x (Z.of_nat w)) eqn:Hb.
    + assert (Hlo : 2 ^ Z.of_nat w <= x).
      { destruct (Z.lt_ge_cases x (2 ^ Z.of_nat w)) as [Hlt|]; [|assumption].
        rewrite Z.bits_above_log2 in Hb; [discriminate | lia |].
        apply Z.log2_lt_pow2; lia. }
      assert (Z.log2 x = Z.of_nat w).
      { apply Z.log2_unique; [lia|]. split; [assumption|].
        replace (Z.of_nat w + 1) with (Z.of_nat (S w)) by lia. lia. }
      lia.
    + assert (Hhi : x < 2 ^ Z.of_nat w).
      { destruct (Z.lt_ge_cases x (2 ^ Z.of_nat w)) as [|Hge]; [assumption|].
        assert (Z.log2 x = Z.of_nat w).
        { apply Z.log2_unique; [lia|]. split; [assumption|].
          replace (Z.of_nat w + 1) with (Z.of_nat (S w)) by lia. lia. }
        rewrite <- H in Hb. rewrite Z.bit_log2 in Hb by lia. discriminate. }
      specialize (IH (conj (proj1 Hx) Hhi)). lia.
Qed.

Lemma order_of_log2 (p : Platform) (n : Z) :
  0 <= kBitsPerSizeT p -> 0 < n < size_max_plus_1 p ->
  order_of p n = Z.log2 n + 1.
Proof.
  intros Hb Hn. unfold order_of, CountLeadingZeroBitsSizeT.
  rewrite <- (leading_zeros_log2 (Z.to_nat (kBitsPerSizeT p)) n).
  - rewrite Z2Nat.id by assumption. reflexivity.
  - rewrite Z2Nat.id by assumption. exact Hn.
Qed.

Lemma order_of_range (p : Platform) (n : Z) :
  0 <= kBitsPerSizeT p -> 0 < n < size_max_plus_1 p ->
  1 <= order_of p n <= kBitsPerSizeT p.
Proof.
  intros Hb Hn. rewrite order_of_log2 by assumption.
  pose proof (Z.log2_nonneg n).
  assert (Z.log2 n < kBitsPerSizeT p) by (apply Z.log2_lt_pow2; unfold size_max_plus_1 in Hn; lia).
  lia.
Qed.

Lemma pow2_pred_shiftr (k j : Z) :
  0 <= j <= k -> Z.shiftr (2 ^ k - 1) j = 2 ^ (k - j) - 1.
Proof.
  intros H. rewrite Z.shiftr_div_pow2 by lia.
  assert (0 < 2 ^ j) by (apply Z.pow_pos_nonneg; lia).
  assert (0 < 2 ^ (k - j)) by (apply Z.pow_pos_nonneg; lia).
  symmetry. apply (Z.div_unique_pos _ _ _ (2 ^ j - 1)); [lia|].
  replace k with ((k - j) + j) at 1 by lia.
  rewrite Z.pow_add_r by lia. lia.
Qed.

(** For sizes of at least [2^4] the position is the order's base plus the
    size divided, rounding up, by the step of its order. *)
Lemma lookup_position_large (p : Platform) (n : Z) :
  supported p = true -> 16 <= n < size_max_plus_1 p ->
  lookup_position p n =
    8 * Z.log2 n + n / 2 ^ (Z.log2 n - 3)
    + (if n mod 2 ^ (Z.log2 n - 3) =? 0 then 0 else 1).
Proof.
  intros Hs Hn.
  assert (Hb : 4 <= kBitsPerSizeT p) by (destruct (supported_bits p Hs); lia).
  assert (Hl : 4 <= Z.log2 n) by (apply Z.log2_le_pow2; lia).
  assert (Hlb : Z.log2 n < kBitsPerSizeT p)
    by (apply Z.log2_lt_pow2; unfold size_max_plus_1 in Hn; lia).
  destruct (Z.log2_spec n ltac:(lia)) as [Hlo Hhi].
  unfold lookup_position, order_index_of, sub_order_index_of.
  rewrite order_of_log2 by (unfold size_max_plus_1 in *; lia).
  unfold kOrderIndexShift, kOrderSubIndexMask.
  rewrite !at_index_map_upto by lia.
  set (l := Z.log2 n) in *.
  assert (Hshift : OrderIndexShift (l + 1) = l - 3).
  { unfold OrderIndexShift, kNumBucketsPerOrderBits.
    destruct (l + 1 <? 3 + 1) eqn:E; [apply Z.ltb_lt in E; lia | lia]. }
  assert (Hmask : OrderSubIndexMask p (l + 1) = Z.ones (l - 3)).
  { unfold OrderSubIndexMask, kNumBucketsPerOrderBits, size_max_plus_1, to_size_t.
    rewrite Z.ones_equiv, <- Z.sub_1_r.
    destruct (l + 1 =? kBitsPerSizeT p) eqn:E.
    - apply Z.eqb_eq in E. rewrite <- E.
      rewrite pow2_pred_shiftr by lia. f_equal. f_equal. lia.
    - apply Z.eqb_neq in E. unfold size_max_plus_1.
      rewrite Z.shiftl_1_l.
      assert (2 ^ (l + 1) < 2 ^ kBitsPerSizeT p) by (apply Z.pow_lt_mono_r; lia).
      assert (0 < 2 ^ (l + 1)) by (apply Z.pow_pos_nonneg; lia).
      rewrite (Z.mod_small (2 ^ (l + 1))) by lia.
      rewrite Z.mod_small by lia.
      rewrite pow2_pred_shiftr by lia. f_equal. f_equal. lia. }
  rewrite Hshift, Hmask.
  rewrite Z.land_ones by lia.
  change (kNumBucketsPerOrder - 1) with (Z.ones 3).
  rewrite Z.land_ones by lia.
  rewrite Z.shiftr_div_pow2 by lia.
  rewrite Z.shiftl_mul_pow2 by (unfold kNumBucketsPerOrderBits; lia).
  change (2 ^ kNumBucketsPerOrderBits) with 8. change (2 ^ 3) with 8.
  assert (Hpos : 0 < 2 ^ (l - 3)) by (apply Z.pow_pos_nonneg; lia).
  assert (Hq : 8 <= n / 2 ^ (l - 3) < 16).
  { replace l with (3 + (l - 3)) in Hlo at 1 by lia.
    replace (Z.succ l) with (4 + (l - 3)) in Hhi by lia.
    rewrite Z.pow_add_r in Hlo, Hhi by lia.
    change (2 ^ 3) with 8 in Hlo. change (2 ^ 4) with 16 in Hhi.
    split.
    - apply Z.div_le_lower_bound; lia.
    - apply Z.div_lt_upper_bound; lia. }
  replace (n / 2 ^ (l - 3) mod 8) with (n / 2 ^ (l - 3) - 8).
  - lia.
  - apply (Z.mod_unique_pos _ _ 1); lia.
Qed.

Lemma in_upto (n x : Z) : In x (upto n) <-> 0 <= x < n.
Proof.
  unfold upto. rewrite in_map_iff. split.
  - intros [k [<- Hk]]. apply in_seq in Hk. lia.
  - intros H. exists (Z.to_nat x). split; [lia|]. apply in_seq. lia.
Qed.

Lemma lookup_position_small (p : Platform) (n : Z) :
  supported p = true -> 0 <= n < 16 ->
  lookup_position p n = at_index small_positions n.
Proof.
  intros Hs Hn.
  assert (Hall : forallb (fun k => lookup_position p k =? at_index small_positions k)
                         (upto 16) = true)
    by (destruct (supported_cases p Hs) as [-> | [-> | [-> | ->]]];
        vm_compute; reflexivity).
  rewrite forallb_forall in Hall.
  apply Z.eqb_eq, Hall, in_upto. exact Hn.
Qed.

Lemma nondecreasing_head (x : Z) (l : list Z) :
  nondecreasing (x :: l) = true ->
  forall j, (j < length l)%nat -> x <= nth j l 0.
Proof.
  revert x. induction l as [|y l IH]; intros x H j Hj; [cbn in Hj; lia|].
  cbn [nondecreasing] in H. apply andb_true_iff in H as [Hxy Hrest].
  apply Z.leb_le in Hxy.
  destruct j as [|j]; [exact Hxy|].
  cbn [nth]. cbn [length] in Hj.
  specialize (IH y Hrest j ltac:(lia)). lia.
Qed.

Lemma nondecreasing_tail (x : Z) (l : list Z) :
  nondecreasing (x :: l) = true -> nondecreasing l = true.
Proof.
  destruct l as [|y l]; [reflexivity|].
  cbn [nondecreasing]. intros H. apply andb_true_iff in H. tauto.
Qed.

Lemma nondecreasing_nth (l : list Z) :
  nondecreasing l = true ->
  forall i j, (i <= j < length l)%nat -> nth i l 0 <= nth j l 0.
Proof.
  induction l as [|x l IH]; intros H i j Hij; [cbn in Hij; lia|].
  destruct i as [|i], j as [|j]; cbn [nth]; try lia.
  - apply nondecreasing_head; [assumption | cbn in Hij; lia].
  - apply IH; [eapply nondecreasing_tail; eassumption | cbn in Hij; lia].
Qed.

Lemma nondecreasing_at_index (l : list Z) (i j : Z) :
  nondecreasing l = true -> 0 <= i <= j -> j < Z.of_nat (length l) ->
  at_index l i <= at_index l j.
Proof.
  intros H Hij Hj. unfold at_index. apply nondecreasing_nth; [assumption | lia].
Qed.

Lemma steps_up_mono (n1 n2 d : Z) :
  0 < d -> 0 <= n1 <= n2 -> steps_up n1 d <= steps_up n2 d.
Proof.
  intros Hd Hn. unfold steps_up.
  pose proof (Z.div_mod n1 d ltac:(lia)) as E1.
  pose proof (Z.div_mod n2 d ltac:(lia)) as E2.
  pose proof (Z.mod_pos_bound n1 d Hd).
  pose proof (Z.mod_pos_bound n2 d Hd).
  assert (n1 / d <= n2 / d) by (apply Z.div_le_mono; lia).
  destruct (Z.eqb_spec (n1 mod d) 0) as [R1|R1], (Z.eqb_spec (n2 mod d) 0) as [R2|R2];
    try lia.
  destruct (Z.eq_dec (n1 / d) (n2 / d)) as [Heq|]; [|lia].
  rewrite Heq in E1. lia.
Qed.

Lemma steps_up_cover (n d : Z) : 0 < d -> n <= steps_up n d * d.
Proof.
  intros Hd. unfold steps_up.
  pose proof (Z.div_mod n d ltac:(lia)).
  pose proof (Z.mod_pos_bound n d Hd).
  destruct (Z.eqb_spec (n mod d) 0); nia.
Qed.

Lemma steps_up_range (n l : Z) :
  3 <= l -> 2 ^ l <= n < 2 ^ (l + 1) -> 8 <= steps_up n (2 ^ (l - 3)) <= 16.
Proof.
  intros Hl [Hlo Hhi]. unfold steps_up.
  assert (Hpos : 0 < 2 ^ (l - 3)) by (apply Z.pow_pos_nonneg; lia).
  replace l with (3 + (l - 3)) in Hlo at 1 by lia.
  replace (l + 1) with (4 + (l - 3)) in Hhi by lia.
  rewrite Z.pow_add_r in Hlo, Hhi by lia.
  change (2 ^ 3) with 8 in Hlo. change (2 ^ 4) with 16 in Hhi.
  assert (8 <= n / 2 ^ (l - 3)) by (apply Z.div_le_lower_bound; lia).
  assert (n / 2 ^ (l - 3) < 16) by (apply Z.div_lt_upper_bound; lia).
  destruct (n mod 2 ^ (l - 3) =? 0); lia.
Qed.

Lemma lookup_position_steps (p : Platform) (n : Z) :
  supported p = true -> 16 <= n < size_max_plus_1 p ->
  lookup_position p n = 8 * Z.log2 n + steps_up n (2 ^ (Z.log2 n - 3)).
Proof.
  intros Hs Hn. rewrite lookup_position_large by assumption.
  unfold steps_up. lia.
Qed.

Lemma lookup_position_range (p : Platform) (n : Z) :
  supported p = true -> 0 <= n < size_max_plus_1 p ->
  0 <= lookup_position p n <= (kBitsPerSizeT p + 1) * kNumBucketsPerOrder.
Proof.
  intros Hs Hn. change kNumBucketsPerOrder with 8.
  assert (Hb : kBitsPerSizeT p = 32 \/ kBitsPerSizeT p = 64) by (apply supported_bits; assumption).
  destruct (Z.lt_ge_cases n 16) as [Hsmall|Hlarge].
  - rewrite lookup_position_small by (assumption || lia).
    assert (Hlo : at_index small_positions 0 <= at_index small_positions n)
      by (apply nondecreasing_at_index; [reflexivity | lia | cbn; lia]).
    assert (Hhi : at_index small_positions n <= at_index small_positions 15)
      by (apply nondecreasing_at_index; [reflexivity | lia | cbn; lia]).
    change (at_index small_positions 0) with 0 in Hlo.
    change (at_index small_positions 15) with 39 in Hhi.
    lia.
  - rewrite lookup_position_steps by (assumption || lia).
    assert (Hl : 4 <= Z.log2 n) by (apply Z.log2_le_pow2; lia).
    assert (Hlb : Z.log2 n < kBitsPerSizeT p)
      by (apply Z.log2_lt_pow2; unfold size_max_plus_1 in Hn; lia).
    destruct (Z.log2_spec n ltac:(lia)) as [Hlo Hhi].
    pose proof (steps_up_range n (Z.log2 n) ltac:(lia) (conj Hlo Hhi)).
    lia.
Qed.

(** The position read in the table never decreases when the size grows. *)
Lemma lookup_position_mono (p : Platform) (n1 n2 : Z) :
  supported p = true -> 0 <= n1 <= n2 -> n2 < size_max_plus_1 p ->
  lookup_position p n1 <= lookup_position p n2.
Proof.
  intros Hs Hn Hn2.
  destruct (Z.lt_ge_cases n2 16) as [Hs2|Hl2].
  - rewrite !lookup_position_small by (assumption || lia).
    apply nondecreasing_at_index; [reflexivity | lia | cbn; lia].
  - assert (Hl : 4 <= Z.log2 n2) by (apply Z.log2_le_pow2; lia).
    destruct (Z.log2_spec n2 ltac:(lia)) as [Hlo2 Hhi2].
    pose proof (steps_up_range n2 (Z.log2 n2) ltac:(lia) (conj Hlo2 Hhi2)) as R2.
    rewrite (lookup_position_steps p n2) by (assumption || lia).
    destruct (Z.lt_ge_cases n1 16) as [Hs1|Hl1].
    + rewrite lookup_position_small by (assumption || lia).
      assert (at_index small_positions n1 <= at_index small_positions 15)
        by (apply nondecreasing_at_index; [reflexivity | lia | cbn; lia]).
      change (at_index small_positions 15) with 39 in H. lia.
    + rewrite (lookup_position_steps p n1) by (assumption || lia).
      destruct (Z.log2_spec n1 ltac:(lia)) as [Hlo1 Hhi1].
      assert (Hl1' : 4 <= Z.log2 n1) by (apply Z.log2_le_pow2; lia).
      pose proof (steps_up_range n1 (Z.log2 n1) ltac:(lia) (conj Hlo1 Hhi1)) as R1.
      assert (Hle : Z.log2 n1 <= Z.log2 n2) by (apply Z.log2_le_mono; lia).
      destruct (Z.eq_dec (Z.log2 n1) (Z.log2 n2)) as [Heq|Hne].
      * rewrite Heq.
        assert (steps_up n1 (2 ^ (Z.log2 n2 - 3)) <= steps_up n2 (2 ^ (Z.log2 n2 - 3)))
          by (apply steps_up_mono; [apply Z.pow_pos_nonneg; lia | lia]).
        lia.
      * lia.
Qed.

Lemma table_ok_supported (p : Platform) : supported p = true -> table_ok p = true.
Proof.
  intros H; destruct (supported_cases p H) as [-> | [-> | [-> | ->]]];
    vm_compute; reflexivity.
Qed.

Lemma in_at_index (l : list Z) (i : Z) :
  0 <= i < Z.of_nat (length l) -> In (at_index l i) l.
Proof. intros H. unfold at_index. apply nth_In. lia. Qed.

Lemma nth_error_at_index (l : list Z) (i : Z) :
  0 <= i < Z.of_nat (length l) ->
  nth_error l (Z.to_nat i) = Some (at_index l i).
Proof. intros H. unfold at_index. apply nth_error_nth'. lia. Qed.

Section Table.
Variable p : Platform.
Variable lk : Lookup.
Hypothesis Hsup : supported p = true.
Hypothesis Hbuilt : BucketIndexLookup p = Some lk.

Let tbl := bucket_index_lookup_ lk.
Let sizes := bucket_sizes_ lk.

Lemma table_checks_hold : table_checks p lk = true.
Proof.
  pose proof (table_ok_supported p Hsup) as H.
  unfold table_ok in H. rewrite Hbuilt in H. exact H.
Qed.

Lemma table_length :
  Z.of_nat (length tbl) = (kBitsPerSizeT p + 1) * kNumBucketsPerOrder + 1.
Proof.
  pose proof table_checks_hold as H. unfold table_checks in H.
  repeat (apply andb_true_iff in H as [H ?]). apply Z.eqb_eq in H. exact H.
Qed.

Lemma sizes_length : Z.of_nat (length sizes) = kNumBuckets p.
Proof.
  pose proof table_checks_hold as H. unfold table_checks in H.
  repeat (apply andb_true_iff in H as [H ?]). apply Z.eqb_eq. assumption.
Qed.

Lemma table_nondecreasing : nondecreasing tbl = true.
Proof.
  pose proof table_checks_hold as H. unfold table_checks in H.
  repeat (apply andb_true_iff in H as [H ?]). assumption.
Qed.

Lemma table_first : at_index tbl 0 = 0.
Proof.
  pose proof table_checks_hold as H. unfold table_checks in H.
  repeat (apply andb_true_iff in H as [H ?]). apply Z.eqb_eq. assumption.
Qed.

Lemma table_last :
  at_index tbl ((kBitsPerSizeT p + 1) * kNumBucketsPerOrder) = kNumBuckets p.
Proof.
  pose proof table_checks_hold as H. unfold table_checks in H.
  repeat (apply andb_true_iff in H as [H ?]). apply Z.eqb_eq. assumption.
Qed.

Lemma table_at_max_bucketed :
  at_index tbl (lookup_position p kMaxBucketed) = kNumBuckets p - 1.
Proof.
  pose proof table_checks_hold as H. unfold table_checks in H.
  repeat (apply andb_true_iff in H as [H ?]). apply Z.eqb_eq. assumption.
Qed.

Lemma table_after_max_bucketed :
  at_index tbl (lookup_position p (kMaxBucketed + 1)) = kNumBuckets p.
Proof.
  pose proof table_checks_hold as H. unfold table_checks in H.
  repeat (apply andb_true_iff in H as [H ?]). apply Z.eqb_eq. assumption.
Qed.

Lemma largest_bucket_size : at_index sizes (kNumBuckets p - 1) = kMaxBucketed.
Proof.
  pose proof table_checks_hold as H. unfold table_checks in H.
  repeat (apply andb_true_iff in H as [H ?]). apply Z.eqb_eq. assumption.
Qed.

Lemma table_entries_aligned (i : Z) :
  In i tbl -> i = kNumBuckets p \/ at_index sizes i mod kSmallestBucket p = 0.
Proof.
  pose proof table_checks_hold as H. unfold table_checks in H.
  repeat (apply andb_true_iff in H as [H ?]).
  intros Hi.
  match goal with
  | F : forallb (fun i => (i =? kNumBuckets p) || _) _ = true |- _ =>
      rewrite forallb_forall in F; specialize (F i Hi);
      apply orb_true_iff in F as [F | F]; apply Z.eqb_eq in F; auto
  end.
Qed.

Lemma small_sizes_covered (n : Z) :
  0 <= n < 16 -> n <= at_index sizes (at_index tbl (at_index small_positions n)).
Proof.
  pose proof table_checks_hold as H. unfold table_checks in H.
  repeat (apply andb_true_iff in H as [H ?]).
  intros Hn.
  match goal with
  | F : forallb (fun n => n <=? _) (upto 16) = true |- _ =>
      rewrite forallb_forall in F; specialize (F n (proj2 (in_upto 16 n) Hn));
      apply Z.leb_le in F; exact F
  end.
Qed.

Lemma step_bound_covered (k : Z) :
  40 <= k < 168 -> step_bound k <= at_index sizes (at_index tbl k).
Proof.
  pose proof table_checks_hold as H. unfold table_checks in H.
  repeat (apply andb_true_iff in H as [H ?]).
  intros Hk.
  match goal with
  | F : forallb (fun k => step_bound k <=? _) _ = true |- _ =>
      rewrite forallb_forall in F; specialize (F k);
      apply Z.leb_le; apply F
  end.
  apply in_map_iff. exists (k - 40). split; [lia | apply in_upto; lia].
Qed.

Lemma position_in_table (n : Z) :
  0 <= n < size_max_plus_1 p ->
  0 <= lookup_position p n < Z.of_nat (length tbl).
Proof.
  intros Hn. rewrite table_length.
  pose proof (lookup_position_range p n Hsup Hn). lia.
Qed.

Lemma GetIndex_at (n : Z) :
  0 <= n < size_max_plus_1 p ->
  GetIndex p n = Some (at_index tbl (lookup_position p n)).
Proof.
  intros Hn. unfold GetIndex. rewrite Hbuilt.
  apply nth_error_at_index. apply position_in_table. exact Hn.
Qed.

Lemma table_entry_range (k : Z) :
  0 <= k < Z.of_nat (length tbl) -> 0 <= at_index tbl k <= kNumBuckets p.
Proof.
  intros Hk. rewrite <- table_first at 1. rewrite <- table_last.
  pose proof table_length.
  split; apply nondecreasing_at_index; try apply table_nondecreasing; lia.
Qed.
End Table.

(** ** The size-to-bucket map *)

Lemma table_exists (p : Platform) :
  supported p = true -> exists lk, BucketIndexLookup p = Some lk.
Proof.
  intros H. pose proof (table_ok_supported p H) as Hok. unfold table_ok in Hok.
  destruct (BucketIndexLookup p) as [lk|]; [eauto | discriminate].
Qed.

Lemma kNumBuckets_range (p : Platform) :
  supported p = true -> 0 < kNumBuckets p < 2 ^ 16.
Proof.
  intros H; destruct (supported_cases p H) as [-> | [-> | [-> | ->]]];
    vm_compute; split; reflexivity.
Qed.

Lemma kMaxBucketed_is_size_t (p : Platform) :
  supported p = true -> kMaxBucketed + 1 < size_max_plus_1 p.
Proof.
  intros H; destruct (supported_cases p H) as [-> | [-> | [-> | ->]]];
    vm_compute; reflexivity.
Qed.

Lemma SizeToBucketIndex_at (p : Platform) (lk : Lookup) (n : Z) :
  supported p = true -> BucketIndexLookup p = Some lk ->
  0 <= n < size_max_plus_1 p ->
  SizeToBucketIndex p n =
    Some (at_index (bucket_index_lookup_ lk) (lookup_position p n)).
Proof.
  intros Hs Hb Hn. unfold SizeToBucketIndex.
  rewrite (GetIndex_at p lk Hs Hb n Hn). cbn [option_map]. f_equal.
  pose proof (table_entry_range p lk Hs Hb _ (position_in_table p lk Hs Hb n Hn)).
  pose proof (kNumBuckets_range p Hs).
  apply Z.mod_small. lia.
Qed.

Lemma index_mono (p : Platform) (lk : Lookup) (n1 n2 : Z) :
  supported p = true -> BucketIndexLookup p = Some lk ->
  0 <= n1 <= n2 -> n2 < size_max_plus_1 p ->
  at_index (bucket_index_lookup_ lk) (lookup_position p n1)
  <= at_index (bucket_index_lookup_ lk) (lookup_position p n2).
Proof.
  intros Hs Hb Hn Hn2.
  apply nondecreasing_at_index.
  - apply (table_nondecreasing p lk Hs Hb).
  - split.
    + apply (lookup_position_range p n1 Hs). lia.
    + apply lookup_position_mono; assumption.
  - apply (position_in_table p lk Hs Hb). lia.
Qed.

Lemma index_bucketed (p : Platform) (lk : Lookup) (n : Z) :
  supported p = true -> BucketIndexLookup p = Some lk ->
  0 <= n <= kMaxBucketed ->
  0 <= at_index (bucket_index_lookup_ lk) (lookup_position p n) < kNumBuckets p.
Proof.
  intros Hs Hb Hn.
  pose proof (kMaxBucketed_is_size_t p Hs) as Hm.
  pose proof (index_mono p lk n kMaxBucketed Hs Hb ltac:(lia) ltac:(lia)) as Hle.
  rewrite (table_at_max_bucketed p lk Hs Hb) in Hle.
  pose proof (table_entry_range p lk Hs Hb _
                (position_in_table p lk Hs Hb n ltac:(lia))).
  lia.
Qed.

Lemma index_sentinel (p : Platform) (lk : Lookup) (n : Z) :
  supported p = true -> BucketIndexLookup p = Some lk ->
  kMaxBucketed < n < size_max_plus_1 p ->
  at_index (bucket_index_lookup_ lk) (lookup_position p n) = kNumBuckets p.
Proof.
  intros Hs Hb Hn.
  pose proof (index_mono p lk (kMaxBucketed + 1) n Hs Hb
                ltac:(unfold kMaxBucketed in *; lia) ltac:(lia)) as Hle.
  rewrite (table_after_max_bucketed p lk Hs Hb) in Hle.
  pose proof (table_entry_range p lk Hs Hb _
                (position_in_table p lk Hs Hb n
                   ltac:(unfold kMaxBucketed in *; lia))).
  lia.
Qed.

Lemma step_bound_steps (l c : Z) :
  3 <= l -> 8 <= c <= 16 -> step_bound (8 * l + c) = c * 2 ^ (l - 3).
Proof.
  intros Hl Hc. unfold step_bound.
  replace (8 * l + c) with (c + l * 8) by lia.
  rewrite Z.mod_add, Z.div_add by lia.
  pose proof (Z.div_mod c 8 ltac:(lia)) as E.
  pose proof (Z.mod_pos_bound c 8 ltac:(lia)) as R.
  assert (Hq : c / 8 = 1 \/ c / 8 = 2) by lia.
  destruct Hq as [Hq | Hq]; rewrite Hq in *.
  - replace (1 + l - 4) with (l - 3) by lia. f_equal. lia.
  - replace (2 + l - 4) with (Z.succ (l - 3)) by lia.
    rewrite Z.pow_succ_r by lia.
    assert (Hr : c mod 8 = 0) by lia. assert (Hc16 : c = 16) by lia.
    rewrite Hr, Hc16. lia.
Qed.

(** The bucket chosen for a bucketed size is large enough for it. *)
Lemma bucket_covers (p : Platform) (lk : Lookup) (n : Z) :
  supported p = true -> BucketIndexLookup p = Some lk ->
  0 <= n <= kMaxBucketed ->
  n <= at_index (bucket_sizes_ lk)
         (at_index (bucket_index_lookup_ lk) (lookup_position p n)).
Proof.
  intros Hs Hb Hn.
  pose proof (kMaxBucketed_is_size_t p Hs) as Hm.
  destruct (Z.lt_ge_cases n 16) as [Hsmall | Hlarge].
  - rewrite lookup_position_small by (assumption || lia).
    apply (small_sizes_covered p lk Hs Hb). lia.
  - assert (Hl : 4 <= Z.log2 n) by (apply Z.log2_le_pow2; lia).
    destruct (Z.log2_spec n ltac:(lia)) as [Hlo Hhi].
    pose proof (steps_up_range n (Z.log2 n) ltac:(lia) (conj Hlo Hhi)) as R.
    assert (Hpos : lookup_position p n <= lookup_position p kMaxBucketed)
      by (apply lookup_position_mono; (assumption || lia)).
    assert (Hmax : lookup_position p kMaxBucketed = 167).
    { rewrite lookup_position_steps by (assumption || (unfold kMaxBucketed in *; lia)).
      reflexivity. }
    rewrite Hmax in Hpos.
    rewrite lookup_position_steps in * by (assumption || lia).
    eapply Z.le_trans; [| apply (step_bound_covered p lk Hs Hb); lia].
    rewrite step_bound_steps by lia.
    apply steps_up_cover. apply Z.pow_pos_nonneg; lia.
Qed.

(** C1. [SizeToBucketIndex] is monotone: for sizes [n1 <= n2] it yields
    indices [i1 <= i2].  Both lookups succeed, and each index names either
    the sentinel or a bucket whose size is a multiple of [kSmallestBucket]
    (the table skips the other sizes that [InitBucketSizes] produces). *)
Theorem SizeToBucketIndex_monotone (p : Platform) (n1 n2 : Z) :
  supported p = true ->
  0 <= n1 -> n1 <= n2 -> n2 < size_max_plus_1 p ->
  exists i1 i2,
    SizeToBucketIndex p n1 = Some i1 /\ SizeToBucketIndex p n2 = Some i2 /\
    i1 <= i2 /\
    (i1 = kNumBuckets p \/ bucket_size p i1 mod kSmallestBucket p = 0) /\
    (i2 = kNumBuckets p \/ bucket_size p i2 mod kSmallestBucket p = 0).
Proof.
  intros Hs H1 H12 H2.
  destruct (table_exists p Hs) as [lk Hb].
  exists (at_index (bucket_index_lookup_ lk) (lookup_position p n1)),
         (at_index (bucket_index_lookup_ lk) (lookup_position p n2)).
  repeat split.
  - apply SizeToBucketIndex_at; (assumption || lia).
  - apply SizeToBucketIndex_at; (assumption || lia).
  - apply index_mono; (assumption || lia).
  - unfold bucket_size. rewrite Hb.
    apply (table_entries_aligned p lk Hs Hb), in_at_index,
      (position_in_table p lk Hs Hb). lia.
  - unfold bucket_size. rewrite Hb.
    apply (table_entries_aligned p lk Hs Hb), in_at_index,
      (position_in_table p lk Hs Hb). lia.
Qed.

Lemma SizeToBucketIndex_monotone_witness :
  exists i1 i2,
    SizeToBucketIndex p64_16 100 = Some i1 /\ SizeToBucketIndex p64_16 4000 = Some i2 /\
    i1 <= i2 /\
    (i1 = kNumBuckets p64_16 \/ bucket_size p64_16 i1 mod kSmallestBucket p64_16 = 0) /\
    (i2 = kNumBuckets p64_16 \/ bucket_size p64_16 i2 mod kSmallestBucket p64_16 = 0).
Proof.
  apply (SizeToBucketIndex_monotone p64_16 100 4000);
    [reflexivity | lia | lia | reflexivity].
Defined.

(** C2. [kMaxBucketed] is exactly [983040]; every size up to it maps to a
    normal bucket index, below [kNumBuckets]; every larger size maps to the
    sentinel index [kNumBuckets], at which [bucket_at] finds the sentinel
    bucket.  [kMaxBucketed] itself maps to the last bucket, whose size it
    is. *)
Theorem SizeToBucketIndex_range (p : Platform) :
  supported p = true ->
  kMaxBucketed = 983040 /\
  (forall n, 0 <= n <= kMaxBucketed ->
     exists i, SizeToBucketIndex p n = Some i /\ 0 <= i < kNumBuckets p) /\
  (forall n, kMaxBucketed < n < size_max_plus_1 p ->
     SizeToBucketIndex p n = Some (kNumBuckets p)) /\
  SizeToBucketIndex p kMaxBucketed = Some (kNumBuckets p - 1) /\
  bucket_size p (kNumBuckets p - 1) = kMaxBucketed /\
  (forall r, Z.of_nat (length (buckets r)) = kNumBuckets p ->
     bucket_at r (kNumBuckets p) = sentinel_bucket r).
Proof.
  intros Hs.
  destruct (table_exists p Hs) as [lk Hb].
  pose proof (kMaxBucketed_is_size_t p Hs) as Hm.
  split; [reflexivity|].
  split; [|split; [|split; [|split]]].
  - intros n Hn. eexists. split.
    + apply (SizeToBucketIndex_at p lk); (assumption || lia).
    + apply index_bucketed; assumption.
  - intros n Hn.
    rewrite (SizeToBucketIndex_at p lk) by (assumption || unfold kMaxBucketed in *; lia).
    f_equal. apply index_sentinel; assumption.
  - rewrite (SizeToBucketIndex_at p lk) by (assumption || unfold kMaxBucketed in *; lia).
    f_equal. apply table_at_max_bucketed; assumption.
  - unfold bucket_size. rewrite Hb. apply largest_bucket_size; assumption.
  - intros r Hlen. unfold bucket_at.
    rewrite app_nth2 by lia.
    replace (Z.to_nat (kNumBuckets p) - length (buckets r))%nat with 0%nat by lia.
    reflexivity.
Qed.

Lemma SizeToBucketIndex_range_witness :
  kMaxBucketed = 983040 /\
  (forall n, 0 <= n <= kMaxBucketed ->
     exists i, SizeToBucketIndex p32_8 n = Some i /\ 0 <= i < kNumBuckets p32_8) /\
  (forall n, kMaxBucketed < n < size_max_plus_1 p32_8 ->
     SizeToBucketIndex p32_8 n = Some (kNumBuckets p32_8)) /\
  SizeToBucketIndex p32_8 kMaxBucketed = Some (kNumBuckets p32_8 - 1) /\
  bucket_size p32_8 (kNumBuckets p32_8 - 1) = kMaxBucketed /\
  (forall r, Z.of_nat (length (buckets r)) = kNumBuckets p32_8 ->
     bucket_at r (kNumBuckets p32_8) = sentinel_bucket r).
Proof.
  apply (SizeToBucketIndex_range p32_8). reflexivity.
Defined.

(** C3 (as the code has it). For a non-zero size the order is the bit
    length [floor(log2 n) + 1], obtained from the count of leading zeros;
    it is the ceiling of [log2 n] when [n] is not a power of two and one more
    than that when it is.  The index is read at
    [(order << 3) + order_index + (sub_order_index != 0)], with
    [order_index = (n >> shift[order]) & (kNumBucketsPerOrder - 1)] and
    [sub_order_index = n & sub_mask[order]]. *)
Theorem GetIndex_order (p : Platform) (n : Z) :
  supported p = true -> 0 < n -> n < size_max_plus_1 p ->
  order_of p n = kBitsPerSizeT p - CountLeadingZeroBitsSizeT p n /\
  order_of p n = Z.log2 n + 1 /\
  (n <> 2 ^ Z.log2 n -> order_of p n = Z.log2_up n) /\
  (n = 2 ^ Z.log2 n -> order_of p n = Z.log2_up n + 1) /\
  order_index_of p n =
    Z.land (Z.shiftr n (OrderIndexShift (order_of p n))) (kNumBucketsPerOrder - 1) /\
  sub_order_index_of p n = Z.land n (OrderSubIndexMask p (order_of p n)) /\
  exists lk,
    BucketIndexLookup p = Some lk /\
    GetIndex p n =
      Some (at_index (bucket_index_lookup_ lk)
              (Z.shiftl (order_of p n) kNumBucketsPerOrderBits
               + order_index_of p n
               + (if sub_order_index_of p n =? 0 then 0 else 1))).
Proof.
  intros Hs Hpos Hlt.
  assert (Hb : 0 <= kBitsPerSizeT p) by (destruct (supported_bits p Hs); lia).
  pose proof (order_of_log2 p n Hb (conj Hpos Hlt)) as Hord.
  pose proof (order_of_range p n Hb (conj Hpos Hlt)) as Hrange.
  pose proof (Z.le_log2_log2_up n) as Hle.
  pose proof (Z.le_log2_up_succ_log2 n) as Hup.
  pose proof (Z.log2_nonneg n) as Hnn.
  split; [reflexivity|]. split; [exact Hord|].
  split; [|split; [|split; [|split]]].
  - intros Hnp. rewrite Hord.
    destruct (Z.eq_dec (Z.log2 n) (Z.log2_up n)) as [E|E]; [|lia].
    apply Z.log2_log2_up_exact in E; [|exact Hpos].
    destruct E as [k Hk]. exfalso. apply Hnp.
    destruct (Z.lt_ge_cases k 0) as [Hneg|Hge].
    + rewrite Z.pow_neg_r in Hk by exact Hneg. lia.
    + rewrite Hk at 2. rewrite Z.log2_pow2 by exact Hge. exact Hk.
  - intros Hp. rewrite Hord. rewrite Hp at 2.
    rewrite Z.log2_up_pow2 by exact Hnn. reflexivity.
  - unfold order_index_of, kOrderIndexShift.
    rewrite at_index_map_upto by lia. reflexivity.
  - unfold sub_order_index_of, kOrderSubIndexMask.
    rewrite at_index_map_upto by lia. reflexivity.
  - destruct (table_exists p Hs) as [lk Hlk]. exists lk. split; [exact Hlk|].
    apply (GetIndex_at p lk Hs Hlk). lia.
Qed.

Lemma GetIndex_order_witness :
  order_of p64_16 41 = kBitsPerSizeT p64_16 - CountLeadingZeroBitsSizeT p64_16 41 /\
  order_of p64_16 41 = Z.log2 41 + 1 /\
  (41 <> 2 ^ Z.log2 41 -> order_of p64_16 41 = Z.log2_up 41) /\
  (41 = 2 ^ Z.log2 41 -> order_of p64_16 41 = Z.log2_up 41 + 1) /\
  order_index_of p64_16 41 =
    Z.land (Z.shiftr 41 (OrderIndexShift (order_of p64_16 41))) (kNumBucketsPerOrder - 1) /\
  sub_order_index_of p64_16 41 = Z.land 41 (OrderSubIndexMask p64_16 (order_of p64_16 41)) /\
  exists lk,
    BucketIndexLookup p64_16 = Some lk /\
    GetIndex p64_16 41 =
      Some (at_index (bucket_index_lookup_ lk)
              (Z.shiftl (order_of p64_16 41) kNumBucketsPerOrderBits
               + order_index_of p64_16 41
               + (if sub_order_index_of p64_16 41 =? 0 then 0 else 1))).
Proof.
  apply (GetIndex_order p64_16 41); [reflexivity | lia | reflexivity].
Defined.

(** C3 as stated fails at powers of two: the order of [32] is [6], its
    ceiling logarithm is [5]. *)
Lemma order_is_not_ceil_log2 :
  order_of p64_16 32 = 6 /\ Z.log2_up 32 = 5 /\ order_of p64_16 32 <> Z.log2_up 32.
Proof.
  repeat split. intros H. vm_compute in H. discriminate H.
Qed.

(** ** Reasoning about outcomes *)

Lemma bind_Returns {A B : Type} (m : outcome A) (k : A -> outcome B) (y : B) :
  bind m k = Returns y -> exists a, m = Returns a /\ k a = Returns y.
Proof. destruct m as [a|]; cbn; intros H; [eauto | discriminate]. Qed.

Lemma PA_CHECK_Returns (c : bool) (u : unit) : PA_CHECK c = Returns u -> c = true.
Proof. destruct c; cbn; intros H; [reflexivity | discriminate]. Qed.

Lemma PA_CHECK_bind {A : Type} (c : bool) (k : unit -> outcome A) (y : A) :
  bind (PA_CHECK c) k = Returns y -> c = true /\ k tt = Returns y.
Proof. destruct c; cbn; intros H; [auto | discriminate]. Qed.

Lemma PA_DCHECK_bind {A : Type} (b : Build) (c : bool) (k : unit -> outcome A) (y : A) :
  bind (PA_DCHECK b c) k = Returns y -> k tt = Returns y.
Proof.
  unfold PA_DCHECK. destruct (DCHECK_IS_ON b); [|auto].
  intros H. apply PA_CHECK_bind in H. tauto.
Qed.

Lemma PA_DCHECK_true {A : Type} (b : Build) (k : unit -> outcome A) :
  bind (PA_DCHECK b true) k = k tt.
Proof. unfold PA_DCHECK. destruct (DCHECK_IS_ON b); reflexivity. Qed.

(** ** Consequences of the invariants *)

Lemma list_Z_eqb_eq (l1 l2 : list Z) : list_Z_eqb l1 l2 = true -> l1 = l2.
Proof.
  revert l2. induction l1 as [|x l1 IH]; intros [|y l2]; cbn; try discriminate; auto.
  intros H. apply andb_true_iff in H as [Hx Hl]. apply Z.eqb_eq in Hx.
  f_equal; auto.
Qed.

Lemma BucketPtr_eqb_eq (x y : BucketPtr) : BucketPtr_eqb x y = true -> x = y.
Proof.
  destruct x, y; cbn; try discriminate.
  - intros H. apply andb_true_iff in H as [H1 H2].
    apply Z.eqb_eq in H1, H2. congruence.
  - intros H. apply Z.eqb_eq in H. congruence.
Qed.

Lemma lookup_sizes (p : Platform) (lk : Lookup) :
  BucketIndexLookup p = Some lk -> bucket_sizes_ lk = InitBucketSizes p.
Proof.
  unfold BucketIndexLookup. cbv zeta.
  match goal with
  | |- context [match ?x with _ => _ end] => destruct x as [[out bi]|]
  end; intros H; inversion H; reflexivity.
Qed.

Lemma build_ok_supported (b : Build) : build_ok b = true -> supported b = true.
Proof.
  unfold build_ok. intros H.
  apply andb_true_iff in H as [H _]. apply andb_true_iff in H as [H _]. exact H.
Qed.

Lemma build_ok_MaxDirectMapped (b : Build) :
  build_ok b = true -> kMaxBucketed < MaxDirectMapped b < size_max_plus_1 b.
Proof.
  unfold build_ok. intros H.
  apply andb_true_iff in H as [H H2]. apply andb_true_iff in H as [_ H1].
  apply Z.ltb_lt in H1, H2. lia.
Qed.

Lemma size_max_pos (p : Platform) : supported p = true -> 2 ^ 32 <= size_max_plus_1 p.
Proof.
  intros H. unfold size_max_plus_1.
  destruct (supported_bits p H) as [-> | ->]; [reflexivity | discriminate].
Qed.

Lemma root_ok_facts (b : Build) (r : PartitionRoot) :
  root_ok b r = true ->
  map slot_size (buckets r) = InitBucketSizes b /\
  0 <= extras_offset r <= extras_size r /\
  extras_size r < kMaxBucketed /\
  (ENABLE_REF_COUNT_FOR_BACKUP_REF_PTR b = true -> allow_ref_count r = true ->
   kRefCountSize b <= extras_offset r).
Proof.
  unfold root_ok. intros H.
  repeat (apply andb_true_iff in H as [H ?]).
  apply list_Z_eqb_eq in H.
  repeat match goal with
         | X : (_ <=? _) = true |- _ => apply Z.leb_le in X
         | X : (_ <? _) = true |- _ => apply Z.ltb_lt in X
         end.
  repeat split; try assumption; try lia.
  intros He Ha.
  match goal with
  | X : negb _ || _ = true |- _ => rewrite He, Ha in X; cbn in X; apply Z.leb_le in X; exact X
  end.
Qed.

Lemma heap_ok_root (b : Build) (this : Z) (h : Heap) :
  heap_ok b this h = true -> root_ok b (roots h this) = true.
Proof. unfold heap_ok. intros H. apply andb_true_iff in H. tauto. Qed.

Lemma heap_ok_entry (b : Build) (this : Z) (h : Heap) (lk : Lookup) (idx : Z) :
  heap_ok b this h = true -> BucketIndexLookup b = Some lk ->
  In idx (bucket_index_lookup_ lk) ->
  freelist_entry_ok b this h idx = true.
Proof.
  unfold heap_ok. intros H Hlk Hin. apply andb_true_iff in H as [_ H].
  rewrite Hlk in H. rewrite forallb_forall in H. auto.
Qed.

Lemma bucket_at_slot_size (b : Build) (lk : Lookup) (r : PartitionRoot) (idx : Z) :
  supported b = true -> BucketIndexLookup b = Some lk ->
  root_ok b r = true -> 0 <= idx < kNumBuckets b ->
  slot_size (bucket_at r idx) = at_index (bucket_sizes_ lk) idx.
Proof.
  intros Hs Hlk Hr Hidx.
  destruct (root_ok_facts b r Hr) as (Hsz & _).
  pose proof (sizes_length b lk Hs Hlk) as Hlen.
  rewrite (lookup_sizes b lk Hlk) in *.
  assert (Hl : length (buckets r) = length (InitBucketSizes b))
    by (rewrite <- Hsz, length_map; reflexivity).
  unfold bucket_at, at_index.
  rewrite app_nth1 by lia.
  rewrite <- Hsz.
  rewrite (nth_indep (map slot_size (buckets r)) 0 (slot_size (sentinel_bucket r)))
    by (rewrite length_map; lia).
  symmetry. apply map_nth.
Qed.

Lemma same_config_refl (r : PartitionRoot) : same_config r r.
Proof. unfold same_config. auto. Qed.

Lemma same_config_trans (r1 r2 r3 : PartitionRoot) :
  same_config r1 r2 -> same_config r2 r3 -> same_config r1 r3.
Proof. unfold same_config. intuition congruence. Qed.

Lemma same_config_thread_cache (r : PartitionRoot) (v : bool) :
  same_config r (set_with_thread_cache r v).
Proof. unfold same_config. cbn. auto. Qed.

Lemma roots_set_root (h : Heap) (this : Z) (r : PartitionRoot) :
  roots (set_root h this r) this = r.
Proof. cbn. unfold update. rewrite Z.eqb_refl. reflexivity. Qed.

Lemma forallb_same {A : Type} (f g : A -> bool) (l : list A) :
  (forall a, f a = g a) -> forallb f l = forallb g l.
Proof. intros H. induction l as [|a l IH]; cbn; [reflexivity | rewrite H, IH; reflexivity]. Qed.

(** Switching [with_thread_cache] does not touch the invariant. *)
Lemma heap_ok_thread_cache (b : Build) (this : Z) (h : Heap) (v : bool) :
  heap_ok b this (set_root h this (set_with_thread_cache (roots h this) v))
  = heap_ok b this h.
Proof.
  unfold heap_ok. rewrite roots_set_root. f_equal.
  destruct (BucketIndexLookup b) as [lk|]; [|reflexivity].
  apply forallb_same. intros idx.
  unfold freelist_entry_ok. rewrite roots_set_root. reflexivity.
Qed.

Lemma freelist_entry_facts (b : Build) (this : Z) (h : Heap) (idx : Z) :
  freelist_entry_ok b this h idx = true ->
  let r := roots h this in
  let bk := bucket_at r idx in
  let sp := active_slot_spans_head bk in
  let s := slot_spans h sp in
  sp <> 0 /\ 0 <= num_allocated_slots s /\
  (freelist_head s <> 0 ->
   idx < kNumBuckets b /\ 0 < freelist_head s /\
   freelist_head s + slot_size bk <= size_max_plus_1 b /\
   span_of h (AdjustPointerForExtrasAdd b r (freelist_head s)) = sp /\
   FromSlotSpan b h sp = this /\
   raw_size s = None /\
   bucket s = RootBucket this idx).
Proof.
  unfold freelist_entry_ok. cbv zeta. intros H.
  apply andb_true_iff in H as [H Hfree]. apply andb_true_iff in H as [Hsp Hnum].
  apply negb_true_iff, Z.eqb_neq in Hsp. apply Z.leb_le in Hnum.
  split; [exact Hsp|]. split; [exact Hnum|].
  intros Hne. apply orb_true_iff in Hfree as [Hz | Hfree].
  - apply Z.eqb_eq in Hz. contradiction.
  - repeat (apply andb_true_iff in Hfree as [Hfree ?]).
    repeat match goal with
           | X : (_ <=? _) = true |- _ => apply Z.leb_le in X
           | X : (_ <? _) = true |- _ => apply Z.ltb_lt in X
           | X : (_ =? _) = true |- _ => apply Z.eqb_eq in X
           | X : BucketPtr_eqb _ _ = true |- _ => apply BucketPtr_eqb_eq in X
           | X : negb _ = true |- _ => apply negb_true_iff in X
           end.
    repeat split; try assumption.
    match goal with
    | X : CanStoreRawSize _ = false |- _ =>
        unfold CanStoreRawSize in X;
        destruct (raw_size (slot_spans h (active_slot_spans_head
                                            (bucket_at (roots h this) idx))));
        [discriminate X | reflexivity]
    end.
Qed.

(** An index below [kNumBuckets] comes from a bucketed size, which the
    bucket's size covers. *)
Lemma bucketed_index_covers (p : Platform) (lk : Lookup) (raw : Z) :
  supported p = true -> BucketIndexLookup p = Some lk ->
  0 <= raw < size_max_plus_1 p ->
  at_index (bucket_index_lookup_ lk) (lookup_position p raw) < kNumBuckets p ->
  raw <= kMaxBucketed /\
  0 <= at_index (bucket_index_lookup_ lk) (lookup_position p raw) /\
  raw <= at_index (bucket_sizes_ lk)
           (at_index (bucket_index_lookup_ lk) (lookup_position p raw)).
Proof.
  intros Hs Hlk Hraw Hidx.
  assert (Hle : raw <= kMaxBucketed).
  { destruct (Z.le_gt_cases raw kMaxBucketed) as [|Hgt]; [assumption|].
    rewrite (index_sentinel p lk raw Hs Hlk) in Hidx by lia. lia. }
  split; [exact Hle|]. split.
  - apply (index_bucketed p lk raw Hs Hlk). lia.
  - apply bucket_covers; (assumption || lia).
Qed.

Section AllocationPaths.
Variable C : Collaborators.
Variable b : Build.
Variable lk : Lookup.
Hypothesis Hbuild : build_ok b = true.
Hypothesis Hspec : CollaboratorsSpec C b.
Hypothesis Hlk : BucketIndexLookup b = Some lk.

Lemma AllocFromBucket_spec (this flags raw : Z) (h : Heap)
    (ret u : Z) (z : bool) (h1 : Heap) :
  heap_ok b this h = true -> is_size_t b raw ->
  AllocFromBucket C b this
    (RootBucket this (at_index (bucket_index_lookup_ lk) (lookup_position b raw)))
    flags raw h = Returns (ret, u, z, h1) ->
  slot_result b this raw h h1 ret u z.
Proof.
  intros Hok Hraw.
  pose proof (build_ok_supported b Hbuild) as Hs.
  set (idx := at_index (bucket_index_lookup_ lk) (lookup_position b raw)).
  assert (Hin : In idx (bucket_index_lookup_ lk))
    by (apply in_at_index, (position_in_table b lk Hs Hlk); exact Hraw).
  pose proof (freelist_entry_facts b this h idx (heap_ok_entry b this h lk idx Hok Hlk Hin))
    as Hfacts.
  cbv zeta in Hfacts. destruct Hfacts as (_ & _ & Hfree).
  unfold AllocFromBucket. cbn [load_bucket].
  intros H. apply PA_DCHECK_bind in H. apply PA_DCHECK_bind in H.
  destruct (Z.eqb_spec
              (freelist_head
                 (slot_spans h (active_slot_spans_head (bucket_at (roots h this) idx))))
              0) as [Hnull | Hhead]; cbn [negb] in H.
  - (* slow path *)
    apply bind_Returns in H as [[[ret0 z0] h0] [Hslow H]].
    apply PA_DCHECK_bind in H.
    destruct (spec_SlowPathAlloc C b Hspec _ _ _ _ _ _ _ _ Hok Hraw
                (SizeToBucketIndex_at b lk raw Hs Hlk Hraw) Hslow) as [Hcfg Hres].
    destruct (Z.eqb_spec ret0 0) as [Hz | Hnz].
    + inversion H; subst. split; [exact Hcfg | intros Hn; contradiction].
    + apply PA_DCHECK_bind in H. inversion H; subst.
      split; [exact Hcfg | intros _; exact (Hres Hnz)].
  - (* free-list head *)
    do 4 apply PA_DCHECK_bind in H. inversion H; subst. clear H.
    destruct (Hfree Hhead) as (Hidx & Hpos & Hfit & Hspan & Hroot & Hraw0 & Hbk).
    split; [apply same_config_refl|]. intros _.
    destruct (bucketed_index_covers b lk raw Hs Hlk Hraw Hidx) as (Hle & Hidx0 & Hcover).
    fold idx in Hidx0, Hcover.
    rewrite <- (bucket_at_slot_size b lk (roots h this) idx Hs Hlk
                  (heap_ok_root b this h Hok) (conj Hidx0 Hidx)) in Hcover.
    split; [exact Hcover|]. split; [|discriminate].
    unfold handed_out. cbn [roots span_of set_slot_span].
    split; [exact Hpos|]. split; [exact Hfit|].
    rewrite Hspan. split; [exact Hroot|].
    unfold GetUtilizedSlotSize. cbn [slot_spans set_slot_span].
    unfold update. rewrite Z.eqb_refl. cbn [raw_size bucket].
    rewrite Hraw0, Hbk. reflexivity.
Qed.

Lemma slot_result_after (this raw : Z) (h h0 h1 : Heap) (ret u : Z) (z : bool) :
  same_config (roots h this) (roots h0 this) ->
  slot_result b this raw h0 h1 ret u z ->
  slot_result b this raw h h1 ret u z.
Proof.
  intros Hcfg [Hcfg' Hres]. split; [|exact Hres].
  eapply same_config_trans; eassumption.
Qed.

Lemma take_slot_spec (this flags raw : Z) (h : Heap)
    (ret u : Z) (z : bool) (h1 : Heap) :
  heap_ok b this h = true -> is_size_t b raw ->
  take_slot C b this flags
    (at_index (bucket_index_lookup_ lk) (lookup_position b raw)) raw h
  = Returns (ret, u, z, h1) ->
  slot_result b this raw h h1 ret u z.
Proof.
  intros Hok Hraw.
  pose proof (build_ok_supported b Hbuild) as Hs.
  unfold take_slot, RawAlloc.
  destruct (is_thread_safe (roots h this)); cbn [andb];
    [|apply AllocFromBucket_spec; assumption].
  destruct (with_thread_cache (roots h this)) eqn:Ewtc;
    [|apply AllocFromBucket_spec; assumption].
  destruct (thread_cache_for C this h) as [tcache h0] eqn:Et.
  destruct (GetFromCache C tcache
              (at_index (bucket_index_lookup_ lk) (lookup_position b raw)) h0)
    as [[ret0 u0] hg] eqn:Eg.
  destruct (spec_thread_cache C b Hspec _ _ _ _ _ _ _ _ Hok Ewtc Et Eg)
    as (Hokg & Hcfgg & Hhit).
  intros H. apply bind_Returns in H as [[] [_ H]].
  destruct (Z.eqb_spec ret0 0) as [Hz | Hnz].
  - apply (slot_result_after this raw h hg); [exact Hcfgg|].
    eapply AllocFromBucket_spec; eassumption.
  - inversion H; subst. clear H.
    destruct (Hhit Hnz) as ([Hidx0 Hidx] & Hu & Hout).
    split; [exact Hcfgg|]. intros _.
    destruct (bucketed_index_covers b lk raw Hs Hlk Hraw Hidx) as (_ & _ & Hcover).
    rewrite <- (bucket_at_slot_size b lk (roots h1 this) _ Hs Hlk
                  (heap_ok_root b this h1 Hokg) (conj Hidx0 Hidx)) in Hcover.
    rewrite <- Hu in Hcover.
    split; [exact Hcover|]. split; [exact Hout | discriminate].
Qed.

(** The tail of the allocation writes payload bytes only. *)
Lemma set_up_slot_frame (this flags raw ret u : Z) (z : bool) (h1 : Heap) :
  let h' := snd (set_up_slot b this flags raw ret u z h1) in
  roots h' = roots h1 /\ slot_spans h' = slot_spans h1 /\
  extent_buckets h' = extent_buckets h1 /\ extent_root h' = extent_root h1 /\
  span_of h' = span_of h1 /\ trace h' = trace h1.
Proof.
  unfold set_up_slot, fill_region, PartitionRefCountConstruct, PartitionCookieWriteValue.
  cbn [snd].
  destruct (ENABLE_REF_COUNT_FOR_BACKUP_REF_PTR b),
    (allow_ref_count (roots h1 this) && negb (raw >? kMaxBucketed)),
    (negb (has_flag flags PartitionAllocZeroFill)), (DCHECK_IS_ON b), (negb z),
    (allow_cookies (roots h1 this)); cbn; repeat split; reflexivity.
Qed.

Lemma GetUsableSize_frame (h h' : Heap) (ptr : Z) :
  roots h' = roots h -> slot_spans h' = slot_spans h ->
  extent_buckets h' = extent_buckets h -> extent_root h' = extent_root h ->
  span_of h' = span_of h ->
  GetUsableSize b h' ptr = GetUsableSize b h ptr.
Proof.
  intros Hr Hs Hb He Hp.
  unfold GetUsableSize, FromPointerNoAlignmentCheck, FromSlotSpan, GetUtilizedSlotSize,
    load_bucket.
  rewrite Hr, Hs, Hb, He, Hp. reflexivity.
Qed.

Lemma initial_raw_size_range (n : Z) :
  is_size_t b n -> n <= initial_raw_size b n < size_max_plus_1 b.
Proof.
  intros Hn. pose proof (size_max_pos b (build_ok_supported b Hbuild)).
  unfold initial_raw_size, is_size_t in *.
  destruct (ENABLE_REF_COUNT_FOR_BACKUP_REF_PTR b); cbn [andb]; [|lia].
  destruct (Z.eqb_spec n 0); lia.
Qed.

(** [PA_CHECK(raw_size >= requested_size)] holds exactly when the sum did
    not wrap. *)
Lemma raw_size_check (r : PartitionRoot) (n : Z) :
  root_ok b r = true -> is_size_t b n ->
  (to_size_t b (initial_raw_size b n + extras_size r) >=? n) = true <->
  initial_raw_size b n + extras_size r < size_max_plus_1 b.
Proof.
  intros Hr Hn.
  destruct (root_ok_facts b r Hr) as (_ & Hoff & Hext & _).
  pose proof (initial_raw_size_range n Hn) as Hn0.
  pose proof (size_max_pos b (build_ok_supported b Hbuild)) as Hmax.
  assert (Hone : initial_raw_size b n = n \/ (n = 0 /\ initial_raw_size b n = 1)).
  { unfold initial_raw_size.
    destruct (ENABLE_REF_COUNT_FOR_BACKUP_REF_PTR b); cbn [andb]; [|auto].
    destruct (Z.eqb_spec n 0); auto. }
  unfold is_size_t, kMaxBucketed, to_size_t in *.
  rewrite Z.geb_le.
  destruct (Z.lt_ge_cases (initial_raw_size b n + extras_size r) (size_max_plus_1 b))
    as [Hlt | Hge].
  - rewrite Z.mod_small by lia. split; intros; lia.
  - replace ((initial_raw_size b n + extras_size r) mod size_max_plus_1 b)
      with (initial_raw_size b n + extras_size r - size_max_plus_1 b).
    + split; intros; lia.
    + apply (Z.mod_unique_pos _ _ 1); lia.
Qed.

(** What a successful [AllocFlagsNoHooks] went through. *)
Lemma AllocFlagsNoHooks_returns (this flags n : Z) (h : Heap) (p : Z) (h' : Heap) :
  heap_ok b this h = true -> is_size_t b n ->
  AllocFlagsNoHooks C b this flags n h = Returns (p, h') -> p <> 0 ->
  let raw := initial_raw_size b n + extras_size (roots h this) in
  raw < size_max_plus_1 b /\
  exists ret u z h1,
    slot_result b this raw h h1 ret u z /\ ret <> 0 /\
    set_up_slot b this flags raw ret u z h1 = (p, h').
Proof.
  intros Hok Hn H Hp. cbv zeta.
  pose proof (build_ok_supported b Hbuild) as Hs.
  pose proof (heap_ok_root b this h Hok) as Hr.
  destruct (root_ok_facts b _ Hr) as (_ & Hoff & Hext & _).
  pose proof (initial_raw_size_range n Hn) as Hn0.
  unfold AllocFlagsNoHooks, AdjustSizeForExtrasAdd in H. cbv zeta in H.
  apply bind_Returns in H as [raw' [Hadd H]].
  apply PA_DCHECK_bind in Hadd. inversion Hadd as [Hraw']. clear Hadd.
  apply PA_CHECK_bind in H as [Hcheck H].
  rewrite <- Hraw' in Hcheck.
  apply (raw_size_check _ n Hr Hn) in Hcheck.
  assert (Hsmall : to_size_t b (initial_raw_size b n + extras_size (roots h this))
                   = initial_raw_size b n + extras_size (roots h this))
    by (apply Z.mod_small; unfold is_size_t in *; lia).
  rewrite Hsmall in Hraw'. subst raw'.
  split; [exact Hcheck|].
  assert (Hraw : is_size_t b (initial_raw_size b n + extras_size (roots h this)))
    by (unfold is_size_t in *; lia).
  rewrite (SizeToBucketIndex_at b lk _ Hs Hlk Hraw) in H.
  apply bind_Returns in H as [[[[ret u] z] h1] [Htake H]].
  destruct (Z.eqb_spec ret 0) as [Hz | Hnz].
  - inversion H; subst. contradiction.
  - inversion H as [Hset]. exists ret, u, z, h1.
    split; [|split; [exact Hnz | reflexivity]].
    eapply take_slot_spec; eassumption.
Qed.

(** The pointer given to the application, and what [GetUsableSize] finds
    for it. *)
Lemma allocation_layout (this flags n : Z) (h : Heap) (p : Z) (h' : Heap) :
  heap_ok b this h = true -> is_size_t b n ->
  AllocFlagsNoHooks C b this flags n h = Returns (p, h') -> p <> 0 ->
  let raw := initial_raw_size b n + extras_size (roots h this) in
  exists ret u z h1,
    slot_result b this raw h h1 ret u z /\
    set_up_slot b this flags raw ret u z h1 = (p, h') /\
    0 < ret /\ ret + u <= size_max_plus_1 b /\ raw <= u /\
    p = ret + extras_offset (roots h this) /\ p < size_max_plus_1 b /\
    same_config (roots h this) (roots h' this) /\
    GetUtilizedSlotSize h' (FromPointerNoAlignmentCheck h' p) = u /\
    GetUsableSize b h' p = u - extras_size (roots h this).
Proof.
  intros Hok Hn H Hp. cbv zeta.
  pose proof (heap_ok_root b this h Hok) as Hr.
  destruct (root_ok_facts b _ Hr) as (_ & Hoff & Hext & _).
  pose proof (initial_raw_size_range n Hn) as Hn0.
  destruct (AllocFlagsNoHooks_returns this flags n h p h' Hok Hn H Hp)
    as (Hraw & ret & u & z & h1 & Hres & Hnz & Hset).
  exists ret, u, z, h1.
  destruct Hres as [Hcfg Hslot].
  destruct (Hslot Hnz) as (Hcover & (Hpos & Hfit & Hroot & Hutil) & Hzero).
  destruct Hcfg as (Hes & Heo & Harc & Hack).
  pose proof (set_up_slot_frame this flags
                (initial_raw_size b n + extras_size (roots h this)) ret u z h1) as Hframe.
  rewrite Hset in Hframe. cbn [snd] in Hframe.
  destruct Hframe as (Fr & Fs & Fb & Fe & Fp & _).
  assert (Hp' : p = AdjustPointerForExtrasAdd b (roots h1 this) ret)
    by (unfold set_up_slot in Hset; inversion Hset; reflexivity).
  assert (Hptr : p = ret + extras_offset (roots h this)).
  { rewrite Hp'. unfold AdjustPointerForExtrasAdd, to_size_t. rewrite Heo.
    destruct (Z.eq_dec (ret + extras_offset (roots h this)) (size_max_plus_1 b)) as [E|E].
    - exfalso. apply Hp. rewrite Hp'.
      unfold AdjustPointerForExtrasAdd, to_size_t. rewrite Heo, E.
      apply Z.mod_same. unfold is_size_t in Hn. lia.
    - apply Z.mod_small. unfold is_size_t in *. lia. }
  assert (Hplt : p < size_max_plus_1 b).
  { rewrite Hp'. unfold AdjustPointerForExtrasAdd, to_size_t.
    apply Z.mod_pos_bound. unfold is_size_t in Hn. lia. }
  assert (Hutil' : GetUtilizedSlotSize h' (FromPointerNoAlignmentCheck h' p) = u).
  { unfold FromPointerNoAlignmentCheck, GetUtilizedSlotSize, load_bucket.
    rewrite Fr, Fs, Fb, Fp, Hp'. exact Hutil. }
  repeat split; try assumption; try (rewrite Fr; assumption).
  rewrite (GetUsableSize_frame h1 h' p Fr Fs Fb Fe Fp).
  unfold GetUsableSize, FromPointerNoAlignmentCheck.
  rewrite Hp', Hroot, Hutil.
  unfold AdjustSizeForExtrasSubtract, to_size_t. rewrite Hes.
  apply Z.mod_small. unfold is_size_t in *. lia.
Qed.

(** The sentinel bucket sends a request above [MaxDirectMapped] to the slow
    path, which refuses it. *)
Lemma AllocFromBucket_too_large (this flags raw : Z) (h : Heap) :
  heap_ok b this h = true -> is_size_t b raw -> MaxDirectMapped b < raw ->
  (has_flag flags PartitionAllocReturnNull = true ->
   exists h', AllocFromBucket C b this (RootBucket this (kNumBuckets b)) flags raw h
              = Returns (0, 0, false, h')) /\
  (has_flag flags PartitionAllocReturnNull = false ->
   AllocFromBucket C b this (RootBucket this (kNumBuckets b)) flags raw h = Crashes).
Proof.
  intros Hok Hraw Hbig.
  pose proof (build_ok_supported b Hbuild) as Hs.
  assert (Hin : In (kNumBuckets b) (bucket_index_lookup_ lk)).
  { rewrite <- (table_last b lk Hs Hlk). apply in_at_index.
    rewrite (table_length b lk Hs Hlk).
    destruct (supported_bits b Hs) as [E | E]; rewrite E; cbn; lia. }
  pose proof (freelist_entry_facts b this h _ (heap_ok_entry b this h lk _ Hok Hlk Hin))
    as Hfacts.
  cbv zeta in Hfacts. destruct Hfacts as (Hsp & Hnum & Hfree).
  assert (Hhead : freelist_head
                    (slot_spans h (active_slot_spans_head
                                     (bucket_at (roots h this) (kNumBuckets b)))) = 0).
  { destruct (Z.eq_dec
                (freelist_head
                   (slot_spans h (active_slot_spans_head
                                    (bucket_at (roots h this) (kNumBuckets b))))) 0)
      as [E | E]; [exact E|].
    destruct (Hfree E) as (Hlt & _). lia. }
  pose proof (spec_SlowPathAlloc_too_large C b Hspec this flags raw h Hok Hraw Hbig)
    as Hslow.
  unfold AllocFromBucket. cbn [load_bucket].
  replace (negb (active_slot_spans_head (bucket_at (roots h this) (kNumBuckets b)) =? 0))
    with true by (symmetry; apply negb_true_iff, Z.eqb_neq; exact Hsp).
  replace (num_allocated_slots
             (slot_spans h (active_slot_spans_head
                              (bucket_at (roots h this) (kNumBuckets b)))) >=? 0)
    with true by (symmetry; apply Z.geb_le; lia).
  rewrite !PA_DCHECK_true, Hhead. cbn [Z.eqb negb].
  destruct (has_flag flags PartitionAllocReturnNull).
  - split; [intros _ | discriminate].
    destruct Hslow as (z & h' & Hslow). rewrite Hslow. cbn [bind].
    cbn [Z.eqb orb]. rewrite PA_DCHECK_true. eauto.
  - split; [discriminate | intros _]. rewrite Hslow. reflexivity.
Qed.

Lemma take_slot_too_large (this flags raw : Z) (h : Heap) :
  heap_ok b this h = true -> is_size_t b raw -> MaxDirectMapped b < raw ->
  (has_flag flags PartitionAllocReturnNull = true ->
   exists h', take_slot C b this flags (kNumBuckets b) raw h
              = Returns (0, 0, false, h')) /\
  (has_flag flags PartitionAllocReturnNull = false ->
   take_slot C b this flags (kNumBuckets b) raw h = Crashes).
Proof.
  intros Hok Hraw Hbig. unfold take_slot, RawAlloc.
  destruct (is_thread_safe (roots h this)); cbn [andb];
    [|apply AllocFromBucket_too_large; assumption].
  destruct (with_thread_cache (roots h this)) eqn:Ewtc;
    [|apply AllocFromBucket_too_large; assumption].
  destruct (thread_cache_for C this h) as [tcache h0] eqn:Et.
  destruct (GetFromCache C tcache (kNumBuckets b) h0) as [[ret0 u0] hg] eqn:Eg.
  destruct (spec_thread_cache C b Hspec _ _ _ _ _ _ _ _ Hok Ewtc Et Eg)
    as (Hokg & _ & Hhit).
  destruct (Z.eqb_spec ret0 0) as [Hz | Hnz].
  - cbn [negb bind]. apply AllocFromBucket_too_large; assumption.
  - destruct (Hhit Hnz) as (Hidx & _). lia.
Qed.

Lemma AllocFlagsNoHooks_overflow (this flags n : Z) (h : Heap) :
  heap_ok b this h = true -> is_size_t b n ->
  size_max_plus_1 b <= initial_raw_size b n + extras_size (roots h this) ->
  AllocFlagsNoHooks C b this flags n h = Crashes.
Proof.
  intros Hok Hn Hover.
  pose proof (heap_ok_root b this h Hok) as Hr.
  assert (Hc : (to_size_t b (initial_raw_size b n + extras_size (roots h this)) >=? n)
               = false).
  { destruct (to_size_t b (initial_raw_size b n + extras_size (roots h this)) >=? n)
      eqn:E; [|reflexivity].
    apply (raw_size_check _ n Hr Hn) in E. lia. }
  unfold AllocFlagsNoHooks, AdjustSizeForExtrasAdd, PA_DCHECK. cbv zeta.
  destruct (DCHECK_IS_ON b).
  - destruct (to_size_t b (initial_raw_size b n + extras_size (roots h this))
              >=? initial_raw_size b n); cbn [PA_CHECK bind]; [|reflexivity].
    rewrite Hc. reflexivity.
  - cbn [bind]. rewrite Hc. reflexivity.
Qed.

Lemma AllocFlagsNoHooks_too_large (this flags n : Z) (h : Heap) :
  heap_ok b this h = true -> is_size_t b n ->
  initial_raw_size b n + extras_size (roots h this) < size_max_plus_1 b ->
  MaxDirectMapped b < n ->
  (has_flag flags PartitionAllocReturnNull = true ->
   exists h', AllocFlagsNoHooks C b this flags n h = Returns (0, h')) /\
  (has_flag flags PartitionAllocReturnNull = false ->
   AllocFlagsNoHooks C b this flags n h = Crashes).
Proof.
  intros Hok Hn Hfits Hbig.
  pose proof (build_ok_supported b Hbuild) as Hs.
  pose proof (build_ok_MaxDirectMapped b Hbuild) as Hmax.
  pose proof (heap_ok_root b this h Hok) as Hr.
  destruct (root_ok_facts b _ Hr) as (_ & Hoff & _ & _).
  pose proof (initial_raw_size_range n Hn) as Hn0.
  set (raw := initial_raw_size b n + extras_size (roots h this)) in *.
  assert (Hraw : is_size_t b raw) by (unfold is_size_t in *; lia).
  assert (Hsmall : to_size_t b raw = raw) by (apply Z.mod_small; exact Hraw).
  assert (Hidx : SizeToBucketIndex b raw = Some (kNumBuckets b)).
  { rewrite (SizeToBucketIndex_at b lk raw Hs Hlk Hraw). f_equal.
    apply index_sentinel; (assumption || unfold is_size_t in *; lia). }
  assert (Hcheck : (raw >=? n) = true) by (apply Z.geb_le; lia).
  assert (Hdcheck : (raw >=? initial_raw_size b n) = true) by (apply Z.geb_le; lia).
  destruct (take_slot_too_large this flags raw h Hok Hraw ltac:(lia)) as [Hnull Hcrash].
  unfold AllocFlagsNoHooks, AdjustSizeForExtrasAdd. cbv zeta. fold raw.
  rewrite Hsmall, Hdcheck, PA_DCHECK_true. cbn [bind].
  rewrite Hcheck. cbn [PA_CHECK bind]. rewrite Hidx.
  split; intros Hflag.
  - destruct (Hnull Hflag) as [h' Htake]. rewrite Htake. cbn. eauto.
  - rewrite (Hcrash Hflag). reflexivity.
Qed.
End AllocationPaths.

(** ** Allocation *)

Lemma write_bytes_outside (bs : list Z) (m : Z -> Z) (dst a : Z) :
  a < dst \/ dst + Z.of_nat (length bs) <= a ->
  write_bytes m dst bs a = m a.
Proof.
  revert m dst. induction bs as [|x bs IH]; intros m dst Ha; [reflexivity|].
  cbn [write_bytes length] in *. rewrite IH by lia.
  unfold update. destruct (Z.eqb_spec a dst); [lia | reflexivity].
Qed.

Lemma memset_inside (m : Z -> Z) (dst v n a : Z) :
  dst <= a < dst + n -> memset m dst v n a = v.
Proof.
  intros Ha. unfold memset.
  destruct (Z.leb_spec dst a); [|lia]. destruct (Z.ltb_spec a (dst + n)); [|lia].
  reflexivity.
Qed.

Lemma allocation_returns_no_hooks (C : Collaborators) (b : Build) (this flags n : Z)
    (h : Heap) (p : Z) (h' : Heap) :
  allocation_returns C b this flags n h p h' ->
  AllocFlagsNoHooks C b this flags n h = Returns (p, h').
Proof.
  intros [H | (Hm & Hh & H)]; [exact H|].
  unfold AllocFlags in H. do 3 apply PA_DCHECK_bind in H.
  rewrite Hm, Hh in H.
  destruct (AllocFlagsNoHooks C b this flags n h) as [[ret h2]|]; [|discriminate].
  exact H.
Qed.

Lemma returns_pointer_of (o : outcome (Z * Heap)) (p : Z) (h : Heap) :
  pointer_of o = Some p -> o = Returns (p, heap_after o h).
Proof.
  destruct o as [[q h']|]; cbn; intros H; inversion H; reflexivity.
Qed.

Lemma Returns_triple {A B D : Type} (a a' : A) (b b' : B) (d d' : D) :
  Returns (a, b, d) = Returns (a', b', d') -> a' = a /\ b' = b /\ d' = d.
Proof. intros H. inversion H. auto. Qed.

Lemma direct_mapping_spec (b : Build) :
  build_ok b = true ->
  direct_map_slot + MaxDirectMapped b + kMaxBucketed <= size_max_plus_1 b ->
  CollaboratorsSpec (direct_mapping b) b.
Proof.
  intros Hbuild Hroom.
  pose proof (build_ok_MaxDirectMapped b Hbuild) as Hmax.
  constructor.
  - intros this h tcache h0 idx ret u h1 Hok Hwtc Ht Hg.
    unfold thread_cache_for in Ht.
    cbn [ThreadCacheGet ThreadCacheCreate direct_mapping Z.eqb] in Ht.
    apply pair_equal_spec in Ht as [<- <-].
    cbn [GetFromCache direct_mapping] in Hg. unfold checked_cache_get in Hg.
    set (h0 := set_root _ this _) in *.
    assert (Hr0 : roots h0 this
                  = set_with_thread_cache
                      (set_with_thread_cache (roots h this) false) true)
      by (subst h0; rewrite !roots_set_root; reflexivity).
    assert (Hok0 : heap_ok b this h0 = true)
      by (subst h0; rewrite !heap_ok_thread_cache; exact Hok).
    assert (Hcfg0 : same_config (roots h this) (roots h0 this))
      by (rewrite Hr0; unfold same_config; cbn; auto).
    cbv zeta in Hg.
    match type of Hg with
    | (if ?c then _ else _) = _ => destruct c eqn:Hc
    end.
    + apply pair_equal_spec in Hg as [Hg <-].
      apply pair_equal_spec in Hg as [<- <-].
      repeat (apply andb_true_iff in Hc as [Hc ?]).
      repeat match goal with
             | X : (_ <=? _) = true |- _ => apply Z.leb_le in X
             | X : (_ <? _) = true |- _ => apply Z.ltb_lt in X
             | X : (_ =? _) = true |- _ => apply Z.eqb_eq in X
             end.
      split; [assumption|]. split; [exact Hcfg0|]. intros _.
      split; [lia|]. split; [reflexivity|].
      unfold handed_out. cbn [roots set_slot_span].
      repeat split; assumption.
    + apply pair_equal_spec in Hg as [Hg <-].
      apply pair_equal_spec in Hg as [<- <-].
      split; [exact Hok0|]. split; [exact Hcfg0 | intros E; contradiction].
  - intros this idx flags raw h ret z h' Hok Hraw _ H.
    unfold direct_mapping in H. cbn [SlowPathAlloc] in H.
    set (bp := RootBucket this idx) in *.
    destruct (root_ok_facts b _ (heap_ok_root b this h Hok)) as (_ & Hoff & Hext & _).
    destruct (Z.ltb_spec (MaxDirectMapped b) raw) as [Hbig | Hfits].
    + destruct (has_flag flags PartitionAllocReturnNull); [|discriminate].
      inversion H; subst. split; [apply same_config_refl | intros E; contradiction].
    + apply Returns_triple in H as (Hret & Hz & Hh'). subst ret z h'. cbn [roots].
      split; [apply same_config_refl|]. intros _.
      assert (Hin : forall a, direct_map_slot <= a
                              < direct_map_slot + MaxDirectMapped b + kMaxBucketed ->
                    (if (direct_map_slot <=? a)
                        && (a <? direct_map_slot + MaxDirectMapped b + kMaxBucketed)
                     then direct_map_span else span_of h a) = direct_map_span).
      { intros a Ha.
        destruct (Z.leb_spec direct_map_slot a); [|lia].
        destruct (Z.ltb_spec a (direct_map_slot + MaxDirectMapped b + kMaxBucketed));
          [reflexivity | lia]. }
      assert (Hutil : forall sp_of,
                 GetUtilizedSlotSize
                   (mkHeap (roots h)
                           (update (slot_spans h) direct_map_span
                                   (mkSlotSpan 0 1 bp (Some raw)))
                           (extent_buckets h)
                           (update (extent_root h)
                                   (Z.land direct_map_span (SystemPageBaseMask b)) this)
                           sp_of (memset (mem h) direct_map_slot 0 raw) (trace h))
                   direct_map_span = raw).
      { intros sp_of. unfold GetUtilizedSlotSize. cbn [slot_spans].
        unfold update. rewrite Z.eqb_refl. reflexivity. }
      unfold FromPointer. cbn [span_of].
      rewrite Hin by (unfold direct_map_slot, kMaxBucketed in *; lia).
      rewrite Hutil.
      split; [lia|]. split.
      * unfold handed_out. cbn [roots span_of].
        split; [reflexivity|].
        split; [unfold is_size_t, kMaxBucketed in *; lia|].
        assert (Hadj : AdjustPointerForExtrasAdd b (roots h this) direct_map_slot
                       = direct_map_slot + extras_offset (roots h this)).
        { unfold AdjustPointerForExtrasAdd, to_size_t. apply Z.mod_small.
          unfold direct_map_slot, kMaxBucketed in *. lia. }
        rewrite Hadj, Hin by (unfold kMaxBucketed in *; lia).
        split; [|apply Hutil].
        unfold FromSlotSpan. cbn [extent_root]. unfold update.
        rewrite Z.eqb_refl. reflexivity.
      * intros _ a Ha. cbn [mem]. apply memset_inside. exact Ha.
  - intros this flags raw h Hok Hraw Hbig.
    unfold direct_mapping. cbn [SlowPathAlloc].
    destruct (Z.ltb_spec (MaxDirectMapped b) raw) as [_ | Hfits]; [|lia].
    destruct (has_flag flags PartitionAllocReturnNull); [eauto | reflexivity].
Qed.

Lemma direct_mapping_counted : CollaboratorsSpec (direct_mapping counted_build) counted_build.
Proof. apply direct_mapping_spec; [reflexivity | vm_compute; discriminate]. Qed.

(** C4. A non-null pointer [p] returned for a request of [n] bytes has
    [GetUsableSize(p) >= n]: the utilized size of its slot is at least the
    raw size (the request, or [1] for a counted empty request, plus the
    extras), and [GetUsableSize] is that utilized size minus the extras. *)
Theorem GetUsableSize_covers_request (C : Collaborators) (b : Build)
    (this flags n : Z) (h : Heap) (p : Z) (h' : Heap) :
  build_ok b = true -> CollaboratorsSpec C b ->
  heap_ok b this h = true -> is_size_t b n ->
  allocation_returns C b this flags n h p h' -> p <> 0 ->
  let utilized := GetUtilizedSlotSize h' (FromPointerNoAlignmentCheck h' p) in
  n <= GetUsableSize b h' p /\
  initial_raw_size b n + extras_size (roots h' this) <= utilized /\
  GetUsableSize b h' p = utilized - extras_size (roots h' this).
Proof.
  intros Hbuild Hspec Hok Hn Hret Hp. cbv zeta.
  apply allocation_returns_no_hooks in Hret.
  destruct (table_exists b (build_ok_supported b Hbuild)) as [lk Hlk].
  destruct (allocation_layout C b lk Hbuild Hspec Hlk this flags n h p h' Hok Hn Hret Hp)
    as (ret & u & z & h1 & _ & _ & _ & _ & Hcover & _ & _ & (Hes & _) & Hutil & Huse).
  pose proof (initial_raw_size_range b Hbuild n Hn).
  rewrite Hutil, Huse, Hes. lia.
Qed.

Lemma GetUsableSize_covers_request_witness :
  100 <= GetUsableSize counted_build (cached_alloc_heap 100) (sample_slot + 16) /\
  initial_raw_size counted_build 100
  + extras_size (roots (cached_alloc_heap 100) sample_this)
  <= GetUtilizedSlotSize (cached_alloc_heap 100)
       (FromPointerNoAlignmentCheck (cached_alloc_heap 100) (sample_slot + 16)) /\
  GetUsableSize counted_build (cached_alloc_heap 100) (sample_slot + 16)
  = GetUtilizedSlotSize (cached_alloc_heap 100)
      (FromPointerNoAlignmentCheck (cached_alloc_heap 100) (sample_slot + 16))
    - extras_size (roots (cached_alloc_heap 100) sample_this).
Proof.
  apply (GetUsableSize_covers_request (direct_mapping counted_build) counted_build
           sample_this 0 100 cached_heap).
  - reflexivity.
  - apply direct_mapping_counted.
  - vm_compute. reflexivity.
  - vm_compute. split; [discriminate | reflexivity].
  - left. apply returns_pointer_of. vm_compute. reflexivity.
  - vm_compute. discriminate.
Defined.

(** C10. With the reference count compiled in, a request of zero bytes is
    raised to a raw size of [1] before the extras are added, and the pointer
    returned for it lies strictly inside its slot: at the offset of the
    extras from the slot's start, before the end of the utilized part of the
    slot. *)
Theorem zero_size_pointer_inside_slot (C : Collaborators) (b : Build)
    (this flags : Z) (h : Heap) (p : Z) (h' : Heap) :
  build_ok b = true -> CollaboratorsSpec C b ->
  heap_ok b this h = true ->
  ENABLE_REF_COUNT_FOR_BACKUP_REF_PTR b = true ->
  allocation_returns C b this flags 0 h p h' -> p <> 0 ->
  let slot_start := AdjustPointerForExtrasSubtract b (roots h' this) p in
  let utilized := GetUtilizedSlotSize h' (FromPointerNoAlignmentCheck h' p) in
  initial_raw_size b 0 = 1 /\
  1 + extras_size (roots h' this) <= utilized /\
  p = slot_start + extras_offset (roots h' this) /\
  slot_start <= p < slot_start + utilized.
Proof.
  intros Hbuild Hspec Hok Hrc Hret Hp. cbv zeta.
  apply allocation_returns_no_hooks in Hret.
  pose proof (size_max_pos b (build_ok_supported b Hbuild)) as Hmax.
  assert (Hn : is_size_t b 0) by (unfold is_size_t; lia).
  destruct (table_exists b (build_ok_supported b Hbuild)) as [lk Hlk].
  destruct (allocation_layout C b lk Hbuild Hspec Hlk this flags 0 h p h' Hok Hn Hret Hp)
    as (ret & u & z & h1 & _ & _ & Hpos & Hfit & Hcover & Hptr & _ & (Hes & Heo & _)
        & Hutil & _).
  destruct (root_ok_facts b _ (heap_ok_root b this h Hok)) as (_ & Hoff & _ & _).
  assert (Hone : initial_raw_size b 0 = 1)
    by (unfold initial_raw_size; rewrite Hrc; reflexivity).
  rewrite Hone in Hcover.
  assert (Hstart : AdjustPointerForExtrasSubtract b (roots h' this) p = ret).
  { unfold AdjustPointerForExtrasSubtract, to_size_t. rewrite Heo, Hptr.
    replace (ret + extras_offset (roots h this) - extras_offset (roots h this))
      with ret by lia.
    apply Z.mod_small. lia. }
  rewrite Hstart, Hutil, Hes, Heo.
  repeat split; lia.
Qed.

Lemma zero_size_pointer_inside_slot_witness :
  initial_raw_size counted_build 0 = 1 /\
  1 + extras_size (roots (sample_alloc_heap 0 0 8) sample_this)
  <= GetUtilizedSlotSize (sample_alloc_heap 0 0 8)
       (FromPointerNoAlignmentCheck (sample_alloc_heap 0 0 8) (sample_slot + 16)) /\
  sample_slot + 16
  = AdjustPointerForExtrasSubtract counted_build
      (roots (sample_alloc_heap 0 0 8) sample_this) (sample_slot + 16)
    + extras_offset (roots (sample_alloc_heap 0 0 8) sample_this) /\
  AdjustPointerForExtrasSubtract counted_build
    (roots (sample_alloc_heap 0 0 8) sample_this) (sample_slot + 16)
  <= sample_slot + 16
  < AdjustPointerForExtrasSubtract counted_build
      (roots (sample_alloc_heap 0 0 8) sample_this) (sample_slot + 16)
    + GetUtilizedSlotSize (sample_alloc_heap 0 0 8)
        (FromPointerNoAlignmentCheck (sample_alloc_heap 0 0 8) (sample_slot + 16)).
Proof.
  apply (zero_size_pointer_inside_slot (direct_mapping counted_build) counted_build sample_this 0
           (counted_heap 8)).
  - reflexivity.
  - apply direct_mapping_counted.
  - vm_compute. reflexivity.
  - reflexivity.
  - left. apply returns_pointer_of. vm_compute. reflexivity.
  - vm_compute. discriminate.
Defined.

(** Under [ZeroFill] the tail of the allocation leaves the usable region
    zero, provided a region reported as already zeroed is. *)
Lemma set_up_slot_zero (b : Build) (this flags raw ret u : Z) (z : bool) (h1 : Heap)
    (a : Z) :
  has_flag flags PartitionAllocZeroFill = true ->
  let r := roots h1 this in
  let p := AdjustPointerForExtrasAdd b r ret in
  let usable := AdjustSizeForExtrasSubtract b r u in
  (ENABLE_REF_COUNT_FOR_BACKUP_REF_PTR b = true -> allow_ref_count r = true ->
   ret + kRefCountSize b <= p) ->
  (z = true -> forall a', p <= a' < p + usable -> mem h1 a' = 0) ->
  p <= a < p + usable ->
  mem (snd (set_up_slot b this flags raw ret u z h1)) a = 0.
Proof.
  intros Hflag r p usable Hrc Hzero Ha.
  unfold set_up_slot. cbv zeta. fold r. fold p. fold usable. cbn [snd].
  set (h2 := if DCHECK_IS_ON b && allow_cookies r
             then PartitionCookieWriteValue b
                    (PartitionCookieWriteValue b h1 (p - kCookieSize b)) (p + usable)
             else h1).
  assert (H2 : mem h2 a = mem h1 a).
  { subst h2. destruct (DCHECK_IS_ON b && allow_cookies r); [|reflexivity].
    unfold PartitionCookieWriteValue. cbn [mem set_mem].
    rewrite !write_bytes_outside; [reflexivity | |]; unfold kCookieSize; lia. }
  set (h3 := fill_region b flags z p usable h2).
  assert (H3 : mem h3 a = 0).
  { subst h3. unfold fill_region. rewrite Hflag. cbn [negb].
    destruct z; cbn [negb].
    - rewrite H2. apply Hzero; [reflexivity | exact Ha].
    - cbn [mem set_mem]. apply memset_inside. exact Ha. }
  destruct (ENABLE_REF_COUNT_FOR_BACKUP_REF_PTR b) eqn:He; [|exact H3].
  destruct (allow_ref_count r) eqn:Hr; cbn [andb]; [|exact H3].
  destruct (negb (raw >? kMaxBucketed)); [|exact H3].
  unfold PartitionRefCountConstruct, PartitionRefCountPointer. cbn [mem set_mem].
  rewrite write_bytes_outside; [exact H3|].
  specialize (Hrc eq_refl eq_refl). unfold kRefCountSize in Hrc. lia.
Qed.

(** C5. An allocation with [ZeroFill] that returns a non-null pointer [p]
    leaves every byte of [[p, p + GetUsableSize(p))] zero; the [memset] to
    zero is left out exactly when the allocation path reported the slot as
    already zeroed. *)
Theorem ZeroFill_region_is_zero (C : Collaborators) (b : Build)
    (this flags n : Z) (h : Heap) (p : Z) (h' : Heap) :
  build_ok b = true -> CollaboratorsSpec C b ->
  heap_ok b this h = true -> is_size_t b n ->
  has_flag flags PartitionAllocZeroFill = true ->
  allocation_returns C b this flags n h p h' -> p <> 0 ->
  (forall a, p <= a < p + GetUsableSize b h' p -> mem h' a = 0) /\
  (forall (is_already_zeroed : bool) ret usable_size h0,
     fill_region b flags is_already_zeroed ret usable_size h0 =
     if is_already_zeroed then h0
     else set_mem h0 (memset (mem h0) ret 0 usable_size)).
Proof.
  intros Hbuild Hspec Hok Hn Hflag Hret Hp.
  split.
  2:{ intros z ret usable h0. unfold fill_region. rewrite Hflag.
      destruct z; reflexivity. }
  apply allocation_returns_no_hooks in Hret.
  pose proof (size_max_pos b (build_ok_supported b Hbuild)) as Hmax.
  destruct (table_exists b (build_ok_supported b Hbuild)) as [lk Hlk].
  destruct (allocation_layout C b lk Hbuild Hspec Hlk this flags n h p h' Hok Hn Hret Hp)
    as (ret & u & z & h1 & Hres & Hset & Hpos & Hfit & Hcover & Hptr & Hplt & _ & _ & Huse).
  destruct (root_ok_facts b _ (heap_ok_root b this h Hok)) as (_ & Hoff & _ & Hcount).
  pose proof (initial_raw_size_range b Hbuild n Hn) as Hn0.
  destruct Hres as [(Hes & Heo & Harc & _) Hslot].
  destruct (Hslot ltac:(lia)) as (_ & _ & Hzero).
  assert (Hp1 : AdjustPointerForExtrasAdd b (roots h1 this) ret = p).
  { unfold AdjustPointerForExtrasAdd, to_size_t. rewrite Heo, Hptr.
    apply Z.mod_small. unfold is_size_t in *. lia. }
  assert (Hu1 : AdjustSizeForExtrasSubtract b (roots h1 this) u
                = u - extras_size (roots h this)).
  { unfold AdjustSizeForExtrasSubtract, to_size_t. rewrite Hes.
    apply Z.mod_small. unfold is_size_t in *. lia. }
  intros a Ha. rewrite Huse in Ha.
  replace h' with (snd (set_up_slot b this flags
                          (initial_raw_size b n + extras_size (roots h this))
                          ret u z h1))
    by (rewrite Hset; reflexivity).
  apply set_up_slot_zero; rewrite ?Hp1, ?Hu1.
  - exact Hflag.
  - intros He Ha1. rewrite Harc in Ha1. specialize (Hcount He Ha1). lia.
  - intros Hz a' Ha'. apply (Hzero Hz). lia.
  - exact Ha.
Qed.

Lemma ZeroFill_region_is_zero_witness :
  (forall a,
     direct_map_slot + 16 <= a
     < direct_map_slot + 16
       + GetUsableSize counted_build (sample_alloc_heap PartitionAllocZeroFill 100 8)
           (direct_map_slot + 16) ->
     mem (sample_alloc_heap PartitionAllocZeroFill 100 8) a = 0) /\
  (forall (is_already_zeroed : bool) ret usable_size h0,
     fill_region counted_build PartitionAllocZeroFill is_already_zeroed ret usable_size h0
     = if is_already_zeroed then h0
       else set_mem h0 (memset (mem h0) ret 0 usable_size)).
Proof.
  apply (ZeroFill_region_is_zero (direct_mapping counted_build) counted_build sample_this
           PartitionAllocZeroFill 100 (counted_heap 8)).
  - reflexivity.
  - apply direct_mapping_counted.
  - vm_compute. reflexivity.
  - vm_compute. split; [discriminate | reflexivity].
  - reflexivity.
  - left. apply returns_pointer_of. vm_compute. reflexivity.
  - vm_compute. discriminate.
Defined.

(** C7 (as the code has it). When [raw_size = size + extras] overflows,
    [PA_CHECK(raw_size >= requested_size)] ends the process whether or not
    [ReturnNull] is set.  When the sum does not overflow and the size
    exceeds [MaxDirectMapped], the call returns [nullptr] under [ReturnNull]
    and ends the process otherwise; so does
    [CHECK_MAX_SIZE_OR_RETURN_NULLPTR].  In no case is a non-null pointer
    returned or a wrapped size used. *)
Theorem request_too_large (C : Collaborators) (b : Build)
    (this flags n : Z) (h : Heap) :
  build_ok b = true -> CollaboratorsSpec C b ->
  heap_ok b this h = true -> is_size_t b n ->
  (size_max_plus_1 b <= initial_raw_size b n + extras_size (roots h this) ->
   AllocFlagsNoHooks C b this flags n h = Crashes) /\
  (initial_raw_size b n + extras_size (roots h this) < size_max_plus_1 b ->
   MaxDirectMapped b < n ->
   (has_flag flags PartitionAllocReturnNull = true ->
    exists h', AllocFlagsNoHooks C b this flags n h = Returns (0, h')) /\
   (has_flag flags PartitionAllocReturnNull = false ->
    AllocFlagsNoHooks C b this flags n h = Crashes)) /\
  (MaxDirectMapped b < n ->
   forall rest,
     CHECK_MAX_SIZE_OR_RETURN_NULLPTR b n flags h rest =
     if has_flag flags PartitionAllocReturnNull then Returns (0, h) else Crashes).
Proof.
  intros Hbuild Hspec Hok Hn.
  destruct (table_exists b (build_ok_supported b Hbuild)) as [lk Hlk].
  split; [|split].
  - apply (AllocFlagsNoHooks_overflow C b Hbuild); assumption.
  - apply (AllocFlagsNoHooks_too_large C b lk Hbuild Hspec Hlk); assumption.
  - intros Hbig rest. unfold CHECK_MAX_SIZE_OR_RETURN_NULLPTR.
    destruct (Z.gtb_spec n (MaxDirectMapped b)); [reflexivity | lia].
Qed.

Lemma request_too_large_witness :
  (size_max_plus_1 counted_build
   <= initial_raw_size counted_build (2 ^ 31 + 4097)
      + extras_size (roots (counted_heap 8) sample_this) ->
   sample_alloc PartitionAllocReturnNull (2 ^ 31 + 4097) 8 = Crashes) /\
  (initial_raw_size counted_build (2 ^ 31 + 4097)
   + extras_size (roots (counted_heap 8) sample_this) < size_max_plus_1 counted_build ->
   MaxDirectMapped counted_build < 2 ^ 31 + 4097 ->
   (has_flag PartitionAllocReturnNull PartitionAllocReturnNull = true ->
    exists h', sample_alloc PartitionAllocReturnNull (2 ^ 31 + 4097) 8 = Returns (0, h')) /\
   (has_flag PartitionAllocReturnNull PartitionAllocReturnNull = false ->
    sample_alloc PartitionAllocReturnNull (2 ^ 31 + 4097) 8 = Crashes)) /\
  (MaxDirectMapped counted_build < 2 ^ 31 + 4097 ->
   forall rest,
     CHECK_MAX_SIZE_OR_RETURN_NULLPTR counted_build (2 ^ 31 + 4097)
       PartitionAllocReturnNull (counted_heap 8) rest =
     if has_flag PartitionAllocReturnNull PartitionAllocReturnNull
     then Returns (0, counted_heap 8) else Crashes).
Proof.
  apply (request_too_large (direct_mapping counted_build) counted_build sample_this
           PartitionAllocReturnNull (2 ^ 31 + 4097) (counted_heap 8)).
  - reflexivity.
  - apply direct_mapping_counted.
  - vm_compute. reflexivity.
  - vm_compute. split; [discriminate | reflexivity].
Defined.

(** C7 as stated fails when the sum overflows: with [ReturnNull] set, a
    request of [2^64 - 1] bytes on a root with 16 bytes of extras ends the
    process instead of returning [nullptr]. *)
Lemma overflow_crashes_under_ReturnNull :
  has_flag PartitionAllocReturnNull PartitionAllocReturnNull = true /\
  extras_size (roots (counted_heap 8) sample_this) = 16 /\
  sample_alloc PartitionAllocReturnNull (2 ^ 64 - 1) 8 = Crashes /\
  ~ (exists h', sample_alloc PartitionAllocReturnNull (2 ^ 64 - 1) 8 = Returns (0, h')).
Proof.
  assert (H : sample_alloc PartitionAllocReturnNull (2 ^ 64 - 1) 8 = Crashes)
    by (vm_compute; reflexivity).
  repeat split; try exact H.
  intros [h' E]. rewrite H in E. discriminate E.
Qed.

(** The sample runs take the three ways to a slot: the thread cache's bin
    (emptied by the hit), the free list of the bucket's active span, and,
    for 2,000,000 bytes, a mapping of its own whose usable size is the
    request. *)
Example cached_alloc_takes_the_bin :
  pointer_of (cached_alloc 100) = Some (sample_slot + 16) /\
  freelist_head (slot_spans (cached_alloc_heap 100) thread_cache_bin) = 0 /\
  GetUsableSize counted_build (cached_alloc_heap 100) (sample_slot + 16) = 112.
Proof. vm_compute. repeat split. Qed.

Example free_list_alloc_takes_the_head :
  pointer_of (sample_alloc 0 100 24) = Some (sample_slot + 16) /\
  freelist_head (slot_spans (sample_alloc_heap 0 100 24) sample_span) = 0.
Proof. vm_compute. repeat split. Qed.

Example direct_mapped_alloc_usable_size :
  pointer_of (sample_alloc 0 2000000 8) = Some (direct_map_slot + 16) /\
  GetUsableSize counted_build (sample_alloc_heap 0 2000000 8) (direct_map_slot + 16)
  = 2000000.
Proof. vm_compute. repeat split. Qed.

(** ** Aligned allocation *)

Lemma leading_zeros_zero (w : nat) : leading_zeros w 0 = Z.of_nat w.
Proof.
  induction w as [|w IH]; [reflexivity|].
  cbn [leading_zeros]. rewrite Z.testbit_0_l, IH. lia.
Qed.

Lemma IsPowerOfTwo_pow2 (x : Z) :
  IsPowerOfTwo x = true -> 0 < x /\ x = 2 ^ Z.log2 x.
Proof.
  unfold IsPowerOfTwo. intros H. apply andb_true_iff in H as [H1 H2].
  apply Z.ltb_lt in H1. apply Z.eqb_eq in H2. auto.
Qed.

(** The size passed on is the alignment for a smaller size, and otherwise
    [2 ^ ceil(log2 size)] reduced to a [size_t]. *)
Lemma aligned_request_size_pow2 (b : Build) (alignment size : Z) :
  supported b = true -> 0 < alignment <= size -> size < size_max_plus_1 b ->
  aligned_request_size b alignment size = to_size_t b (2 ^ Z.log2_up size).
Proof.
  intros Hs Ha Hsize.
  assert (Hb : 0 <= kBitsPerSizeT b) by (destruct (supported_bits b Hs); lia).
  unfold aligned_request_size.
  destruct (Z.ltb_spec size alignment); [lia|].
  assert (Hpred : to_size_t b (size - 1) = size - 1)
    by (apply Z.mod_small; lia).
  rewrite Hpred. f_equal.
  destruct (Z.eq_dec size 1) as [-> | Hne].
  - unfold CountLeadingZeroBitsSizeT. cbn [Z.sub Z.add Z.opp Z.pos_sub].
    rewrite leading_zeros_zero, Z2Nat.id by exact Hb.
    rewrite Z.sub_diag. reflexivity.
  - fold (order_of b (size - 1)).
    rewrite order_of_log2 by (assumption || lia).
    rewrite Z.shiftl_1_l. f_equal.
    rewrite Z.log2_up_eqn by lia. unfold Z.succ, Z.pred. reflexivity.
Qed.

(** C6. A pointer returned by [AlignedAllocFlags(flags, alignment, size)]
    is a multiple of [alignment], which is a power of two.  A non-null one
    comes from the allocator proper ([AllocFlagsNoHooks] under [NoHooks],
    [Alloc] otherwise), asked for [alignment] bytes when [size] is smaller
    and for [size] rounded up to the next power of two otherwise. *)
Theorem AlignedAllocFlags_aligned (C : Collaborators) (b : Build)
    (this flags alignment size : Z) (h : Heap) (p : Z) (h' : Heap) :
  supported b = true -> is_size_t b size ->
  AlignedAllocFlags C b this flags alignment size h = Returns (p, h') ->
  IsPowerOfTwo alignment = true /\ p mod alignment = 0 /\
  (p <> 0 ->
   size <= aligned_request_size b alignment size /\
   (size < alignment -> aligned_request_size b alignment size = alignment) /\
   (alignment <= size -> aligned_request_size b alignment size = 2 ^ Z.log2_up size) /\
   (if has_flag flags PartitionAllocNoHooks
    then AllocFlagsNoHooks C b this 0 (aligned_request_size b alignment size) h
    else Alloc C b this (aligned_request_size b alignment size) h)
   = Returns (p, h')).
Proof.
  intros Hs Hsize H.
  unfold AlignedAllocFlags in H. cbv zeta in H.
  apply PA_DCHECK_bind in H. apply PA_CHECK_bind in H as [Hpow H].
  split; [exact Hpow|].
  destruct (IsPowerOfTwo_pow2 alignment Hpow) as [Hpos Hal].
  pose proof (Z.log2_nonneg alignment) as Hk.
  destruct (Z.ltb_spec (aligned_request_size b alignment size) size) as [Hlt | Hge].
  - destruct (has_flag flags PartitionAllocReturnNull); [|discriminate].
    inversion H; subst. split; [apply Zmod_0_l | intros E; contradiction].
  - apply bind_Returns in H as [[ptr h1] [Hcall H]].
    apply PA_CHECK_bind in H as [Hmask H]. inversion H; subst. clear H.
    apply Z.eqb_eq in Hmask.
    split.
    + rewrite Hal. rewrite Hal in Hmask.
      rewrite Z.sub_1_r, <- Z.ones_equiv, Z.land_ones in Hmask by exact Hk.
      exact Hmask.
    + intros _. split; [exact Hge|]. split; [|split; [|exact Hcall]].
      * intros Hsmall. unfold aligned_request_size.
        destruct (Z.ltb_spec size alignment); [reflexivity | lia].
      * intros Hbig.
        assert (Hreq := aligned_request_size_pow2 b alignment size Hs
                          (conj Hpos Hbig) (proj2 Hsize)).
        rewrite Hreq in *.
        assert (Hb : kBitsPerSizeT b = 32 \/ kBitsPerSizeT b = 64)
          by (apply supported_bits; exact Hs).
        assert (Hup : Z.log2_up size <= kBitsPerSizeT b).
        { apply Z.log2_up_le_pow2; [lia|]. unfold is_size_t, size_max_plus_1 in Hsize.
          lia. }
        pose proof (Z.log2_up_nonneg size) as Hnn.
        destruct (Z.eq_dec (Z.log2_up size) (kBitsPerSizeT b)) as [E | E].
        -- exfalso. rewrite E in Hge. unfold to_size_t, size_max_plus_1 in Hge.
           rewrite Z.mod_same in Hge by (destruct Hb as [-> | ->]; discriminate).
           lia.
        -- apply Z.mod_small. split; [apply Z.pow_nonneg; lia|].
           unfold size_max_plus_1. apply Z.pow_lt_mono_r; lia.
Qed.

Lemma AlignedAllocFlags_aligned_witness :
  IsPowerOfTwo 64 = true /\ sample_slot mod 64 = 0 /\
  (sample_slot <> 0 ->
   16 <= aligned_request_size plain_build 64 16 /\
   (16 < 64 -> aligned_request_size plain_build 64 16 = 64) /\
   (64 <= 16 -> aligned_request_size plain_build 64 16 = 2 ^ Z.log2_up 16) /\
   (if has_flag 0 PartitionAllocNoHooks
    then AllocFlagsNoHooks (direct_mapping plain_build) plain_build sample_this 0
           (aligned_request_size plain_build 64 16) aligned_heap
    else Alloc (direct_mapping plain_build) plain_build sample_this
           (aligned_request_size plain_build 64 16) aligned_heap)
   = Returns (sample_slot, heap_after sample_aligned_alloc aligned_heap)).
Proof.
  apply (AlignedAllocFlags_aligned (direct_mapping plain_build) plain_build sample_this 0 64 16 aligned_heap).
  - reflexivity.
  - vm_compute. split; [discriminate | reflexivity].
  - apply returns_pointer_of. vm_compute. reflexivity.
Defined.

(** ** Freeing *)

(** C8. [Free(nullptr)] and [FreeNoHooks(nullptr)] return at once: the
    heap, with the record of the calls made to hooks and other
    collaborators, is the one they were given, whatever the collaborators
    and whatever the metadata a lookup would have found.  (Where a memory
    tool replaces the allocator, [Free] is the C library's [free] for every
    pointer.) *)
Theorem Free_nullptr_is_noop (C : Collaborators) (b : Build) (h : Heap) :
  FreeNoHooks C b 0 h = Returns h /\
  (MEMORY_TOOL_REPLACES_ALLOCATOR b = false -> Free C b 0 h = Returns h) /\
  (MEMORY_TOOL_REPLACES_ALLOCATOR b = true ->
   forall ptr, Free C b ptr h = Returns (libc_free C ptr (record (EvLibcFree ptr) h))).
Proof.
  unfold Free, FreeNoHooks. split; [reflexivity|].
  split; intros Hm; rewrite Hm; reflexivity.
Qed.

(** ** The integrity token *)

Lemma bitwise_not_small (p : Platform) (x : Z) :
  is_size_t p x -> bitwise_not p x = size_max_plus_1 p - 1 - x.
Proof.
  intros Hx. unfold bitwise_not, to_size_t, is_size_t in *.
  symmetry. apply (Z.mod_unique_pos _ _ (-1)); [lia|].
  pose proof (Z.add_lnot_diag x). lia.
Qed.

Lemma list_Z_eqb_refl (l : list Z) : list_Z_eqb l l = true.
Proof. induction l as [|x l IH]; cbn; [reflexivity | rewrite Z.eqb_refl; exact IH]. Qed.

(** [Init] establishes the static part of the invariant, provided the
    extras leave room in a bucketed slot. *)
Lemma Init_root_ok (b : Build) (this : Z) (opts : PartitionOptions) (h : Heap) :
  initialized (roots h this) = false ->
  kRefCountSize b + 2 * kCookieSize b < kMaxBucketed ->
  root_ok b (roots (Init b this opts h) this) = true.
Proof.
  intros Hinit Hroom. unfold Init. rewrite Hinit, roots_set_root.
  unfold root_ok.
  cbn [buckets extras_offset extras_size allow_ref_count].
  rewrite map_map. cbn [slot_size]. rewrite map_id, list_Z_eqb_refl.
  assert (Hc : 0 <= kCookieSize b) by (unfold kCookieSize; lia).
  assert (Hr : 0 <= kRefCountSize b) by (unfold kRefCountSize; lia).
  destruct (DCHECK_IS_ON b), (ENABLE_REF_COUNT_FOR_BACKUP_REF_PTR b),
    (alignment opts), (ref_count opts); cbn [andb negb orb];
    repeat (apply andb_true_iff; split);
    try reflexivity;
    try (apply Z.leb_le; lia); try (apply Z.ltb_lt; unfold kMaxBucketed in *; lia).
Qed.

(** ** The integrity invariant is kept *)

Lemma integrity_same_roots (b : Build) (h h' : Heap) :
  roots h' = roots h -> root_integrity b h -> root_integrity b h'.
Proof. intros E H root. rewrite E. apply H. Qed.

Lemma integrity_set_root (b : Build) (h : Heap) (this : Z) (r : PartitionRoot) :
  initialized r = initialized (roots h this) ->
  inverted_self r = inverted_self (roots h this) ->
  root_integrity b h -> root_integrity b (set_root h this r).
Proof.
  intros Hi Hs H root. unfold set_root, update. cbn [roots].
  destruct (Z.eqb_spec root this) as [-> | _]; [|apply H].
  rewrite Hi, Hs. apply H.
Qed.

Lemma integrity_start (b : Build) (h : Heap) :
  (forall root, initialized (roots h root) = false) -> root_integrity b h.
Proof. intros H root Hr. rewrite H in Hr. discriminate. Qed.

Lemma Init_keeps_integrity (b : Build) (this : Z) (opts : PartitionOptions) (h : Heap) :
  root_integrity b h -> root_integrity b (Init b this opts h).
Proof.
  intros H. unfold Init.
  destruct (initialized (roots h this)); [exact H|].
  intros root. unfold set_root, update. cbn [roots].
  destruct (Z.eqb_spec root this) as [-> | _]; [|apply H].
  intros _. reflexivity.
Qed.

Lemma Init_initializes (b : Build) (this : Z) (opts : PartitionOptions) (h : Heap) :
  initialized (roots (Init b this opts h) this) = true.
Proof.
  unfold Init. destruct (initialized (roots h this)) eqn:E; [exact E|].
  rewrite roots_set_root. reflexivity.
Qed.

Section Integrity.
Variable C : Collaborators.
Variable b : Build.
Hypothesis Hkeep : KeepsIntegrity C b.

Lemma AllocFromBucket_keeps (this : Z) (bp : BucketPtr) (flags raw : Z) (h : Heap)
    (ret u : Z) (z : bool) (h' : Heap) :
  AllocFromBucket C b this bp flags raw h = Returns (ret, u, z, h') ->
  root_integrity b h -> root_integrity b h'.
Proof.
  unfold AllocFromBucket. intros H Hi.
  do 2 apply PA_DCHECK_bind in H.
  destruct (negb (freelist_head (slot_spans h (active_slot_spans_head (load_bucket h bp)))
                  =? 0)).
  - do 4 apply PA_DCHECK_bind in H. inversion H; subst. exact Hi.
  - apply bind_Returns in H as [[[ret0 z0] h0] [Hslow H]].
    apply PA_DCHECK_bind in H.
    pose proof (keeps_SlowPathAlloc C b Hkeep _ _ _ _ _ _ _ _ Hslow Hi) as Hi0.
    destruct (ret0 =? 0).
    + inversion H; subst. exact Hi0.
    + apply PA_DCHECK_bind in H. inversion H; subst. exact Hi0.
Qed.

Lemma thread_cache_for_keeps (this : Z) (h : Heap) :
  root_integrity b h -> root_integrity b (snd (thread_cache_for C this h)).
Proof.
  intros Hi. unfold thread_cache_for.
  destruct (ThreadCacheGet C h =? 0); [|exact Hi].
  pose proof (keeps_ThreadCacheCreate C b Hkeep this
                (set_root h this (set_with_thread_cache (roots h this) false))
                (integrity_set_root b h this (set_with_thread_cache (roots h this) false)
                   eq_refl eq_refl Hi)) as Hc.
  destruct (ThreadCacheCreate C this _) as [tc hc]. cbn [snd] in *.
  apply integrity_set_root; [reflexivity | reflexivity | exact Hc].
Qed.

Lemma take_slot_keeps (this flags idx raw : Z) (h : Heap)
    (ret u : Z) (z : bool) (h' : Heap) :
  take_slot C b this flags idx raw h = Returns (ret, u, z, h') ->
  root_integrity b h -> root_integrity b h'.
Proof.
  unfold take_slot, RawAlloc. intros H Hi.
  destruct (is_thread_safe (roots h this) && with_thread_cache (roots h this));
    [|eapply AllocFromBucket_keeps; eassumption].
  pose proof (thread_cache_for_keeps this h Hi) as H0.
  destruct (thread_cache_for C this h) as [tcache h0]. cbn [snd] in H0.
  pose proof (keeps_GetFromCache C b Hkeep tcache idx h0 H0) as H1.
  destruct (GetFromCache C tcache idx h0) as [[ret0 u0] h1]. cbn [snd] in H1.
  apply bind_Returns in H as [[] [_ H]].
  destruct (ret0 =? 0).
  - eapply AllocFromBucket_keeps; eassumption.
  - inversion H; subst. exact H1.
Qed.

Lemma AllocFlagsNoHooks_keeps (this flags n : Z) (h : Heap) (p : Z) (h' : Heap) :
  AllocFlagsNoHooks C b this flags n h = Returns (p, h') ->
  root_integrity b h -> root_integrity b h'.
Proof.
  unfold AllocFlagsNoHooks. intros H Hi.
  apply bind_Returns in H as [raw [_ H]].
  apply PA_CHECK_bind in H as [_ H].
  destruct (SizeToBucketIndex b raw) as [idx|]; [|discriminate].
  apply bind_Returns in H as [[[[ret u] z] h1] [Htake H]].
  pose proof (take_slot_keeps _ _ _ _ _ _ _ _ _ Htake Hi) as H1.
  destruct (ret =? 0).
  - inversion H; subst. exact H1.
  - destruct (set_up_slot_frame b this flags raw ret u z h1) as [Hr _].
    destruct (set_up_slot b this flags raw ret u z h1) as [p0 h4].
    cbn [snd] in Hr. inversion H; subst.
    exact (integrity_same_roots b h1 h' Hr H1).
Qed.

Lemma AllocFlags_keeps (this flags n : Z) (h : Heap) (p : Z) (h' : Heap) :
  AllocFlags C b this flags n h = Returns (p, h') ->
  root_integrity b h -> root_integrity b h'.
Proof.
  unfold AllocFlags, CHECK_MAX_SIZE_OR_RETURN_NULLPTR. intros H Hi.
  do 3 apply PA_DCHECK_bind in H.
  destruct (MEMORY_TOOL_REPLACES_ALLOCATOR b).
  - destruct (n >? MaxDirectMapped b).
    + destruct (has_flag flags PartitionAllocReturnNull); [|discriminate].
      inversion H; subst. exact Hi.
    + destruct (has_flag flags PartitionAllocZeroFill).
      * pose proof (keeps_libc_calloc C b Hkeep 1 n (record (EvLibcAlloc true n) h) Hi)
          as H1.
        destruct (libc_calloc C 1 n _) as [result h1]. cbn [snd] in H1.
        apply PA_CHECK_bind in H as [_ H]. inversion H; subst. exact H1.
      * pose proof (keeps_libc_malloc C b Hkeep n (record (EvLibcAlloc false n) h) Hi)
          as H1.
        destruct (libc_malloc C n _) as [result h1]. cbn [snd] in H1.
        apply PA_CHECK_bind in H as [_ H]. inversion H; subst. exact H1.
  - destruct (AreHooksEnabled C h).
    + pose proof (keeps_AllocationOverrideHook C b Hkeep flags n
                    (record (EvAllocationOverrideHook flags n) h) Hi) as H1.
      destruct (AllocationOverrideHookIfEnabled C flags n _) as [[overridden ret] h1].
      cbn [snd] in H1.
      destruct overridden.
      * inversion H; subst.
        apply (keeps_AllocationObserverHook C b Hkeep). exact H1.
      * apply bind_Returns in H as [[ret2 h2] [Ha H]].
        inversion H; subst.
        apply (keeps_AllocationObserverHook C b Hkeep).
        exact (AllocFlagsNoHooks_keeps _ _ _ _ _ _ Ha H1).
    + apply bind_Returns in H as [[ret2 h2] [Ha H]].
      inversion H; subst.
      exact (AllocFlagsNoHooks_keeps _ _ _ _ _ _ Ha Hi).
Qed.

Lemma AlignedAllocFlags_keeps (this flags alignment size : Z) (h : Heap)
    (p : Z) (h' : Heap) :
  AlignedAllocFlags C b this flags alignment size h = Returns (p, h') ->
  root_integrity b h -> root_integrity b h'.
Proof.
  unfold AlignedAllocFlags, Alloc. intros H Hi.
  apply PA_DCHECK_bind in H. apply PA_CHECK_bind in H as [_ H].
  destruct (aligned_request_size b alignment size <? size).
  - destruct (has_flag flags PartitionAllocReturnNull); [|discriminate].
    inversion H; subst. exact Hi.
  - apply bind_Returns in H as [[ptr h1] [Ha H]].
    apply PA_CHECK_bind in H as [_ H]. inversion H; subst.
    destruct (has_flag flags PartitionAllocNoHooks).
    + exact (AllocFlagsNoHooks_keeps _ _ _ _ _ _ Ha Hi).
    + exact (AllocFlags_keeps _ _ _ _ _ _ Ha Hi).
Qed.

Lemma RawFree_keeps (this ptr slot_span : Z) (h h' : Heap) :
  RawFree C this ptr slot_span h = Returns h' ->
  root_integrity b h -> root_integrity b h'.
Proof.
  unfold RawFree. intros H Hi.
  apply bind_Returns in H as [[deferred_unmap h1] [Hf H]].
  inversion H; subst.
  apply (keeps_DeferredUnmapRun C b Hkeep).
  exact (keeps_SlotSpanFree C b Hkeep _ _ _ _ _ Hf Hi).
Qed.

Lemma RawFreeWithThreadCache_keeps (this ptr slot_span : Z) (h h' : Heap) :
  RawFreeWithThreadCache C b this ptr slot_span h = Returns h' ->
  root_integrity b h -> root_integrity b h'.
Proof.
  unfold RawFreeWithThreadCache. intros H Hi.
  destruct (is_thread_safe (roots h this) && _);
    [|exact (RawFree_keeps _ _ _ _ _ H Hi)].
  apply PA_DCHECK_bind in H.
  destruct (negb (ThreadCacheGet C h =? 0));
    [|exact (RawFree_keeps _ _ _ _ _ H Hi)].
  match type of H with
  | context [MaybePutInCache C ?t ?p ?i ?x] =>
      pose proof (keeps_MaybePutInCache C b Hkeep t p i x Hi) as H1;
      destruct (MaybePutInCache C t p i x) as [put h1]
  end.
  cbn [snd] in H1. destruct put.
  - inversion H; subst. exact H1.
  - exact (RawFree_keeps _ _ _ _ _ H H1).
Qed.

Lemma FreeNoHooksImmediate_keeps (this ptr slot_span : Z) (h h' : Heap) :
  FreeNoHooksImmediate C b this ptr slot_span h = Returns h' ->
  root_integrity b h -> root_integrity b h'.
Proof.
  unfold FreeNoHooksImmediate. intros H Hi.
  do 3 apply PA_DCHECK_bind in H.
  apply bind_Returns in H as [[] [_ H]].
  match type of H with
  | (let '(released, h1) := ?rel in _) = _ =>
      assert (H1 : root_integrity b (snd rel));
      [|destruct rel as [released h1]]
  end.
  { destruct (ENABLE_REF_COUNT_FOR_BACKUP_REF_PTR b && _); [|exact Hi].
    apply (keeps_ReleaseFromAllocator C b Hkeep).
    destruct (negb (HasOneRef C h _)); exact Hi. }
  cbn [snd] in H1. destruct (negb released).
  - inversion H; subst. exact H1.
  - apply RawFreeWithThreadCache_keeps in H; [exact H|].
    destruct (DCHECK_IS_ON b); exact H1.
Qed.

Lemma FreeNoHooks_keeps (ptr : Z) (h h' : Heap) :
  FreeNoHooks C b ptr h = Returns h' ->
  root_integrity b h -> root_integrity b h'.
Proof.
  unfold FreeNoHooks. intros H Hi.
  destruct (ptr =? 0); [inversion H; subst; exact Hi|].
  apply PA_DCHECK_bind in H.
  destruct (IsScanEnabled _ && _).
  - inversion H; subst. apply (keeps_MoveToQuarantine C b Hkeep). exact Hi.
  - exact (FreeNoHooksImmediate_keeps _ _ _ _ _ H Hi).
Qed.

Lemma Free_keeps (ptr : Z) (h h' : Heap) :
  Free C b ptr h = Returns h' -> root_integrity b h -> root_integrity b h'.
Proof.
  unfold Free. intros H Hi.
  destruct (MEMORY_TOOL_REPLACES_ALLOCATOR b).
  { inversion H; subst. apply (keeps_libc_free C b Hkeep). exact Hi. }
  destruct (ptr =? 0); [inversion H; subst; exact Hi|].
  destruct (AreHooksEnabled C h); [|exact (FreeNoHooks_keeps _ _ _ H Hi)].
  pose proof (keeps_FreeObserverHook C b Hkeep ptr (record (EvFreeObserverHook ptr) h) Hi)
    as H1.
  pose proof (keeps_FreeOverrideHook C b Hkeep ptr
                (record (EvFreeOverrideHook ptr)
                   (FreeObserverHookIfEnabled C ptr (record (EvFreeObserverHook ptr) h)))
                H1) as H2.
  destruct (FreeOverrideHookIfEnabled C ptr _) as [overridden h2]. cbn [snd] in H2.
  destruct overridden.
  - inversion H; subst. exact H2.
  - exact (FreeNoHooks_keeps _ _ _ H H2).
Qed.

Lemma EnablePCScan_keeps (RegisterRoot : Z -> Heap -> Heap) (this : Z) (h h' : Heap) :
  (forall x, root_integrity b x -> root_integrity b (RegisterRoot this x)) ->
  EnablePCScan RegisterRoot this h = Returns h' ->
  root_integrity b h -> root_integrity b h'.
Proof.
  unfold EnablePCScan. intros Hreg H Hi.
  apply PA_CHECK_bind in H as [_ H]. apply PA_CHECK_bind in H as [_ H].
  destruct (IsScanEnabled (roots h this)).
  - inversion H; subst. exact Hi.
  - inversion H; subst.
    apply integrity_set_root; [reflexivity | reflexivity | apply Hreg; exact Hi].
Qed.

Lemma step_keeps_integrity (h h' : Heap) :
  step C b h h' -> root_integrity b h -> root_integrity b h'.
Proof.
  intros Hstep Hi. destruct Hstep.
  - apply Init_keeps_integrity. exact Hi.
  - eapply AllocFlags_keeps; eassumption.
  - eapply AllocFlagsNoHooks_keeps; eassumption.
  - eapply AlignedAllocFlags_keeps; eassumption.
  - eapply Free_keeps; eassumption.
  - eapply FreeNoHooks_keeps; eassumption.
  - eapply FreeNoHooksImmediate_keeps; eassumption.
  - eapply RawFree_keeps; eassumption.
  - eapply RawFreeWithThreadCache_keeps; eassumption.
  - eapply EnablePCScan_keeps; eassumption.
Qed.

Lemma reachable_integrity (h : Heap) : reachable C b h -> root_integrity b h.
Proof.
  induction 1 as [h Hstart | h h' _ IH Hstep].
  - apply integrity_start. exact Hstart.
  - exact (step_keeps_integrity h h' Hstep IH).
Qed.

End Integrity.

(** The sample collaborators never write a root. *)
Lemma direct_mapping_keeps_integrity (b : Build) : KeepsIntegrity (direct_mapping b) b.
Proof.
  constructor; cbn [direct_mapping SlowPathAlloc SlotSpanFree DeferredUnmapRun
                      ThreadCacheCreate GetFromCache MaybePutInCache
                      AllocationOverrideHookIfEnabled AllocationObserverHookIfEnabled
                      FreeObserverHookIfEnabled FreeOverrideHookIfEnabled
                      MoveToQuarantine ReleaseFromAllocator libc_malloc libc_calloc
                      libc_free snd]; try (intros; assumption).
  - intros this bp flags raw h ret z h' H Hi.
    destruct (MaxDirectMapped b <? raw).
    + destruct (has_flag flags PartitionAllocReturnNull); [|discriminate].
      apply Returns_triple in H as (_ & _ & ->). exact Hi.
    + apply Returns_triple in H as (_ & _ & ->).
      apply (integrity_same_roots b h); [reflexivity | exact Hi].
  - intros slot_span ptr h d h' H Hi. injection H as _ <-. exact Hi.
  - intros tcache idx h Hi. unfold checked_cache_get.
    match goal with |- context [if ?c then _ else _] => destruct c end;
      cbn [snd]; exact Hi.
Qed.

(** C9. In every heap a process reaches, every initialized root carries
    the bitwise NOT of its own address in [inverted_self]: [Init] stores it
    and no call into the partition changes it, provided the code outside
    the sources keeps it.  The integrity check validates exactly this:
    [IsValidSlotSpan] holds if and only if the root named by the extent
    entry at the start of the slot span's system page carries the bitwise
    NOT of its address, and [FromSuperPage] makes the same comparison, in a
    [PA_DCHECK], for the root named by the super page's metadata area.  So
    slot spans and super pages of an initialized root pass both. *)
Theorem inverted_self_integrity (C : Collaborators) (b : Build) (h : Heap)
    (root : Z) (opts : PartitionOptions) (slot_span super_page : Z) :
  KeepsIntegrity C b -> reachable C b h ->
  (initialized (roots h root) = true ->
   inverted_self (roots h root) = bitwise_not b root /\
   (is_size_t b root -> bitwise_not b (inverted_self (roots h root)) = root) /\
   (extent_root h (Z.land slot_span (SystemPageBaseMask b)) = root ->
    IsValidSlotSpan b h slot_span = true) /\
   (extent_root h (PartitionSuperPageToMetadataArea b super_page) = root ->
    FromSuperPage b h super_page = Returns root)) /\
  (initialized (roots (Init b root opts h) root) = true /\
   inverted_self (roots (Init b root opts h) root) = bitwise_not b root) /\
  (IsValidSlotSpan b h slot_span = true <->
   let found := extent_root h (Z.land slot_span (SystemPageBaseMask b)) in
   inverted_self (roots h found) = bitwise_not b found) /\
  (let found := extent_root h (PartitionSuperPageToMetadataArea b super_page) in
   FromSuperPage b h super_page
   = if DCHECK_IS_ON b && negb (inverted_self (roots h found) =? bitwise_not b found)
     then Crashes else Returns found).
Proof.
  intros Hkeep Hreach.
  pose proof (reachable_integrity C b Hkeep h Hreach) as Hi.
  assert (Hvalid : IsValidSlotSpan b h slot_span = true <->
                   inverted_self
                     (roots h (extent_root h (Z.land slot_span (SystemPageBaseMask b))))
                   = bitwise_not b
                       (extent_root h (Z.land slot_span (SystemPageBaseMask b)))).
  { unfold IsValidSlotSpan, FromSlotSpan. apply Z.eqb_eq. }
  assert (Hsuper : FromSuperPage b h super_page
                   = if DCHECK_IS_ON b
                        && negb (inverted_self
                                   (roots h (extent_root h
                                      (PartitionSuperPageToMetadataArea b super_page)))
                                 =? bitwise_not b
                                      (extent_root h
                                         (PartitionSuperPageToMetadataArea b super_page)))
                     then Crashes
                     else Returns (extent_root h
                                     (PartitionSuperPageToMetadataArea b super_page))).
  { unfold FromSuperPage, PA_DCHECK. cbv zeta.
    destruct (DCHECK_IS_ON b); [|reflexivity].
    destruct (inverted_self _ =? _); reflexivity. }
  split; [|split; [|split]].
  - intros Hinit. pose proof (Hi root Hinit) as Hself.
    split; [exact Hself|]. split; [|split].
    + intros Hroot. rewrite Hself.
      rewrite (bitwise_not_small b root Hroot).
      rewrite bitwise_not_small by (unfold is_size_t in *; lia). lia.
    + intros Hfound. apply Hvalid. rewrite Hfound. exact Hself.
    + intros Hfound. rewrite Hsuper, Hfound, Hself, Z.eqb_refl, andb_false_r.
      reflexivity.
  - split; [apply Init_initializes|].
    apply (Init_keeps_integrity b root opts h Hi). apply Init_initializes.
  - exact Hvalid.
  - exact Hsuper.
Qed.

Lemma inverted_self_integrity_witness :
  let b := debug_build in
  let h := first_alloc_heap in
  (initialized (roots h sample_this) = true ->
   inverted_self (roots h sample_this) = bitwise_not b sample_this /\
   (is_size_t b sample_this ->
    bitwise_not b (inverted_self (roots h sample_this)) = sample_this) /\
   (extent_root h (Z.land direct_map_span (SystemPageBaseMask b)) = sample_this ->
    IsValidSlotSpan b h direct_map_span = true) /\
   (extent_root h (PartitionSuperPageToMetadataArea b 4194304) = sample_this ->
    FromSuperPage b h 4194304 = Returns sample_this)) /\
  (initialized (roots (Init b sample_this regular_options h) sample_this) = true /\
   inverted_self (roots (Init b sample_this regular_options h) sample_this)
   = bitwise_not b sample_this) /\
  (IsValidSlotSpan b h direct_map_span = true <->
   let found := extent_root h (Z.land direct_map_span (SystemPageBaseMask b)) in
   inverted_self (roots h found) = bitwise_not b found) /\
  (let found := extent_root h (PartitionSuperPageToMetadataArea b 4194304) in
   FromSuperPage b h 4194304
   = if DCHECK_IS_ON b && negb (inverted_self (roots h found) =? bitwise_not b found)
     then Crashes else Returns found).
Proof.
  apply (inverted_self_integrity (direct_mapping debug_build) debug_build
           first_alloc_heap sample_this regular_options direct_map_span 4194304).
  - apply direct_mapping_keeps_integrity.
  - apply (reachable_step _ _ started_heap).
    + apply (reachable_step _ _ blank_heap).
      * apply reachable_start. intros root. reflexivity.
      * apply step_Init.
    + apply (step_AllocFlags _ _ sample_this 0 100 started_heap 4210704).
      apply returns_pointer_of. vm_compute. reflexivity.
Defined.

(** * Further properties of the size classes *)

Lemma sizes_ok_supported (p : Platform) : supported p = true -> sizes_ok p = true.
Proof.
  intros H; destruct (supported_cases p H) as [-> | [-> | [-> | ->]]];
    vm_compute; reflexivity.
Qed.

Lemma increasing_head (x : Z) (l : list Z) :
  increasing (x :: l) = true ->
  forall j, (j < length l)%nat -> x < nth j l 0.
Proof.
  revert x. induction l as [|y l IH]; intros x H j Hj; [cbn in Hj; lia|].
  cbn [increasing] in H. apply andb_true_iff in H as [Hxy Hrest].
  apply Z.ltb_lt in Hxy.
  destruct j as [|j]; [exact Hxy|].
  cbn [nth]. cbn [length] in Hj.
  specialize (IH y Hrest j ltac:(lia)). lia.
Qed.

Lemma increasing_nth (l : list Z) :
  increasing l = true ->
  forall i j, (i < j < length l)%nat -> nth i l 0 < nth j l 0.
Proof.
  induction l as [|x l IH]; intros H i j Hij; [cbn in Hij; lia|].
  destruct j as [|j]; [lia|].
  destruct i as [|i]; cbn [nth].
  - apply increasing_head; [assumption | cbn in Hij; lia].
  - apply IH; [|cbn in Hij; lia].
    destruct l as [|y l]; [reflexivity|].
    cbn [increasing] in H. apply andb_true_iff in H. tauto.
Qed.

Lemma round_up_bounds (n a : Z) :
  0 < a -> n <= round_up n a < n + a /\ round_up n a mod a = 0.
Proof.
  intros Ha. unfold round_up, steps_up.
  pose proof (Z.div_mod n a ltac:(lia)).
  pose proof (Z.mod_pos_bound n a Ha).
  split; [|apply Z.mod_mul; lia].
  destruct (Z.eqb_spec (n mod a) 0); nia.
Qed.

(** The smallest multiple of [a] that is at least [n] lies below any
    other such multiple. *)
Lemma round_up_least (n a m : Z) :
  0 < a -> n <= m -> m mod a = 0 -> round_up n a <= m.
Proof.
  intros Ha Hnm Hm.
  destruct (round_up_bounds n a Ha) as [[_ Hlt] Hr].
  apply Z.mod_divide in Hm; [|lia]. apply Z.mod_divide in Hr; [|lia].
  destruct Hm as [c ->], Hr as [d Hd]. rewrite Hd in *.
  assert (d < c + 1) by nia. nia.
Qed.

Section SizeClasses.
Variable p : Platform.
Variable lk : Lookup.
Hypothesis Hsup : supported p = true.
Hypothesis Hbuilt : BucketIndexLookup p = Some lk.

Let tbl := bucket_index_lookup_ lk.
Let sizes := bucket_sizes_ lk.

Lemma sizes_checks_hold : sizes_checks p lk = true.
Proof.
  pose proof (sizes_ok_supported p Hsup) as H.
  unfold sizes_ok in H. rewrite Hbuilt in H. exact H.
Qed.

Lemma sizes_increasing (i j : Z) :
  0 <= i -> i < j -> j < kNumBuckets p -> at_index sizes i < at_index sizes j.
Proof.
  pose proof sizes_checks_hold as H. unfold sizes_checks in H.
  repeat (apply andb_true_iff in H as [H ?]).
  intros Hi Hij Hj. unfold at_index. apply increasing_nth; [exact H|].
  pose proof (sizes_length p lk Hsup Hbuilt). unfold sizes. lia.
Qed.

Lemma sizes_closed (i j : Z) :
  0 <= i < kNumBucketedOrders p -> 0 <= j < kNumBucketsPerOrder ->
  at_index sizes (i * kNumBucketsPerOrder + j) = size_class p i j.
Proof.
  pose proof sizes_checks_hold as H. unfold sizes_checks in H.
  repeat (apply andb_true_iff in H as [H ?]).
  intros Hi Hj.
  match goal with
  | F : forallb (fun i => forallb _ _) _ = true |- _ =>
      rewrite forallb_forall in F; specialize (F i (proj2 (in_upto _ i) Hi));
      rewrite forallb_forall in F; specialize (F j (proj2 (in_upto _ j) Hj));
      apply Z.eqb_eq in F; exact F
  end.
Qed.

Lemma size_round_trip (j : Z) :
  0 <= j < kNumBuckets p -> at_index sizes j mod kSmallestBucket p = 0 ->
  at_index tbl (lookup_position p (at_index sizes j)) = j.
Proof.
  pose proof sizes_checks_hold as H. unfold sizes_checks in H.
  repeat (apply andb_true_iff in H as [H ?]).
  intros Hj Hm.
  match goal with
  | F : forallb (fun j => negb _ || _) _ = true |- _ =>
      rewrite forallb_forall in F; specialize (F j (proj2 (in_upto _ j) Hj));
      apply orb_true_iff in F as [F | F];
      [unfold sizes in Hm; rewrite Hm in F; discriminate
      | apply Z.eqb_eq in F; exact F]
  end.
Qed.

Lemma small_sizes_exact (n : Z) :
  1 <= n < 16 ->
  at_index sizes (at_index tbl (at_index small_positions n))
  = round_up n (kSmallestBucket p).
Proof.
  pose proof sizes_checks_hold as H. unfold sizes_checks in H.
  repeat (apply andb_true_iff in H as [H ?]).
  intros Hn.
  match goal with
  | F : forallb _ (map (Z.add 1) _) = true |- _ =>
      rewrite forallb_forall in F; apply Z.eqb_eq, F
  end.
  apply in_map_iff. exists (n - 1). split; [lia | apply in_upto; lia].
Qed.

Lemma step_bound_exact (k : Z) :
  40 <= k < 168 ->
  at_index sizes (at_index tbl k) = round_up (step_bound k) (kSmallestBucket p).
Proof.
  pose proof sizes_checks_hold as H. unfold sizes_checks in H.
  repeat (apply andb_true_iff in H as [H ?]).
  intros Hk.
  match goal with
  | F : forallb _ (map (Z.add 40) _) = true |- _ =>
      rewrite forallb_forall in F; apply Z.eqb_eq, F
  end.
  apply in_map_iff. exists (k - 40). split; [lia | apply in_upto; lia].
Qed.

Lemma sizes_range (j : Z) :
  0 <= j < kNumBuckets p -> kSmallestBucket p <= at_index sizes j <= kMaxBucketed.
Proof.
  intros Hj.
  pose proof (largest_bucket_size p lk Hsup Hbuilt) as Hlast. fold sizes in Hlast.
  assert (Hfirst : at_index sizes 0 = kSmallestBucket p).
  {     replace 0 with (0 * kNumBucketsPerOrder + 0) by reflexivity.
    rewrite sizes_closed.
    - unfold size_class. rewrite Z.shiftl_0_r. lia.
    - destruct (supported_cases p Hsup) as [-> | [-> | [-> | ->]]]; vm_compute;
        split; congruence.
    - vm_compute; split; congruence. }
  rewrite <- Hfirst, <- Hlast.
  split.
  - destruct (Z.eq_dec j 0) as [-> | H0];
      [lia | apply Z.lt_le_incl, sizes_increasing; lia].
  - destruct (Z.eq_dec j (kNumBuckets p - 1)) as [-> | H1];
      [lia | apply Z.lt_le_incl, sizes_increasing; lia].
Qed.
End SizeClasses.

Lemma bucket_size_at (p : Platform) (lk : Lookup) (i : Z) :
  BucketIndexLookup p = Some lk -> bucket_size p i = at_index (bucket_sizes_ lk) i.
Proof. intros H. unfold bucket_size. rewrite H. reflexivity. Qed.

Lemma round_up_fixed (x a : Z) : 0 < a -> x mod a = 0 -> round_up x a = x.
Proof.
  intros Ha Hx. pose proof (round_up_bounds x a Ha) as [[Hlo _] _].
  pose proof (round_up_least x a x Ha ltac:(lia) Hx). lia.
Qed.

Lemma mod_0_trans (x s a : Z) :
  0 < s -> 0 < a -> x mod s = 0 -> s mod a = 0 -> x mod a = 0.
Proof.
  intros Hs Ha Hx Hsa.
  apply Z.mod_divide in Hx; [|lia]. apply Z.mod_divide in Hsa; [|lia].
  apply Z.mod_divide; [lia|]. eapply Z.divide_trans; eassumption.
Qed.

(** Rounding up to a step and then to a unit, one of which divides the
    other, overshoots by less than the larger of the two. *)
Lemma round_up_twice (n s a : Z) :
  0 < s -> 0 < a -> s mod a = 0 \/ a mod s = 0 ->
  n <= round_up (round_up n s) a < n + Z.max s a.
Proof.
  intros Hs Ha Hdiv.
  destruct (round_up_bounds n s Hs) as [[Hlo1 Hhi1] Hm1].
  destruct (round_up_bounds (round_up n s) a Ha) as [[Hlo2 _] _].
  split; [lia|].
  destruct Hdiv as [Hsa | Has].
  - rewrite round_up_fixed; [lia | assumption |].
    apply (mod_0_trans _ s a); assumption.
  - destruct (round_up_bounds n a Ha) as [[Hlo3 Hhi3] Hm3].
    assert (round_up n s <= round_up n a).
    { apply round_up_least; [assumption | assumption |].
      apply (mod_0_trans _ a s); assumption. }
    pose proof (round_up_least (round_up n s) a (round_up n a) Ha H Hm3). lia.
Qed.

Lemma pow2_mod_pow2 (x y : Z) : 0 <= x <= y -> 2 ^ y mod 2 ^ x = 0.
Proof.
  intros H. replace y with ((y - x) + x) by lia.
  rewrite Z.pow_add_r by lia. apply Z.mod_mul.
  apply Z.pow_nonzero; lia.
Qed.

Lemma kSmallestBucket_pow2 (p : Platform) :
  supported p = true ->
  kSmallestBucket p = 2 ^ Z.log2 (kSmallestBucket p) /\
  3 <= Z.log2 (kSmallestBucket p) <= 4 /\
  kNumBucketedOrders p = 20 - Z.log2 (kSmallestBucket p).
Proof.
  intros H; destruct (supported_cases p H) as [-> | [-> | [-> | ->]]];
    vm_compute; repeat split; congruence.
Qed.

(** The size of the bucket chosen for a bucketed size of at least [2^4]:
    the size rounded up to the step of its order, then to a multiple of
    [kSmallestBucket]. *)
Lemma bucket_size_exact (p : Platform) (lk : Lookup) (n : Z) :
  supported p = true -> BucketIndexLookup p = Some lk ->
  16 <= n <= kMaxBucketed ->
  at_index (bucket_sizes_ lk)
    (at_index (bucket_index_lookup_ lk) (lookup_position p n))
  = round_up (round_up n (2 ^ (Z.log2 n - 3))) (kSmallestBucket p).
Proof.
  intros Hs Hb Hn.
  pose proof (kMaxBucketed_is_size_t p Hs) as Hm.
  assert (Hl : 4 <= Z.log2 n) by (apply Z.log2_le_pow2; lia).
  destruct (Z.log2_spec n ltac:(lia)) as [Hlo Hhi].
  pose proof (steps_up_range n (Z.log2 n) ltac:(lia) (conj Hlo Hhi)) as R.
  assert (Hpos : lookup_position p n <= lookup_position p kMaxBucketed)
    by (apply lookup_position_mono; (assumption || lia)).
  assert (Hmax : lookup_position p kMaxBucketed = 167).
  { rewrite lookup_position_steps by (assumption || (unfold kMaxBucketed in *; lia)).
    reflexivity. }
  rewrite Hmax in Hpos.
  rewrite lookup_position_steps in * by (assumption || lia).
  rewrite (step_bound_exact p lk Hs Hb) by lia.
  rewrite step_bound_steps by lia.
  reflexivity.
Qed.

(** X1. [InitBucketSizes] in closed form: the table has [kNumBuckets]
    entries, and entry [j] of bucketed order [i] is the start
    [kSmallestBucket * 2^i] of the order plus [j] steps of an eighth of that
    start. *)
Theorem InitBucketSizes_closed_form (p : Platform) (i j : Z) :
  supported p = true ->
  0 <= i < kNumBucketedOrders p -> 0 <= j < kNumBucketsPerOrder ->
  Z.of_nat (length (InitBucketSizes p)) = kNumBuckets p /\
  nth_error (InitBucketSizes p) (Z.to_nat (i * kNumBucketsPerOrder + j))
  = Some (kSmallestBucket p * 2 ^ i + j * (kSmallestBucket p / 8 * 2 ^ i)).
Proof.
  intros Hs Hi Hj. destruct (table_exists p Hs) as [lk Hlk].
  rewrite <- (lookup_sizes p lk Hlk).
  pose proof (sizes_length p lk Hs Hlk) as Hlen.
  split; [exact Hlen|].
  rewrite nth_error_at_index.
  - f_equal. rewrite (sizes_closed p lk Hs Hlk) by assumption.
    unfold size_class, kNumBucketsPerOrderBits.
    rewrite !Z.shiftl_mul_pow2, Z.shiftr_div_pow2 by lia.
    reflexivity.
  - rewrite Hlen. unfold kNumBuckets. change kNumBucketsPerOrder with 8 in *. lia.
Qed.

Lemma InitBucketSizes_closed_form_witness :
  Z.of_nat (length (InitBucketSizes p64_16)) = kNumBuckets p64_16 /\
  nth_error (InitBucketSizes p64_16) (Z.to_nat (3 * kNumBucketsPerOrder + 5))
  = Some (kSmallestBucket p64_16 * 2 ^ 3 + 5 * (kSmallestBucket p64_16 / 8 * 2 ^ 3)).
Proof.
  apply (InitBucketSizes_closed_form p64_16 3 5).
  - reflexivity.
  - vm_compute. split; [discriminate | reflexivity].
  - vm_compute. split; [discriminate | reflexivity].
Defined.

(** X2. The bucket sizes increase strictly with the bucket index, from
    [kSmallestBucket] to [kMaxBucketed]: no two buckets have the same size. *)
Theorem bucket_sizes_increasing (p : Platform) (i j : Z) :
  supported p = true -> 0 <= i -> i < j -> j < kNumBuckets p ->
  kSmallestBucket p <= bucket_size p i /\
  bucket_size p i < bucket_size p j /\
  bucket_size p j <= kMaxBucketed.
Proof.
  intros Hs Hi Hij Hj. destruct (table_exists p Hs) as [lk Hlk].
  rewrite !(bucket_size_at p lk) by assumption.
  pose proof (sizes_range p lk Hs Hlk i ltac:(lia)).
  pose proof (sizes_range p lk Hs Hlk j ltac:(lia)).
  pose proof (sizes_increasing p lk Hs Hlk i j Hi Hij Hj).
  lia.
Qed.

Lemma bucket_sizes_increasing_witness :
  kSmallestBucket p32_8 <= bucket_size p32_8 9 /\
  bucket_size p32_8 9 < bucket_size p32_8 10 /\
  bucket_size p32_8 10 <= kMaxBucketed.
Proof.
  apply (bucket_sizes_increasing p32_8 9 10).
  - reflexivity.
  - lia.
  - lia.
  - vm_compute. reflexivity.
Defined.

(** X3. Looking up the size of a bucket gives that bucket back:
    [SizeToBucketIndex(bucket_size(j)) = j] for every bucket [j] whose size
    is a multiple of [kSmallestBucket]. *)
Theorem bucket_size_round_trip (p : Platform) (j : Z) :
  supported p = true -> 0 <= j < kNumBuckets p ->
  bucket_size p j mod kSmallestBucket p = 0 ->
  SizeToBucketIndex p (bucket_size p j) = Some j.
Proof.
  intros Hs Hj Hm. destruct (table_exists p Hs) as [lk Hlk].
  rewrite (bucket_size_at p lk) in * by assumption.
  pose proof (sizes_range p lk Hs Hlk j Hj) as R.
  pose proof (kMaxBucketed_is_size_t p Hs).
  assert (0 < kSmallestBucket p)
    by (destruct (kSmallestBucket_pow2 p Hs) as (E & _ & _); rewrite E;
        apply Z.pow_pos_nonneg; [lia | apply Z.log2_nonneg]).
  rewrite (SizeToBucketIndex_at p lk) by (assumption || lia).
  rewrite (size_round_trip p lk Hs Hlk j Hj Hm). reflexivity.
Qed.

Lemma bucket_size_round_trip_witness :
  SizeToBucketIndex p64_16 (bucket_size p64_16 26) = Some 26.
Proof.
  apply (bucket_size_round_trip p64_16 26).
  - reflexivity.
  - vm_compute. split; [discriminate | reflexivity].
  - vm_compute. reflexivity.
Defined.

(** X4. The bucket chosen for a bucketed size is the smallest that fits:
    its size is a multiple of [kSmallestBucket] and at least the size asked
    for, and every bucket of such a size that is large enough has an index
    (hence a size) at least as large. *)
Theorem smallest_fitting_bucket (p : Platform) (n j : Z) :
  supported p = true -> 0 <= n <= kMaxBucketed ->
  0 <= j < kNumBuckets p ->
  bucket_size p j mod kSmallestBucket p = 0 -> n <= bucket_size p j ->
  exists i,
    SizeToBucketIndex p n = Some i /\ 0 <= i <= j /\
    n <= bucket_size p i <= bucket_size p j /\
    bucket_size p i mod kSmallestBucket p = 0.
Proof.
  intros Hs Hn Hj Hm Hfit. destruct (table_exists p Hs) as [lk Hlk].
  rewrite !(bucket_size_at p lk) in * by assumption.
  pose proof (kMaxBucketed_is_size_t p Hs) as HM.
  pose proof (sizes_range p lk Hs Hlk j Hj) as Rj.
  set (i := at_index (bucket_index_lookup_ lk) (lookup_position p n)).
  pose proof (index_bucketed p lk n Hs Hlk Hn) as Hi. fold i in Hi.
  assert (Hij : i <= j).
  { rewrite <- (size_round_trip p lk Hs Hlk j Hj Hm).
    apply index_mono; (assumption || lia). }
  exists i. rewrite (bucket_size_at p lk) by assumption.
  split; [apply SizeToBucketIndex_at; (assumption || lia)|].
  split; [lia|]. split.
  - split; [apply bucket_covers; assumption|].
    destruct (Z.eq_dec i j) as [-> | Hne]; [lia|].
    apply Z.lt_le_incl, (sizes_increasing p lk Hs Hlk); lia.
  - destruct (table_entries_aligned p lk Hs Hlk i) as [E | E]; [|lia | exact E].
    apply in_at_index. apply (position_in_table p lk Hs Hlk). lia.
Qed.

Lemma smallest_fitting_bucket_witness :
  exists i,
    SizeToBucketIndex p64_16 100 = Some i /\ 0 <= i <= 40 /\
    100 <= bucket_size p64_16 i <= bucket_size p64_16 40 /\
    bucket_size p64_16 i mod kSmallestBucket p64_16 = 0.
Proof.
  apply (smallest_fitting_bucket p64_16 100 40).
  - reflexivity.
  - unfold kMaxBucketed. lia.
  - vm_compute. split; [discriminate | reflexivity].
  - vm_compute. reflexivity.
  - vm_compute. discriminate.
Defined.

(** X5. Bounded waste: the slot chosen for a bucketed size [n >= 1]
    exceeds [n] by less than [kSmallestBucket] or by less than an eighth of
    [n] ("worst-case waste to ~10%", partition_root.h:29). *)
Theorem bucket_waste_bound (p : Platform) (n : Z) :
  supported p = true -> 1 <= n <= kMaxBucketed ->
  exists i,
    SizeToBucketIndex p n = Some i /\
    n <= bucket_size p i /\
    (bucket_size p i - n < kSmallestBucket p \/ 8 * (bucket_size p i - n) < n).
Proof.
  intros Hs Hn. destruct (table_exists p Hs) as [lk Hlk].
  pose proof (kMaxBucketed_is_size_t p Hs) as HM.
  destruct (kSmallestBucket_pow2 p Hs) as (Ek & Ra & _).
  set (a := Z.log2 (kSmallestBucket p)) in *.
  assert (Hkpos : 0 < kSmallestBucket p) by (rewrite Ek; apply Z.pow_pos_nonneg; lia).
  exists (at_index (bucket_index_lookup_ lk) (lookup_position p n)).
  rewrite (bucket_size_at p lk) by assumption.
  split; [apply SizeToBucketIndex_at; (assumption || lia)|].
  split; [apply bucket_covers; (assumption || lia)|].
  destruct (Z.lt_ge_cases n 16) as [Hsmall | Hlarge].
  - left. rewrite lookup_position_small by (assumption || lia).
    rewrite (small_sizes_exact p lk Hs Hlk) by lia.
    pose proof (round_up_bounds n (kSmallestBucket p) Hkpos). lia.
  - rewrite (bucket_size_exact p lk n Hs Hlk) by lia.
    assert (Hl : 4 <= Z.log2 n) by (apply Z.log2_le_pow2; lia).
    destruct (Z.log2_spec n ltac:(lia)) as [Hlo _].
    set (l := Z.log2 n) in *.
    assert (Hstep : 0 < 2 ^ (l - 3)) by (apply Z.pow_pos_nonneg; lia).
    assert (H8 : 8 * 2 ^ (l - 3) = 2 ^ l).
    { replace l with (3 + (l - 3)) at 2 by lia. rewrite Z.pow_add_r by lia.
      reflexivity. }
    assert (Hdiv : 2 ^ (l - 3) mod kSmallestBucket p = 0
                   \/ kSmallestBucket p mod 2 ^ (l - 3) = 0).
    { rewrite Ek. destruct (Z.le_ge_cases a (l - 3)).
      - left. apply pow2_mod_pow2. lia.
      - right. apply pow2_mod_pow2. lia. }
    pose proof (round_up_twice n (2 ^ (l - 3)) (kSmallestBucket p) Hstep Hkpos Hdiv).
    destruct (Z.max_spec (2 ^ (l - 3)) (kSmallestBucket p)) as [[_ E] | [_ E]];
      rewrite E in *; [left | right]; lia.
Qed.

Lemma bucket_waste_bound_witness :
  exists i,
    SizeToBucketIndex p64_16 4000 = Some i /\
    4000 <= bucket_size p64_16 i /\
    (bucket_size p64_16 i - 4000 < kSmallestBucket p64_16
     \/ 8 * (bucket_size p64_16 i - 4000) < 4000).
Proof.
  apply (bucket_waste_bound p64_16 4000).
  - reflexivity.
  - unfold kMaxBucketed. lia.
Defined.

(** The shift and the mask of the order of a size of at least [2^4]. *)
Lemma shift_and_mask_large (p : Platform) (n : Z) :
  supported p = true -> 16 <= n < size_max_plus_1 p ->
  order_of p n = Z.log2 n + 1 /\
  at_index (kOrderIndexShift p) (order_of p n) = Z.log2 n - 3 /\
  at_index (kOrderSubIndexMask p) (order_of p n) = Z.ones (Z.log2 n - 3).
Proof.
  intros Hs Hn.
  assert (Hb : 4 <= kBitsPerSizeT p) by (destruct (supported_bits p Hs); lia).
  assert (Hl : 4 <= Z.log2 n) by (apply Z.log2_le_pow2; lia).
  assert (Hlb : Z.log2 n < kBitsPerSizeT p)
    by (apply Z.log2_lt_pow2; unfold size_max_plus_1 in Hn; lia).
  rewrite order_of_log2 by (unfold size_max_plus_1 in *; lia).
  unfold kOrderIndexShift, kOrderSubIndexMask.
  rewrite !at_index_map_upto by lia.
  set (l := Z.log2 n) in *.
  split; [reflexivity|]. split.
  - unfold OrderIndexShift, kNumBucketsPerOrderBits.
    destruct (l + 1 <? 3 + 1) eqn:E; [apply Z.ltb_lt in E; lia | lia].
  - unfold OrderSubIndexMask, kNumBucketsPerOrderBits, size_max_plus_1, to_size_t.
    rewrite Z.ones_equiv, <- Z.sub_1_r.
    destruct (l + 1 =? kBitsPerSizeT p) eqn:E.
    + apply Z.eqb_eq in E. rewrite <- E.
      rewrite pow2_pred_shiftr by lia. f_equal. f_equal. lia.
    + apply Z.eqb_neq in E. unfold size_max_plus_1.
      rewrite Z.shiftl_1_l.
      assert (2 ^ (l + 1) < 2 ^ kBitsPerSizeT p) by (apply Z.pow_lt_mono_r; lia).
      assert (0 < 2 ^ (l + 1)) by (apply Z.pow_pos_nonneg; lia).
      rewrite (Z.mod_small (2 ^ (l + 1))) by lia.
      rewrite Z.mod_small by lia.
      rewrite pow2_pred_shiftr by lia. f_equal. f_equal. lia.
Qed.

(** X6. The three quantities [GetIndex] extracts from a size [n >= 8]
    determine it: [n] is its order index, under a leading one, shifted by
    [kOrderIndexShift[order]], plus its sub-order index; the mask
    [kOrderSubIndexMask[order]] covers exactly the bits below the shift. *)
Theorem size_fields_decompose (p : Platform) (n : Z) :
  supported p = true -> 8 <= n -> n < size_max_plus_1 p ->
  let shift := at_index (kOrderIndexShift p) (order_of p n) in
  n = Z.shiftl (kNumBucketsPerOrder + order_index_of p n) shift
      + sub_order_index_of p n /\
  0 <= order_index_of p n < kNumBucketsPerOrder /\
  0 <= sub_order_index_of p n < Z.shiftl 1 shift /\
  at_index (kOrderSubIndexMask p) (order_of p n) = Z.shiftl 1 shift - 1 /\
  shift = order_of p n - (kNumBucketsPerOrderBits + 1).
Proof.
  intros Hs Hlo Hhi. cbv zeta.
  destruct (Z.lt_ge_cases n 16) as [Hsmall | Hlarge].
  - assert (Hall :
      forallb (fun n =>
                 let shift := at_index (kOrderIndexShift p) (order_of p n) in
                 (n =? Z.shiftl (kNumBucketsPerOrder + order_index_of p n) shift
                       + sub_order_index_of p n)
                 && (0 <=? order_index_of p n)
                 && (order_index_of p n <? kNumBucketsPerOrder)
                 && (0 <=? sub_order_index_of p n)
                 && (sub_order_index_of p n <? Z.shiftl 1 shift)
                 && (at_index (kOrderSubIndexMask p) (order_of p n)
                     =? Z.shiftl 1 shift - 1)
                 && (shift =? order_of p n - (kNumBucketsPerOrderBits + 1)))
              (map (Z.add 8) (upto 8)) = true)
      by (destruct (supported_cases p Hs) as [-> | [-> | [-> | ->]]];
          vm_compute; reflexivity).
    rewrite forallb_forall in Hall.
    assert (Hin : In n (map (Z.add 8) (upto 8)))
      by (apply in_map_iff; exists (n - 8); split; [lia | apply in_upto; lia]).
    specialize (Hall n Hin). cbv zeta in Hall.
    repeat (apply andb_true_iff in Hall as [Hall ?]).
    repeat match goal with
           | X : (_ <=? _) = true |- _ => apply Z.leb_le in X
           | X : (_ <? _) = true |- _ => apply Z.ltb_lt in X
           | X : (_ =? _) = true |- _ => apply Z.eqb_eq in X
           end.
    repeat split; assumption.
  - destruct (shift_and_mask_large p n Hs ltac:(lia)) as (Ho & Hsh & Hmk).
    unfold order_index_of, sub_order_index_of.
    rewrite Hsh, Hmk.
    assert (Hl : 4 <= Z.log2 n) by (apply Z.log2_le_pow2; lia).
    destruct (Z.log2_spec n ltac:(lia)) as [Hlo' Hhi'].
    set (l := Z.log2 n) in *.
    rewrite Z.land_ones by lia.
    change (kNumBucketsPerOrder - 1) with (Z.ones 3).
    rewrite Z.land_ones by lia.
    rewrite Z.shiftr_div_pow2, !Z.shiftl_mul_pow2 by lia.
    change kNumBucketsPerOrder with 8. change (2 ^ 3) with 8.
    assert (Hpos : 0 < 2 ^ (l - 3)) by (apply Z.pow_pos_nonneg; lia).
    assert (Hq : 8 <= n / 2 ^ (l - 3) < 16).
    { replace l with (3 + (l - 3)) in Hlo' at 1 by lia.
      replace (Z.succ l) with (4 + (l - 3)) in Hhi' by lia.
      rewrite Z.pow_add_r in Hlo', Hhi' by lia.
      change (2 ^ 3) with 8 in Hlo'. change (2 ^ 4) with 16 in Hhi'.
      split.
      - apply Z.div_le_lower_bound; lia.
      - apply Z.div_lt_upper_bound; lia. }
    assert (Hm : n / 2 ^ (l - 3) mod 8 = n / 2 ^ (l - 3) - 8)
      by (symmetry; apply (Z.mod_unique_pos _ _ 1); lia).
    rewrite Hm.
    pose proof (Z.div_mod n (2 ^ (l - 3)) ltac:(lia)).
    pose proof (Z.mod_pos_bound n (2 ^ (l - 3)) Hpos).
    repeat split; try lia.
    + rewrite Z.ones_equiv. lia.
    + rewrite Ho. unfold kNumBucketsPerOrderBits. lia.
Qed.

Lemma size_fields_decompose_witness :
  let shift := at_index (kOrderIndexShift p64_16) (order_of p64_16 41) in
  41 = Z.shiftl (kNumBucketsPerOrder + order_index_of p64_16 41) shift
       + sub_order_index_of p64_16 41 /\
  0 <= order_index_of p64_16 41 < kNumBucketsPerOrder /\
  0 <= sub_order_index_of p64_16 41 < Z.shiftl 1 shift /\
  at_index (kOrderSubIndexMask p64_16) (order_of p64_16 41) = Z.shiftl 1 shift - 1 /\
  shift = order_of p64_16 41 - (kNumBucketsPerOrderBits + 1).
Proof.
  apply (size_fields_decompose p64_16 41).
  - reflexivity.
  - lia.
  - vm_compute. reflexivity.
Defined.

(** X7. Every size up to [kSmallestBucket], [0] included, is served by
    bucket [0], whose slots have [kSmallestBucket] bytes ("the bucket of the
    finest granularity for malloc(0) etc."). *)
Theorem smallest_sizes_use_bucket_0 (p : Platform) (n : Z) :
  supported p = true -> 0 <= n <= kSmallestBucket p ->
  SizeToBucketIndex p n = Some 0 /\ bucket_size p 0 = kSmallestBucket p.
Proof.
  intros Hs Hn. destruct (table_exists p Hs) as [lk Hlk].
  pose proof (kMaxBucketed_is_size_t p Hs) as HM.
  destruct (kSmallestBucket_pow2 p Hs) as (Ek & Ra & Ho).
  assert (Hk : kSmallestBucket p <= 16).
  { rewrite Ek. change 16 with (2 ^ 4). apply Z.pow_le_mono_r; lia. }
  assert (Hnb : 0 < kNumBuckets p) by (apply kNumBuckets_range; assumption).
  assert (H0 : at_index (bucket_sizes_ lk) 0 = kSmallestBucket p).
  { replace 0 with (0 * kNumBucketsPerOrder + 0) at 1 by reflexivity.
    rewrite (sizes_closed p lk Hs Hlk) by (rewrite ?Ho; change kNumBucketsPerOrder with 8; lia).
    unfold size_class. rewrite Z.shiftl_0_r. lia. }
  rewrite (bucket_size_at p lk) by assumption.
  split; [|exact H0].
  rewrite (SizeToBucketIndex_at p lk) by (assumption || unfold kMaxBucketed in *; lia).
  f_equal.
  assert (Hlo : at_index (bucket_index_lookup_ lk) (lookup_position p 0) = 0).
  { rewrite lookup_position_small by (assumption || lia).
    apply (table_first p lk Hs Hlk). }
  assert (Hhi : at_index (bucket_index_lookup_ lk)
                  (lookup_position p (kSmallestBucket p)) = 0).
  { rewrite <- H0 at 1. apply (size_round_trip p lk Hs Hlk); [lia|].
    rewrite H0. apply Z.mod_same. lia. }
  pose proof (index_mono p lk 0 n Hs Hlk ltac:(lia) ltac:(unfold kMaxBucketed in *; lia)).
  pose proof (index_mono p lk n (kSmallestBucket p) Hs Hlk ltac:(lia)
                ltac:(unfold kMaxBucketed in *; lia)).
  lia.
Qed.

Lemma smallest_sizes_use_bucket_0_witness :
  SizeToBucketIndex p64_8 0 = Some 0 /\ bucket_size p64_8 0 = kSmallestBucket p64_8.
Proof.
  apply (smallest_sizes_use_bucket_0 p64_8 0).
  - reflexivity.
  - vm_compute. split; discriminate.
Defined.

(** X8. A bucketed power of two is a bucket size: a request of [2^k]
    bytes, [kSmallestBucket <= 2^k <= kMaxBucketed], is served from slots of
    exactly [2^k] bytes (the guarantee [AlignedAllocFlags] builds on). *)
Theorem power_of_two_fits_exactly (p : Platform) (k : Z) :
  supported p = true -> 0 <= k ->
  kSmallestBucket p <= 2 ^ k -> 2 ^ k <= kMaxBucketed ->
  exists i, SizeToBucketIndex p (2 ^ k) = Some i /\ bucket_size p i = 2 ^ k.
Proof.
  intros Hs Hk Hlo Hhi. destruct (table_exists p Hs) as [lk Hlk].
  destruct (kSmallestBucket_pow2 p Hs) as (Ek & Ra & Ho).
  set (a := Z.log2 (kSmallestBucket p)) in *.
  assert (Hak : a <= k) by (rewrite Ek in Hlo; apply Z.pow_le_mono_r_iff in Hlo; lia).
  assert (Hk19 : k < 20).
  { apply (Z.pow_lt_mono_r_iff 2); [lia | lia |].
    change (2 ^ 20) with 1048576. unfold kMaxBucketed in Hhi. lia. }
  assert (Hsize : at_index (bucket_sizes_ lk) ((k - a) * kNumBucketsPerOrder + 0) = 2 ^ k).
  { rewrite (sizes_closed p lk Hs Hlk) by (rewrite ?Ho; change kNumBucketsPerOrder with 8; lia).
    unfold size_class. rewrite Z.shiftl_mul_pow2 by lia.
    rewrite Ek, <- Z.pow_add_r by lia. replace (a + (k - a)) with k by lia. lia. }
  exists ((k - a) * kNumBucketsPerOrder + 0).
  rewrite (bucket_size_at p lk) by assumption.
  split; [|exact Hsize].
  pose proof (kMaxBucketed_is_size_t p Hs) as HM.
  assert (0 < 2 ^ k) by (apply Z.pow_pos_nonneg; lia).
  rewrite (SizeToBucketIndex_at p lk) by (assumption || lia).
  f_equal. rewrite <- Hsize at 1.
  apply (size_round_trip p lk Hs Hlk).
  - unfold kNumBuckets. rewrite Ho. change kNumBucketsPerOrder with 8. lia.
  - rewrite Hsize, Ek. apply pow2_mod_pow2. lia.
Qed.

Lemma power_of_two_fits_exactly_witness :
  exists i, SizeToBucketIndex p64_16 (2 ^ 6) = Some i /\ bucket_size p64_16 i = 2 ^ 6.
Proof.
  apply (power_of_two_fits_exactly p64_16 6).
  - reflexivity.
  - lia.
  - vm_compute. discriminate.
  - vm_compute. discriminate.
Defined.

(** * Masks, alignment and the sizes of direct-mapped regions *)

(** Masking with the complement of [2^k - 1] clears the low [k] bits. *)
Lemma land_base_mask (p : Platform) (x k : Z) :
  0 <= k -> is_size_t p x -> 0 <= kBitsPerSizeT p ->
  Z.land x (bitwise_not p (2 ^ k - 1)) = x - x mod 2 ^ k.
Proof.
  intros Hk Hx Hw. unfold is_size_t in Hx.
  unfold bitwise_not, to_size_t, size_max_plus_1 in *.
  rewrite <- Z.land_ones by lia.
  rewrite Z.land_assoc, (Z.land_comm x), <- Z.land_assoc.
  rewrite (Z.land_ones x) by lia. rewrite (Z.mod_small x) by lia.
  rewrite Z.land_comm, <- Z.ldiff_land, Z.sub_1_r, <- Z.ones_equiv.
  rewrite Z.ldiff_ones_r by lia.
  rewrite Z.shiftr_div_pow2, Z.shiftl_mul_pow2 by lia.
  pose proof (Z.div_mod x (2 ^ k) ltac:(apply Z.pow_nonzero; lia)). lia.
Qed.

(** Where the sum does not wrap, [Align] to a power of two is rounding up
    to a multiple of it. *)
Lemma Align_round_up (p : Platform) (size k : Z) :
  0 <= kBitsPerSizeT p -> 0 <= k -> 0 <= size ->
  size + 2 ^ k - 1 < size_max_plus_1 p ->
  Align p size (2 ^ k) = round_up size (2 ^ k).
Proof.
  intros Hw Hk Hsize Hfit.
  assert (Ha : 0 < 2 ^ k) by (apply Z.pow_pos_nonneg; lia).
  unfold Align, to_size_t. rewrite Z.mod_small by lia.
  rewrite land_base_mask by (unfold is_size_t; lia).
  unfold round_up, steps_up.
  pose proof (Z.div_mod size (2 ^ k) ltac:(lia)) as E.
  pose proof (Z.mod_pos_bound size (2 ^ k) Ha) as R.
  set (a := 2 ^ k) in *. set (q := size / a) in *. set (r := size mod a) in *.
  destruct (Z.eqb_spec r 0) as [Hr | Hr].
  - rewrite <- (Z.mod_unique_pos (size + a - 1) a q (a - 1)); lia.
  - rewrite <- (Z.mod_unique_pos (size + a - 1) a (q + 1) (r - 1)); lia.
Qed.

(** X9. [GetDirectMapSlotSize] rounds a raw size up to the next multiple
    of the system page, without wrapping around, for every raw size up to
    [MaxDirectMapped] ("this also guards against integer overflow"). *)
Theorem GetDirectMapSlotSize_rounds_up (b : Build) (kp raw : Z) :
  supported b = true -> 0 <= kp -> SystemPageSize b = 2 ^ kp ->
  MaxDirectMapped b + SystemPageSize b <= size_max_plus_1 b ->
  0 <= raw <= MaxDirectMapped b ->
  exists s,
    GetDirectMapSlotSize b raw = Returns s /\
    raw <= s < raw + SystemPageSize b /\ s mod SystemPageSize b = 0 /\
    (forall m, raw <= m -> m mod SystemPageSize b = 0 -> s <= m).
Proof.
  intros Hs Hkp Hpage Hfit Hraw.
  assert (Hw : 0 <= kBitsPerSizeT b) by (destruct (supported_bits b Hs); lia).
  assert (Ha : 0 < SystemPageSize b) by (rewrite Hpage; apply Z.pow_pos_nonneg; lia).
  exists (round_up raw (SystemPageSize b)).
  unfold GetDirectMapSlotSize, PA_DCHECK, PA_CHECK.
  replace (raw <=? MaxDirectMapped b) with true by (symmetry; apply Z.leb_le; lia).
  destruct (round_up_bounds raw (SystemPageSize b) Ha) as [R M].
  split; [|split; [exact R | split; [exact M|]]].
  - rewrite Hpage, Align_round_up by (rewrite <- ?Hpage; lia).
    destruct (DCHECK_IS_ON b); reflexivity.
  - intros m Hm Hmod. apply round_up_least; assumption.
Qed.

Lemma GetDirectMapSlotSize_rounds_up_witness :
  exists s,
    GetDirectMapSlotSize counted_build 2000016 = Returns s /\
    2000016 <= s < 2000016 + SystemPageSize counted_build /\
    s mod SystemPageSize counted_build = 0 /\
    (forall m, 2000016 <= m -> m mod SystemPageSize counted_build = 0 -> s <= m).
Proof.
  apply (GetDirectMapSlotSize_rounds_up counted_build 12 2000016).
  - reflexivity.
  - lia.
  - reflexivity.
  - vm_compute. discriminate.
  - vm_compute. split; discriminate.
Defined.

(** X10. The region [GetDirectMapReservedSize] reserves for a raw size
    holds the page-aligned slot of [GetDirectMapSlotSize] together with the
    metadata and guard pages; it is a multiple of the reservation alignment
    (the super page under the 64-bit GigaCage, the allocation granularity
    otherwise) and exceeds the sum by less than one alignment unit. *)
Theorem GetDirectMapReservedSize_holds_slot (b : Build) (k : PageConstants)
    (r : PartitionRoot) (kp ks kg raw : Z) :
  supported b = true ->
  0 <= kp -> SystemPageSize b = 2 ^ kp ->
  kp <= ks -> kSuperPageSize b = 2 ^ ks ->
  kp <= kg -> PageAllocationGranularity k = 2 ^ kg ->
  0 < PartitionPageSize k -> PartitionPageSize k mod SystemPageSize b = 0 ->
  MaxDirectMapped b + PartitionPageSize k + SystemPageSize b
  + kSuperPageSize b + PageAllocationGranularity k <= size_max_plus_1 b ->
  0 <= raw <= MaxDirectMapped b ->
  let alignment :=
    if PA_HAS_64_BITS_POINTERS b && UsesGigaCage b k r then kSuperPageSize b
    else PageAllocationGranularity k in
  let extra := GetDirectMapMetadataAndGuardPagesSize b k in
  exists slot reserved,
    GetDirectMapSlotSize b raw = Returns slot /\
    GetDirectMapReservedSize b k r raw = Returns reserved /\
    slot + extra <= reserved < raw + extra + alignment /\
    reserved mod alignment = 0.
Proof.
  intros Hs Hkp Hpage Hks Hsuper Hkg Hgran Hpp Hppm Hfit Hraw. cbv zeta.
  assert (Hw : 0 <= kBitsPerSizeT b) by (destruct (supported_bits b Hs); lia).
  assert (Ha : 0 < SystemPageSize b) by (rewrite Hpage; apply Z.pow_pos_nonneg; lia).
  assert (HS : 0 < kSuperPageSize b) by (rewrite Hsuper; apply Z.pow_pos_nonneg; lia).
  assert (HG : 0 < PageAllocationGranularity k)
    by (rewrite Hgran; apply Z.pow_pos_nonneg; lia).
  set (extra := GetDirectMapMetadataAndGuardPagesSize b k).
  assert (Hextra : 0 < extra <= PartitionPageSize k + SystemPageSize b
                   /\ extra mod SystemPageSize b = 0).
  { unfold extra, GetDirectMapMetadataAndGuardPagesSize.
    destruct (PA_HAS_64_BITS_POINTERS b).
    - split; [lia | assumption].
    - unfold to_size_t. rewrite Z.mod_small by lia. split; [lia|].
      rewrite <- Zplus_mod_idemp_l, Hppm. apply Z.mod_same. lia. }
  destruct Hextra as [Hex Hexm].
  set (alignment := if PA_HAS_64_BITS_POINTERS b && UsesGigaCage b k r
                    then kSuperPageSize b else PageAllocationGranularity k).
  assert (Hal : exists ka, kp <= ka /\ alignment = 2 ^ ka
                           /\ alignment <= kSuperPageSize b + PageAllocationGranularity k).
  { unfold alignment. destruct (PA_HAS_64_BITS_POINTERS b && UsesGigaCage b k r);
      [exists ks | exists kg]; repeat split; (assumption || lia). }
  destruct Hal as (ka & Hka & Eal & Hab).
  assert (HA : 0 < alignment) by (rewrite Eal; apply Z.pow_pos_nonneg; lia).
  exists (round_up raw (SystemPageSize b)), (round_up (raw + extra) alignment).
  unfold GetDirectMapSlotSize, GetDirectMapReservedSize, PA_DCHECK, PA_CHECK.
  replace (raw <=? MaxDirectMapped b) with true by (symmetry; apply Z.leb_le; lia).
  fold extra. fold alignment.
  destruct (round_up_bounds raw (SystemPageSize b) Ha) as [R M].
  destruct (round_up_bounds (raw + extra) alignment HA) as [R' M'].
  split; [|split; [|split; [split|]]].
  - rewrite Hpage, Align_round_up by (rewrite <- ?Hpage; lia).
    destruct (DCHECK_IS_ON b); reflexivity.
  - unfold to_size_t. rewrite (Z.mod_small (raw + extra)) by lia.
    rewrite Eal, Align_round_up by (rewrite <- ?Eal; lia).
    destruct (DCHECK_IS_ON b); reflexivity.
  - (* the reserved size less the extra pages is a page multiple above [raw] *)
    assert (Hm : (round_up (raw + extra) alignment - extra) mod SystemPageSize b = 0).
    { rewrite Zminus_mod, Hexm, Z.sub_0_r, Z.mod_mod by lia.
      apply (mod_0_trans _ alignment); [assumption | assumption | exact M' |].
      rewrite Eal, Hpage. apply pow2_mod_pow2. lia. }
    pose proof (round_up_least raw (SystemPageSize b)
                  (round_up (raw + extra) alignment - extra) Ha ltac:(lia) Hm).
    lia.
  - lia.
  - exact M'.
Qed.

Lemma GetDirectMapReservedSize_holds_slot_witness :
  let k := mkPageConstants 16384 4096 true in
  let r := roots (counted_heap 8) sample_this in
  let alignment :=
    if PA_HAS_64_BITS_POINTERS counted_build && UsesGigaCage counted_build k r
    then kSuperPageSize counted_build
    else PageAllocationGranularity k in
  let extra := GetDirectMapMetadataAndGuardPagesSize counted_build k in
  exists slot reserved,
    GetDirectMapSlotSize counted_build 2000016 = Returns slot /\
    GetDirectMapReservedSize counted_build k r 2000016 = Returns reserved /\
    slot + extra <= reserved < 2000016 + extra + alignment /\
    reserved mod alignment = 0.
Proof.
  apply (GetDirectMapReservedSize_holds_slot counted_build
           (mkPageConstants 16384 4096 true)
           (roots (counted_heap 8) sample_this) 12 21 12 2000016).
  - reflexivity.
  - lia.
  - reflexivity.
  - lia.
  - reflexivity.
  - lia.
  - reflexivity.
  - reflexivity.
  - reflexivity.
  - vm_compute. discriminate.
  - vm_compute. split; discriminate.
Defined.

(** X11. Metadata lookups depend on the page only: two slot-span
    addresses in the same system page have the same root ([FromSlotSpan]),
    and two pointers into the same super page that the address pools
    classify alike have the same outcome of
    [FromPointerInNormalBucketPool].  For a pointer outside the direct map,
    or where debug checks are off, that outcome is [FromSuperPage] of the
    base [ptr - ptr mod kSuperPageSize] of its super page; a debug build
    ends the process on a pointer the direct map manages. *)
Theorem lookups_depend_on_page
    (IsManagedByPartitionAllocDirectMap : Heap -> Z -> bool)
    (b : Build) (h : Heap) (kp ks s1 s2 p1 p2 : Z) :
  supported b = true ->
  0 <= kp -> SystemPageSize b = 2 ^ kp ->
  0 <= ks -> kSuperPageSize b = 2 ^ ks ->
  is_size_t b s1 -> is_size_t b s2 -> is_size_t b p1 -> is_size_t b p2 ->
  (s1 / SystemPageSize b = s2 / SystemPageSize b ->
   FromSlotSpan b h s1 = FromSlotSpan b h s2) /\
  (p1 / kSuperPageSize b = p2 / kSuperPageSize b ->
   IsManagedByPartitionAllocDirectMap h p1 = IsManagedByPartitionAllocDirectMap h p2 ->
   FromPointerInNormalBucketPool b IsManagedByPartitionAllocDirectMap h p1
   = FromPointerInNormalBucketPool b IsManagedByPartitionAllocDirectMap h p2) /\
  (DCHECK_IS_ON b && IsManagedByPartitionAllocDirectMap h p1 = false ->
   FromPointerInNormalBucketPool b IsManagedByPartitionAllocDirectMap h p1
   = FromSuperPage b h (p1 - p1 mod kSuperPageSize b)) /\
  (DCHECK_IS_ON b && IsManagedByPartitionAllocDirectMap h p1 = true ->
   FromPointerInNormalBucketPool b IsManagedByPartitionAllocDirectMap h p1 = Crashes).
Proof.
  intros Hs Hkp Hpage Hks Hsuper H1 H2 H3 H4.
  assert (Hw : 0 <= kBitsPerSizeT b) by (destruct (supported_bits b Hs); lia).
  assert (Hbase : forall a x y, 0 < a -> x / a = y / a -> x - x mod a = y - y mod a).
  { intros a x y Ha E.
    pose proof (Z.div_mod x a ltac:(lia)). pose proof (Z.div_mod y a ltac:(lia)).
    rewrite E in *. lia. }
  unfold FromSlotSpan, FromPointerInNormalBucketPool, SystemPageBaseMask,
    kSuperPageBaseMask, PA_DCHECK.
  rewrite Hpage, Hsuper, !land_base_mask by assumption.
  split; [|split; [|split]].
  - intros E. f_equal. apply Hbase; [apply Z.pow_pos_nonneg; lia | exact E].
  - intros E M. rewrite M.
    replace (p1 - p1 mod 2 ^ ks) with (p2 - p2 mod 2 ^ ks)
      by (symmetry; apply Hbase; [apply Z.pow_pos_nonneg; lia | exact E]).
    reflexivity.
  - intros D. destruct (DCHECK_IS_ON b); [|reflexivity].
    cbn [andb] in D. rewrite D. reflexivity.
  - intros D. apply andb_true_iff in D as [D M]. rewrite D, M. reflexivity.
Qed.

Lemma lookups_depend_on_page_witness :
  let in_direct_map := fun (_ : Heap) (ptr : Z) => direct_map_slot <=? ptr in
  (sample_span / SystemPageSize debug_build
   = (sample_span + 32) / SystemPageSize debug_build ->
   FromSlotSpan debug_build (debug_heap 8) sample_span
   = FromSlotSpan debug_build (debug_heap 8) (sample_span + 32)) /\
  (sample_slot / kSuperPageSize debug_build
   = (sample_slot + 4096) / kSuperPageSize debug_build ->
   in_direct_map (debug_heap 8) sample_slot
   = in_direct_map (debug_heap 8) (sample_slot + 4096) ->
   FromPointerInNormalBucketPool debug_build in_direct_map (debug_heap 8) sample_slot
   = FromPointerInNormalBucketPool debug_build in_direct_map (debug_heap 8)
       (sample_slot + 4096)) /\
  (DCHECK_IS_ON debug_build && in_direct_map (debug_heap 8) sample_slot = false ->
   FromPointerInNormalBucketPool debug_build in_direct_map (debug_heap 8) sample_slot
   = FromSuperPage debug_build (debug_heap 8)
       (sample_slot - sample_slot mod kSuperPageSize debug_build)) /\
  (DCHECK_IS_ON debug_build && in_direct_map (debug_heap 8) sample_slot = true ->
   FromPointerInNormalBucketPool debug_build in_direct_map (debug_heap 8) sample_slot
   = Crashes).
Proof.
  intros in_direct_map.
  apply (lookups_depend_on_page in_direct_map debug_build (debug_heap 8) 12 21).
  - reflexivity.
  - lia.
  - reflexivity.
  - lia.
  - reflexivity.
  - vm_compute. split; [discriminate | reflexivity].
  - vm_compute. split; [discriminate | reflexivity].
  - vm_compute. split; [discriminate | reflexivity].
  - vm_compute. split; [discriminate | reflexivity].
Defined.

(** * [ActualSize] *)

Lemma bucket_at_sentinel (b : Build) (r : PartitionRoot) :
  supported b = true -> root_ok b r = true ->
  bucket_at r (kNumBuckets b) = sentinel_bucket r.
Proof.
  intros Hs Hr. destruct (table_exists b Hs) as [lk Hlk].
  destruct (root_ok_facts b r Hr) as (Hsz & _).
  pose proof (sizes_length b lk Hs Hlk) as Hlen.
  rewrite (lookup_sizes b lk Hlk), <- Hsz, length_map in Hlen.
  unfold bucket_at. rewrite app_nth2 by lia.
  replace (Z.to_nat (kNumBuckets b) - length (buckets r))%nat with 0%nat by lia.
  reflexivity.
Qed.

Lemma buckets_ok_facts (b : Build) (r : PartitionRoot) (idx : Z) :
  supported b = true -> root_ok b r = true -> buckets_ok r = true ->
  initialized r = true /\
  is_direct_mapped (sentinel_bucket r) = true /\
  slot_size (sentinel_bucket r) = 0 /\
  (0 <= idx < kNumBuckets b -> is_direct_mapped (bucket_at r idx) = false).
Proof.
  intros Hs Hr Hb. unfold buckets_ok in Hb.
  repeat (apply andb_true_iff in Hb as [Hb ?]).
  repeat split; try assumption; [apply Z.eqb_eq; assumption|].
  intros Hidx. destruct (table_exists b Hs) as [lk Hlk].
  destruct (root_ok_facts b r Hr) as (Hsz & _).
  pose proof (sizes_length b lk Hs Hlk) as Hlen.
  rewrite (lookup_sizes b lk Hlk), <- Hsz, length_map in Hlen.
  rewrite forallb_forall in H1.
  apply negb_true_iff, H1.
  unfold bucket_at. rewrite app_nth1 by lia. apply nth_In. lia.
Qed.

(** The value of [ActualSize] in terms of the slot the request would get. *)
Lemma ActualSize_value (b : Build) (r : PartitionRoot) (kp n : Z) :
  build_ok b = true -> MEMORY_TOOL_REPLACES_ALLOCATOR b = false ->
  root_ok b r = true -> buckets_ok r = true ->
  0 <= kp -> SystemPageSize b = 2 ^ kp ->
  MaxDirectMapped b + SystemPageSize b <= size_max_plus_1 b ->
  0 <= n -> n + extras_size r < size_max_plus_1 b ->
  let raw := n + extras_size r in
  exists slot,
    ActualSize b r n = Returns (slot - extras_size r) /\
    raw <= slot /\ slot < size_max_plus_1 b /\
    (raw <= kMaxBucketed ->
     exists i, SizeToBucketIndex b raw = Some i /\ 0 <= i < kNumBuckets b /\
               slot = bucket_size b i /\ slot mod kSmallestBucket b = 0) /\
    (kMaxBucketed < raw <= MaxDirectMapped b ->
     slot = round_up raw (SystemPageSize b)) /\
    (MaxDirectMapped b < raw -> slot = raw).
Proof.
  intros Hbuild Hmt Hr Hbk Hkp Hpage Hfit Hn Hraw. cbv zeta.
  pose proof (build_ok_supported b Hbuild) as Hs.
  pose proof (build_ok_MaxDirectMapped b Hbuild) as HM.
  destruct (table_exists b Hs) as [lk Hlk].
  destruct (root_ok_facts b r Hr) as (_ & Hoff & _ & _).
  destruct (buckets_ok_facts b r 0 Hs Hr Hbk) as (Hinit & Hsd & Hss & _).
  assert (Hw : 0 <= kBitsPerSizeT b) by (destruct (supported_bits b Hs); lia).
  assert (Ha : 0 < SystemPageSize b) by (rewrite Hpage; apply Z.pow_pos_nonneg; lia).
  set (raw := n + extras_size r) in *.
  assert (Hstart :
    forall slot, raw <= slot < size_max_plus_1 b ->
      (exists idx,
         SizeToBucketIndex b raw = Some idx /\ idx <= kNumBuckets b /\
         (slot_size (bucket_at r idx) = 0 \/ raw <= slot_size (bucket_at r idx)) /\
         slot_size (bucket_at r idx) mod kSmallestBucket b = 0 /\
         (if negb (is_direct_mapped (bucket_at r idx))
          then Returns (slot_size (bucket_at r idx))
          else if raw >? MaxDirectMapped b then Returns raw
               else GetDirectMapSlotSize b raw) = Returns slot) ->
      ActualSize b r n = Returns (slot - extras_size r)).
  { intros slot Hslot (idx & Hidx & Hle & Hcov & Hmod & Hsel).
    unfold ActualSize. rewrite Hmt, Hinit, PA_DCHECK_true.
    unfold AdjustSizeForExtrasAdd, to_size_t. fold raw.
    rewrite (Z.mod_small raw) by lia.
    replace (raw >=? n) with true by (symmetry; apply Z.geb_le; lia).
    rewrite PA_DCHECK_true. cbn [bind]. rewrite Hidx.
    replace (idx <=? kNumBuckets b) with true by (symmetry; apply Z.leb_le; lia).
    rewrite PA_DCHECK_true.
    replace ((slot_size (bucket_at r idx) =? 0) || (slot_size (bucket_at r idx) >=? raw))
      with true.
    2:{ symmetry. apply orb_true_iff. destruct Hcov as [E | E];
          [left; apply Z.eqb_eq; exact E | right; apply Z.geb_le; exact E]. }
    rewrite PA_DCHECK_true, Hmod, Z.eqb_refl, PA_DCHECK_true, Hsel. cbn [bind].
    unfold AdjustSizeForExtrasSubtract, to_size_t.
    rewrite Z.mod_small by lia. reflexivity. }
  set (idx := at_index (bucket_index_lookup_ lk) (lookup_position b raw)).
  assert (Hidx : SizeToBucketIndex b raw = Some idx)
    by (apply SizeToBucketIndex_at; (assumption || lia)).
  destruct (Z.le_gt_cases raw kMaxBucketed) as [Hsmall | Hlarge].
  - pose proof (index_bucketed b lk raw Hs Hlk ltac:(lia)) as Hi. fold idx in Hi.
    pose proof (bucket_covers b lk raw Hs Hlk ltac:(lia)) as Hcov. fold idx in Hcov.
    pose proof (sizes_range b lk Hs Hlk idx Hi) as Hrange.
    assert (Hal : at_index (bucket_sizes_ lk) idx mod kSmallestBucket b = 0).
    { destruct (table_entries_aligned b lk Hs Hlk idx) as [E | E]; [|lia | exact E].
      apply in_at_index. apply (position_in_table b lk Hs Hlk). lia. }
    destruct (buckets_ok_facts b r idx Hs Hr Hbk) as (_ & _ & _ & Hnd).
    pose proof (bucket_at_slot_size b lk r idx Hs Hlk Hr Hi) as Hsz.
    exists (at_index (bucket_sizes_ lk) idx).
    split; [|split; [lia | split; [lia | split; [|split]]]].
    + apply Hstart; [lia|]. exists idx.
      rewrite Hsz, (Hnd Hi). cbn [negb].
      repeat split; (assumption || lia || auto).
    + intros _. exists idx. rewrite (bucket_size_at b lk) by assumption.
      repeat split; (assumption || lia).
    + lia.
    + lia.
  - pose proof (index_sentinel b lk raw Hs Hlk ltac:(lia)) as Hi. fold idx in Hi.
    assert (Hbk' : bucket_at r idx = sentinel_bucket r)
      by (rewrite Hi; apply bucket_at_sentinel; assumption).
    destruct (Z.le_gt_cases raw (MaxDirectMapped b)) as [Hmap | Hbig].
    + destruct (round_up_bounds raw (SystemPageSize b) Ha) as [R M].
      exists (round_up raw (SystemPageSize b)).
      split; [|split; [lia | split; [lia | split; [lia | split; [reflexivity | lia]]]]].
      apply Hstart; [lia|]. exists idx.
      rewrite Hbk', Hsd, Hss. cbn [negb].
      replace (raw >? MaxDirectMapped b) with false
        by (symmetry; rewrite Z.gtb_ltb; apply Z.ltb_ge; lia).
      repeat split; try (lia || auto).
      all: try (apply Z.mod_0_l; destruct (kSmallestBucket_pow2 b Hs) as (E & _ & _);
                rewrite E; apply Z.pow_nonzero; [lia | apply Z.log2_nonneg]).
      unfold GetDirectMapSlotSize, PA_DCHECK, PA_CHECK.
      replace (raw <=? MaxDirectMapped b) with true by (symmetry; apply Z.leb_le; lia).
      rewrite Hpage, Align_round_up by (rewrite <- ?Hpage; lia).
      destruct (DCHECK_IS_ON b); reflexivity.
    + exists raw.
      split; [|split; [lia | split; [lia | split; [lia | split; [lia | reflexivity]]]]].
      apply Hstart; [lia|]. exists idx.
      rewrite Hbk', Hsd, Hss. cbn [negb].
      replace (raw >? MaxDirectMapped b) with true
        by (symmetry; rewrite Z.gtb_ltb; apply Z.ltb_lt; lia).
      repeat split; try (lia || auto).
      all: try (apply Z.mod_0_l; destruct (kSmallestBucket_pow2 b Hs) as (E & _ & _);
                rewrite E; apply Z.pow_nonzero; [lia | apply Z.log2_nonneg]).
Qed.

Lemma SizeToBucketIndex_of_bucket_size (p : Platform) (lk : Lookup) (j : Z) :
  supported p = true -> BucketIndexLookup p = Some lk ->
  0 <= j < kNumBuckets p ->
  at_index (bucket_sizes_ lk) j mod kSmallestBucket p = 0 ->
  SizeToBucketIndex p (at_index (bucket_sizes_ lk) j) = Some j.
Proof.
  intros Hs Hlk Hj Hm.
  pose proof (sizes_range p lk Hs Hlk j Hj) as R.
  pose proof (kMaxBucketed_is_size_t p Hs).
  destruct (kSmallestBucket_pow2 p Hs) as (E & _ & _).
  assert (0 < kSmallestBucket p)
    by (rewrite E; apply Z.pow_pos_nonneg; [lia | apply Z.log2_nonneg]).
  rewrite (SizeToBucketIndex_at p lk) by (assumption || lia).
  rewrite (size_round_trip p lk Hs Hlk j Hj Hm). reflexivity.
Qed.

(** X12. [ActualSize(n)] is at least [n] whenever [n] plus the extras does
    not wrap around: it is the slot size of the bucket of the raw size less
    the extras for a bucketed raw size, the raw size rounded up to a system
    page less the extras for a direct-mapped one, and [n] itself ("the size
    unchanged") where the request is too large to allocate. *)
Theorem ActualSize_covers_request (b : Build) (r : PartitionRoot) (kp n : Z) :
  build_ok b = true -> MEMORY_TOOL_REPLACES_ALLOCATOR b = false ->
  root_ok b r = true -> buckets_ok r = true ->
  0 <= kp -> SystemPageSize b = 2 ^ kp ->
  MaxDirectMapped b + SystemPageSize b <= size_max_plus_1 b ->
  0 <= n -> n + extras_size r < size_max_plus_1 b ->
  exists s,
    ActualSize b r n = Returns s /\ n <= s /\
    (n + extras_size r <= kMaxBucketed ->
     exists i, SizeToBucketIndex b (n + extras_size r) = Some i /\
               s = bucket_size b i - extras_size r) /\
    (kMaxBucketed < n + extras_size r <= MaxDirectMapped b ->
     (s + extras_size r) mod SystemPageSize b = 0 /\ s < n + SystemPageSize b) /\
    (MaxDirectMapped b < n + extras_size r -> s = n).
Proof.
  intros Hbuild Hmt Hr Hbk Hkp Hpage Hfit Hn Hraw.
  destruct (ActualSize_value b r kp n Hbuild Hmt Hr Hbk Hkp Hpage Hfit Hn Hraw)
    as (slot & E & Hcov & _ & Hb1 & Hb2 & Hb3).
  assert (Ha : 0 < SystemPageSize b) by (rewrite Hpage; apply Z.pow_pos_nonneg; lia).
  exists (slot - extras_size r).
  split; [exact E|]. split; [lia|]. split; [|split].
  - intros H. destruct (Hb1 H) as (i & Hi & _ & Hsl & _). exists i. split; [exact Hi | lia].
  - intros H. rewrite (Hb2 H).
    destruct (round_up_bounds (n + extras_size r) (SystemPageSize b) Ha) as [R M].
    replace (round_up (n + extras_size r) (SystemPageSize b) - extras_size r
             + extras_size r)
      with (round_up (n + extras_size r) (SystemPageSize b)) by lia.
    split; [exact M | lia].
  - intros H. rewrite (Hb3 H). lia.
Qed.

Lemma ActualSize_covers_request_witness :
  exists s,
    ActualSize counted_build (roots (counted_heap 8) sample_this) 100 = Returns s /\
    100 <= s /\
    (100 + extras_size (roots (counted_heap 8) sample_this) <= kMaxBucketed ->
     exists i,
       SizeToBucketIndex counted_build
         (100 + extras_size (roots (counted_heap 8) sample_this)) = Some i /\
       s = bucket_size counted_build i
           - extras_size (roots (counted_heap 8) sample_this)) /\
    (kMaxBucketed < 100 + extras_size (roots (counted_heap 8) sample_this)
     <= MaxDirectMapped counted_build ->
     (s + extras_size (roots (counted_heap 8) sample_this))
     mod SystemPageSize counted_build = 0
     /\ s < 100 + SystemPageSize counted_build) /\
    (MaxDirectMapped counted_build
     < 100 + extras_size (roots (counted_heap 8) sample_this) -> s = 100).
Proof.
  apply (ActualSize_covers_request counted_build
           (roots (counted_heap 8) sample_this) 12 100).
  - reflexivity.
  - reflexivity.
  - vm_compute. reflexivity.
  - vm_compute. reflexivity.
  - lia.
  - reflexivity.
  - vm_compute. discriminate.
  - lia.
  - vm_compute. reflexivity.
Defined.

(** X13. [ActualSize] is idempotent: the size it reports for a request is
    reported again when that size is asked for, so a container grown to
    [ActualSize(n)] bytes wastes nothing. *)
Theorem ActualSize_idempotent (b : Build) (r : PartitionRoot) (kp n s : Z) :
  build_ok b = true -> MEMORY_TOOL_REPLACES_ALLOCATOR b = false ->
  root_ok b r = true -> buckets_ok r = true ->
  0 <= kp -> SystemPageSize b = 2 ^ kp ->
  MaxDirectMapped b + SystemPageSize b <= size_max_plus_1 b ->
  0 <= n -> n + extras_size r < size_max_plus_1 b ->
  ActualSize b r n = Returns s ->
  ActualSize b r s = Returns s.
Proof.
  intros Hbuild Hmt Hr Hbk Hkp Hpage Hfit Hn Hraw Hret.
  pose proof (build_ok_supported b Hbuild) as Hs.
  pose proof (build_ok_MaxDirectMapped b Hbuild) as HM.
  destruct (table_exists b Hs) as [lk Hlk].
  destruct (root_ok_facts b r Hr) as (_ & Hoff & _ & _).
  assert (Ha : 0 < SystemPageSize b) by (rewrite Hpage; apply Z.pow_pos_nonneg; lia).
  destruct (ActualSize_value b r kp n Hbuild Hmt Hr Hbk Hkp Hpage Hfit Hn Hraw)
    as (slot & E & Hcov & Hlt & Hb1 & Hb2 & Hb3).
  rewrite E in Hret. injection Hret as <-.
  destruct (ActualSize_value b r kp (slot - extras_size r) Hbuild Hmt Hr Hbk Hkp
              Hpage Hfit ltac:(lia) ltac:(lia))
    as (slot' & E' & _ & _ & Hc1 & Hc2 & Hc3).
  replace (slot - extras_size r + extras_size r) with slot in * by lia.
  rewrite E'. do 2 f_equal.
  destruct (Z.le_gt_cases (n + extras_size r) kMaxBucketed) as [Hsmall | Hlarge].
  - destruct (Hb1 Hsmall) as (i & _ & Hi & Hsl & Hal).
    rewrite (bucket_size_at b lk) in Hsl by assumption.
    pose proof (sizes_range b lk Hs Hlk i Hi) as R. rewrite <- Hsl in R.
    destruct (Hc1 ltac:(lia)) as (i' & Hi' & _ & Hsl' & _).
    rewrite Hsl in Hi', Hal.
    rewrite (SizeToBucketIndex_of_bucket_size b lk i Hs Hlk Hi Hal) in Hi'.
    injection Hi' as <-.
    rewrite (bucket_size_at b lk) in Hsl' by assumption. congruence.
  - destruct (Z.le_gt_cases (n + extras_size r) (MaxDirectMapped b)) as [Hmap | Hbig].
    + pose proof (Hb2 (conj Hlarge Hmap)) as Hsl.
      destruct (round_up_bounds (n + extras_size r) (SystemPageSize b) Ha) as [R M].
      rewrite <- Hsl in R, M.
      destruct (Z.le_gt_cases slot (MaxDirectMapped b)) as [Hmap' | Hbig'].
      * rewrite (Hc2 ltac:(lia)). apply round_up_fixed; assumption.
      * apply Hc3. lia.
    + rewrite (Hb3 Hbig) in *. apply Hc3. lia.
Qed.

Lemma ActualSize_idempotent_witness :
  ActualSize counted_build (roots (counted_heap 8) sample_this) 112 = Returns 112.
Proof.
  apply (ActualSize_idempotent counted_build
           (roots (counted_heap 8) sample_this) 12 100 112).
  - reflexivity.
  - reflexivity.
  - vm_compute. reflexivity.
  - vm_compute. reflexivity.
  - lia.
  - reflexivity.
  - vm_compute. discriminate.
  - lia.
  - vm_compute. reflexivity.
  - vm_compute. reflexivity.
Defined.

(** * The slot an allocation sets up *)

Lemma memset_outside (m : Z -> Z) (dst v n a : Z) :
  a < dst \/ dst + n <= a -> memset m dst v n a = m a.
Proof.
  intros Ha. unfold memset.
  destruct (Z.leb_spec dst a), (Z.ltb_spec a (dst + n)); cbn [andb]; try reflexivity.
  lia.
Qed.

Lemma read_bytes_ext (m m' : Z -> Z) (n : nat) (src : Z) :
  (forall a, src <= a < src + Z.of_nat n -> m a = m' a) ->
  read_bytes m src n = read_bytes m' src n.
Proof.
  revert src. induction n as [|n IH]; intros src H; [reflexivity|].
  cbn [read_bytes]. f_equal.
  - apply H. lia.
  - apply IH. intros a Ha. apply H. lia.
Qed.

Lemma read_write_bytes (bs : list Z) (m : Z -> Z) (dst : Z) :
  read_bytes (write_bytes m dst bs) dst (length bs) = bs.
Proof.
  revert m dst. induction bs as [|x bs IH]; intros m dst; [reflexivity|].
  cbn [write_bytes length read_bytes]. f_equal.
  - rewrite write_bytes_outside by lia. unfold update. rewrite Z.eqb_refl. reflexivity.
  - apply IH.
Qed.

Lemma extras_layout_facts (b : Build) (r : PartitionRoot) :
  extras_layout_ok b r = true ->
  let cookie := if DCHECK_IS_ON b && allow_cookies r then kCookieSize b else 0 in
  let count := if ENABLE_REF_COUNT_FOR_BACKUP_REF_PTR b && allow_ref_count r
               then kRefCountSize b else 0 in
  extras_offset r = count + cookie /\ extras_size r = count + 2 * cookie /\
  0 <= cookie /\ 0 <= count.
Proof.
  unfold extras_layout_ok. cbv zeta. intros H.
  apply andb_true_iff in H as [H1 H2]. apply Z.eqb_eq in H1, H2.
  repeat split; try assumption.
  - destruct (DCHECK_IS_ON b && allow_cookies r); unfold kCookieSize; lia.
  - destruct (ENABLE_REF_COUNT_FOR_BACKUP_REF_PTR b && allow_ref_count r);
      unfold kRefCountSize; lia.
Qed.

Lemma extras_layout_same_config (b : Build) (r r' : PartitionRoot) :
  same_config r r' -> extras_layout_ok b r' = extras_layout_ok b r.
Proof.
  intros (E1 & E2 & E3 & E4). unfold extras_layout_ok. rewrite E1, E2, E3, E4.
  reflexivity.
Qed.

(** What the tail of [AllocFlagsNoHooks] leaves in memory for the slot
    [[ret, ret + u)]: nothing outside the slot is written; in a build that
    writes cookies both are in place around the usable region; a debug build
    fills a region that was not asked to be zero with [kUninitializedByte]. *)
Lemma set_up_slot_memory (b : Build) (this flags raw ret u : Z) (z : bool)
    (h1 : Heap) :
  let r := roots h1 this in
  let p := ret + extras_offset r in
  let usable := u - extras_size r in
  let h' := snd (set_up_slot b this flags raw ret u z h1) in
  extras_layout_ok b r = true ->
  0 < ret -> ret + u <= size_max_plus_1 b -> extras_size r <= u ->
  p < size_max_plus_1 b ->
  fst (set_up_slot b this flags raw ret u z h1) = p /\
  (forall a, a < ret \/ ret + u <= a -> mem h' a = mem h1 a) /\
  (DCHECK_IS_ON b = true -> allow_cookies r = true ->
   read_bytes (mem h') (p - kCookieSize b) (length (kCookieValue b)) = kCookieValue b /\
   read_bytes (mem h') (p + usable) (length (kCookieValue b)) = kCookieValue b) /\
  (DCHECK_IS_ON b = true -> has_flag flags PartitionAllocZeroFill = false ->
   forall a, p <= a < p + usable -> mem h' a = kUninitializedByte b).
Proof.
  intros r p usable h' Hlay Hret Hfit Hes Hplt.
  destruct (extras_layout_facts b r Hlay) as (Eo & Es & Hck & Hct).
  set (cookie := if DCHECK_IS_ON b && allow_cookies r then kCookieSize b else 0) in *.
  set (count := if ENABLE_REF_COUNT_FOR_BACKUP_REF_PTR b && allow_ref_count r
                then kRefCountSize b else 0) in *.
  assert (Hp : AdjustPointerForExtrasAdd b r ret = p).
  { unfold AdjustPointerForExtrasAdd, to_size_t. apply Z.mod_small.
    unfold p in *. lia. }
  assert (Hu : AdjustSizeForExtrasSubtract b r u = usable).
  { unfold AdjustSizeForExtrasSubtract, to_size_t, usable. apply Z.mod_small. lia. }
  subst h'. unfold set_up_slot. cbv zeta. fold r. rewrite Hp, Hu. cbn [fst snd].
  set (h2 := if DCHECK_IS_ON b && allow_cookies r
             then PartitionCookieWriteValue b
                    (PartitionCookieWriteValue b h1 (p - kCookieSize b)) (p + usable)
             else h1).
  set (h3 := fill_region b flags z p usable h2).
  set (h4 := if ENABLE_REF_COUNT_FOR_BACKUP_REF_PTR b
             then if allow_ref_count r && negb (raw >? kMaxBucketed)
                  then PartitionRefCountConstruct b h3 (PartitionRefCountPointer ret)
                  else h3
             else h3).
  (* the three writes, each away from the addresses the later ones touch *)
  assert (H2 : forall a, a < p - cookie \/ p + usable + cookie <= a \/ p <= a < p + usable ->
                         mem h2 a = mem h1 a).
  { intros a Ha. subst h2 cookie.
    destruct (DCHECK_IS_ON b && allow_cookies r); [|reflexivity].
    unfold PartitionCookieWriteValue. cbn [mem set_mem].
    rewrite !write_bytes_outside; [reflexivity | |]; unfold kCookieSize in *; lia. }
  assert (H3 : forall a, a < p \/ p + usable <= a -> mem h3 a = mem h2 a).
  { intros a Ha. subst h3. unfold fill_region.
    destruct (negb (has_flag flags PartitionAllocZeroFill)).
    - destruct (DCHECK_IS_ON b); [|reflexivity].
      cbn [mem set_mem]. apply memset_outside. exact Ha.
    - destruct (negb z); [|reflexivity].
      cbn [mem set_mem]. apply memset_outside. exact Ha. }
  assert (H4 : forall a, a < ret \/ ret + count <= a -> mem h4 a = mem h3 a).
  { intros a Ha. subst h4 count.
    destruct (ENABLE_REF_COUNT_FOR_BACKUP_REF_PTR b); [|reflexivity].
    destruct (allow_ref_count r); cbn [andb] in *; [|reflexivity].
    destruct (negb (raw >? kMaxBucketed)); [|reflexivity].
    unfold PartitionRefCountConstruct, PartitionRefCountPointer. cbn [mem set_mem].
    apply write_bytes_outside. unfold kRefCountSize in *. lia. }
  split; [reflexivity|]. split; [|split].
  - intros a Ha. rewrite H4, H3, H2 by (unfold p, usable in *; lia). reflexivity.
  - intros Hd Hc.
    assert (Ecookie : cookie = kCookieSize b) by (subst cookie; rewrite Hd, Hc; reflexivity).
    assert (E2 : h2 = PartitionCookieWriteValue b
                        (PartitionCookieWriteValue b h1 (p - kCookieSize b)) (p + usable))
      by (subst h2; rewrite Hd, Hc; reflexivity).
    split.
    + rewrite <- (read_write_bytes (kCookieValue b) (mem h1) (p - kCookieSize b)) at 2.
      apply read_bytes_ext. intros a Ha. fold (kCookieSize b) in Ha.
      rewrite H4, H3 by (unfold p, usable in *; lia).
      rewrite E2. unfold PartitionCookieWriteValue. cbn [mem set_mem].
      apply write_bytes_outside. fold (kCookieSize b). unfold usable. lia.
    + rewrite <- (read_write_bytes (kCookieValue b)
                    (mem (PartitionCookieWriteValue b h1 (p - kCookieSize b)))
                    (p + usable)) at 2.
      apply read_bytes_ext. intros a Ha. fold (kCookieSize b) in Ha.
      rewrite H4, H3 by (unfold p, usable in *; lia).
      rewrite E2. reflexivity.
  - intros Hd Hz a Ha.
    rewrite H4 by (unfold p in *; lia).
    subst h3. unfold fill_region. rewrite Hz, Hd. cbn [negb mem set_mem].
    apply memset_inside. exact Ha.
Qed.

(** The slot behind a pointer that [AllocFlagsNoHooks] returned: where it
    lies, what the metadata says of it afterwards, and what its bytes
    hold. *)
Lemma allocated_slot (C : Collaborators) (b : Build) (this flags n : Z)
    (h : Heap) (p : Z) (h' : Heap) :
  build_ok b = true -> CollaboratorsSpec C b ->
  heap_ok b this h = true -> is_size_t b n ->
  extras_layout_ok b (roots h this) = true ->
  AllocFlagsNoHooks C b this flags n h = Returns (p, h') -> p <> 0 ->
  let r := roots h this in
  exists ret u h1,
    0 < ret /\ ret + u <= size_max_plus_1 b /\
    initial_raw_size b n + extras_size r <= u /\
    p = ret + extras_offset r /\ p < size_max_plus_1 b /\
    same_config r (roots h' this) /\
    FromSlotSpan b h' (FromPointerNoAlignmentCheck h' p) = this /\
    GetUtilizedSlotSize h' (FromPointerNoAlignmentCheck h' p) = u /\
    GetUsableSize b h' p = u - extras_size r /\
    (forall a, a < ret \/ ret + u <= a -> mem h' a = mem h1 a) /\
    (DCHECK_IS_ON b = true -> allow_cookies r = true ->
     read_bytes (mem h') (p - kCookieSize b) (length (kCookieValue b)) = kCookieValue b /\
     read_bytes (mem h') (p + (u - extras_size r)) (length (kCookieValue b))
     = kCookieValue b) /\
    (DCHECK_IS_ON b = true -> has_flag flags PartitionAllocZeroFill = false ->
     forall a, p <= a < p + (u - extras_size r) -> mem h' a = kUninitializedByte b).
Proof.
  intros Hbuild Hspec Hok Hn Hlay Hret Hp. cbv zeta.
  destruct (table_exists b (build_ok_supported b Hbuild)) as [lk Hlk].
  destruct (allocation_layout C b lk Hbuild Hspec Hlk this flags n h p h' Hok Hn Hret Hp)
    as (ret & u & z & h1 & Hres & Hset & Hpos & Hfit & Hcover & Hptr & Hplt & Hcfg
        & Hutil & Huse).
  destruct Hres as [Hcfg1 Hslot].
  assert (Hnz : ret <> 0) by lia.
  destruct (Hslot Hnz) as (_ & (_ & _ & Hroot & _) & _).
  pose proof Hcfg1 as (Hes & Heo & _ & Hack).
  pose proof (initial_raw_size_range b Hbuild n Hn) as Hn0.
  pose proof (set_up_slot_frame b this flags
                (initial_raw_size b n + extras_size (roots h this)) ret u z h1) as Hframe.
  pose proof (set_up_slot_memory b this flags
                (initial_raw_size b n + extras_size (roots h this)) ret u z h1) as Hmem.
  cbv zeta in Hframe, Hmem. rewrite Hset in Hframe, Hmem. cbn [fst snd] in Hframe, Hmem.
  destruct Hframe as (Fr & Fs & Fb & Fe & Fp & _).
  rewrite Hes, Heo, Hack in Hmem.
  rewrite (extras_layout_same_config b _ _ Hcfg1) in Hmem.
  unfold is_size_t in Hn.
  destruct (Hmem Hlay Hpos Hfit ltac:(lia) ltac:(lia)) as (_ & Hfr & Hck & Hun).
  rewrite <- Hptr in Hck, Hun.
  exists ret, u, h1.
  split; [exact Hpos|]. split; [exact Hfit|]. split; [exact Hcover|].
  split; [exact Hptr|]. split; [exact Hplt|]. split; [exact Hcfg|].
  split; [|split; [exact Hutil|]; split; [exact Huse|]; split; [exact Hfr|];
           split; [exact Hck | exact Hun]].
  unfold FromSlotSpan, FromPointerNoAlignmentCheck. rewrite Fe, Fp.
  replace p with (AdjustPointerForExtrasAdd b (roots h1 this) ret); [exact Hroot|].
  unfold AdjustPointerForExtrasAdd, to_size_t. rewrite Heo, <- Hptr.
  destruct (root_ok_facts b _ (heap_ok_root b this h Hok)) as (_ & Hoff & _).
  apply Z.mod_small. lia.
Qed.

Lemma direct_mapping_debug : CollaboratorsSpec (direct_mapping debug_build) debug_build.
Proof. apply direct_mapping_spec; [reflexivity | vm_compute; discriminate]. Qed.

(** X14. In a debug build, an allocation that was not asked to be zero
    leaves every byte of the usable region [[p, p + GetUsableSize(p))] at
    [kUninitializedByte]. *)
Theorem debug_fill_uninitialized (C : Collaborators) (b : Build)
    (this flags n : Z) (h : Heap) (p : Z) (h' : Heap) (a : Z) :
  build_ok b = true -> CollaboratorsSpec C b ->
  heap_ok b this h = true -> is_size_t b n ->
  extras_layout_ok b (roots h this) = true ->
  DCHECK_IS_ON b = true -> has_flag flags PartitionAllocZeroFill = false ->
  allocation_returns C b this flags n h p h' -> p <> 0 ->
  p <= a < p + GetUsableSize b h' p ->
  mem h' a = kUninitializedByte b.
Proof.
  intros Hbuild Hspec Hok Hn Hlay Hd Hz Hret Hp Ha.
  apply allocation_returns_no_hooks in Hret.
  destruct (allocated_slot C b this flags n h p h' Hbuild Hspec Hok Hn Hlay Hret Hp)
    as (ret & u & h1 & _ & _ & _ & _ & _ & _ & _ & _ & Huse & _ & _ & Hun).
  rewrite Huse in Ha. apply Hun; assumption.
Qed.

Lemma debug_fill_uninitialized_witness :
  mem (debug_alloc_heap 0 100 25) (sample_slot + 16 + 99) = kUninitializedByte debug_build.
Proof.
  apply (debug_fill_uninitialized (direct_mapping debug_build) debug_build
           sample_this 0 100 (debug_heap 25) (sample_slot + 16)).
  - reflexivity.
  - apply direct_mapping_debug.
  - vm_compute. reflexivity.
  - vm_compute. split; [discriminate | reflexivity].
  - vm_compute. reflexivity.
  - reflexivity.
  - vm_compute. reflexivity.
  - left. apply returns_pointer_of. vm_compute. reflexivity.
  - vm_compute. discriminate.
  - vm_compute. split; [discriminate | reflexivity].
Defined.

(** X15. Freeing what was allocated hands the slot back: for a pointer [p]
    that the root returned, whatever the application wrote into its usable
    region, [FreeNoHooks(p)] finds the root again, passes both cookie checks
    of a debug build, and gives the start [p - extras_offset] of the slot to
    [RawFreeWithThreadCache], the utilized part of the slot filled with
    [kFreedByte] in a debug build (on a root without reference counts and
    with scanning off). *)
Theorem free_hands_back_the_slot (C : Collaborators) (b : Build)
    (this flags n : Z) (h : Heap) (p : Z) (h' : Heap) (m : Z -> Z) :
  build_ok b = true -> CollaboratorsSpec C b ->
  heap_ok b this h = true -> is_size_t b n ->
  extras_layout_ok b (roots h this) = true ->
  ENABLE_REF_COUNT_FOR_BACKUP_REF_PTR b && allow_ref_count (roots h this) = false ->
  allocation_returns C b this flags n h p h' -> p <> 0 ->
  inverted_self (roots h' this) = bitwise_not b this ->
  IsScanEnabled (roots h' this) = false ->
  FromPointerNoAlignmentCheck h' p <> 0 ->
  (forall a, a < p \/ p + GetUsableSize b h' p <= a -> m a = mem h' a) ->
  let slot_span := FromPointerNoAlignmentCheck h' p in
  let slot_start := p - extras_offset (roots h' this) in
  let utilized := GetUsableSize b h' p + extras_size (roots h' this) in
  FreeNoHooks C b p (set_mem h' m)
  = RawFreeWithThreadCache C b this slot_start slot_span
      (if DCHECK_IS_ON b
       then set_mem h' (memset m slot_start (kFreedByte b) utilized)
       else set_mem h' m).
Proof.
  intros Hbuild Hspec Hok Hn Hlay Hrc Hret Hp Hinv Hscan Hsp Hm. cbv zeta.
  apply allocation_returns_no_hooks in Hret.
  destruct (allocated_slot C b this flags n h p h' Hbuild Hspec Hok Hn Hlay Hret Hp)
    as (ret & u & h1 & Hpos & Hfit & Hcover & Hptr & Hplt & Hcfg & Hroot & Hutil
        & Huse & _ & Hck & _).
  destruct Hcfg as (Hes & Heo & Harc & Hack).
  destruct (root_ok_facts b _ (heap_ok_root b this h Hok)) as (_ & Hoff & _).
  pose proof (initial_raw_size_range b Hbuild n Hn) as Hn0.
  unfold is_size_t in Hn.
  set (sp := FromPointerNoAlignmentCheck h' p) in *.
  set (hm := set_mem h' m).
  assert (Hvalid : IsValidSlotSpan b hm sp = true).
  { unfold IsValidSlotSpan. change (FromSlotSpan b hm sp) with (FromSlotSpan b h' sp).
    rewrite Hroot. change (roots hm this) with (roots h' this).
    rewrite Hinv. apply Z.eqb_refl. }
  unfold FreeNoHooks.
  replace (p =? 0) with false by (symmetry; apply Z.eqb_neq; exact Hp).
  change (FromPointerNoAlignmentCheck hm p) with sp.
  rewrite Hvalid, PA_DCHECK_true.
  change (FromSlotSpan b hm sp) with (FromSlotSpan b h' sp). rewrite Hroot.
  change (roots hm this) with (roots h' this). rewrite Hscan. cbn [andb].
  unfold FreeNoHooksImmediate.
  replace (negb (p =? 0)) with true
    by (symmetry; apply negb_true_iff, Z.eqb_neq; exact Hp).
  replace (negb (sp =? 0)) with true
    by (symmetry; apply negb_true_iff, Z.eqb_neq; exact Hsp).
  rewrite !PA_DCHECK_true, Hvalid, PA_DCHECK_true.
  change (roots hm this) with (roots h' this).
  change (GetUtilizedSlotSize hm sp) with (GetUtilizedSlotSize h' sp).
  rewrite Hutil.
  assert (Eu : AdjustSizeForExtrasSubtract b (roots h' this) u
               = u - extras_size (roots h this)).
  { unfold AdjustSizeForExtrasSubtract, to_size_t. rewrite Hes.
    apply Z.mod_small. lia. }
  assert (Es : AdjustPointerForExtrasSubtract b (roots h' this) p
               = p - extras_offset (roots h' this)).
  { unfold AdjustPointerForExtrasSubtract, to_size_t. apply Z.mod_small.
    rewrite Heo. lia. }
  rewrite Eu, Es.
  assert (Hcookies :
    (if DCHECK_IS_ON b && allow_cookies (roots h' this)
     then _ <- PartitionCookieCheckValue b hm (p - kCookieSize b) ;;
          PartitionCookieCheckValue b hm (p + (u - extras_size (roots h this)))
     else Returns tt) = Returns tt).
  { destruct (DCHECK_IS_ON b) eqn:Hd; [|reflexivity].
    destruct (allow_cookies (roots h' this)) eqn:Hc; [|reflexivity].
    cbn [andb].
    assert (Hc' : allow_cookies (roots h this) = true) by congruence.
    destruct (Hck eq_refl Hc') as [Hc1 Hc2].
    unfold PartitionCookieCheckValue. change (mem hm) with m.
    rewrite (read_bytes_ext m (mem h')), Hc1, list_Z_eqb_refl, PA_DCHECK_true.
    - rewrite (read_bytes_ext m (mem h')), Hc2, list_Z_eqb_refl.
      + unfold PA_DCHECK, PA_CHECK. rewrite Hd. reflexivity.
      + intros a Ha. apply Hm. rewrite Huse. lia.
    - intros a Ha. apply Hm. fold (kCookieSize b) in Ha. lia. }
  rewrite Hcookies. cbn [bind].
  replace (ENABLE_REF_COUNT_FOR_BACKUP_REF_PTR b
           && (allow_ref_count (roots h' this)
               && negb (is_direct_mapped (load_bucket hm (bucket (slot_spans hm sp))))))
    with false.
  2:{ rewrite Harc. destruct (ENABLE_REF_COUNT_FOR_BACKUP_REF_PTR b); [|reflexivity].
      cbn [andb] in Hrc |- *. rewrite Hrc. reflexivity. }
  cbn [negb]. rewrite Huse, Hes.
  replace (u - extras_size (roots h this) + extras_size (roots h this)) with u by lia.
  destruct (DCHECK_IS_ON b); reflexivity.
Qed.

Lemma free_hands_back_the_slot_witness :
  let slot_span := FromPointerNoAlignmentCheck (debug_alloc_heap 0 100 25) (sample_slot + 16) in
  let slot_start :=
    sample_slot + 16 - extras_offset (roots (debug_alloc_heap 0 100 25) sample_this) in
  let utilized :=
    GetUsableSize debug_build (debug_alloc_heap 0 100 25) (sample_slot + 16)
    + extras_size (roots (debug_alloc_heap 0 100 25) sample_this) in
  FreeNoHooks (direct_mapping debug_build) debug_build (sample_slot + 16)
    (set_mem (debug_alloc_heap 0 100 25) (mem (debug_alloc_heap 0 100 25)))
  = RawFreeWithThreadCache (direct_mapping debug_build) debug_build sample_this
      slot_start slot_span
      (if DCHECK_IS_ON debug_build
       then set_mem (debug_alloc_heap 0 100 25)
              (memset (mem (debug_alloc_heap 0 100 25)) slot_start
                 (kFreedByte debug_build) utilized)
       else set_mem (debug_alloc_heap 0 100 25) (mem (debug_alloc_heap 0 100 25))).
Proof.
  apply (free_hands_back_the_slot (direct_mapping debug_build) debug_build
           sample_this 0 100 (debug_heap 25)).
  - reflexivity.
  - apply direct_mapping_debug.
  - vm_compute. reflexivity.
  - vm_compute. split; [discriminate | reflexivity].
  - vm_compute. reflexivity.
  - reflexivity.
  - left. apply returns_pointer_of. vm_compute. reflexivity.
  - vm_compute. discriminate.
  - vm_compute. reflexivity.
  - vm_compute. reflexivity.
  - vm_compute. discriminate.
  - intros a Ha. reflexivity.
Defined.

(** X16. A damaged cookie stops the free: in a debug build, on a root that
    writes cookies, [FreeNoHooksImmediate] ends the process when the bytes
    before the pointer or the bytes after the usable region are not the
    cookie, before the slot is released. *)
Theorem damaged_cookie_aborts_free (C : Collaborators) (b : Build)
    (this ptr slot_span : Z) (h : Heap) :
  DCHECK_IS_ON b = true -> allow_cookies (roots h this) = true ->
  let usable_size :=
    AdjustSizeForExtrasSubtract b (roots h this) (GetUtilizedSlotSize h slot_span) in
  read_bytes (mem h) (ptr - kCookieSize b) (length (kCookieValue b)) <> kCookieValue b
  \/ read_bytes (mem h) (ptr + usable_size) (length (kCookieValue b)) <> kCookieValue b ->
  FreeNoHooksImmediate C b this ptr slot_span h = Crashes.
Proof.
  intros Hd Hc usable Hbad.
  assert (Hcheck : forall a, read_bytes (mem h) a (length (kCookieValue b)) <> kCookieValue b ->
                             PartitionCookieCheckValue b h a = Crashes).
  { intros a Ha. unfold PartitionCookieCheckValue, PA_DCHECK, PA_CHECK. rewrite Hd.
    destruct (list_Z_eqb _ _) eqn:E; [|reflexivity].
    apply list_Z_eqb_eq in E. contradiction. }
  unfold FreeNoHooksImmediate, PA_DCHECK, PA_CHECK. rewrite Hd, Hc. cbn [andb].
  destruct (negb (ptr =? 0)); [|reflexivity].
  destruct (negb (slot_span =? 0)); [|reflexivity].
  destruct (IsValidSlotSpan b h slot_span); [|reflexivity].
  cbn [bind]. fold usable.
  destruct Hbad as [Hbad | Hbad].
  - rewrite (Hcheck _ Hbad). reflexivity.
  - rewrite (Hcheck _ Hbad).
    destruct (PartitionCookieCheckValue b h (ptr - kCookieSize b)); reflexivity.
Qed.

Lemma damaged_cookie_aborts_free_witness :
  FreeNoHooksImmediate (direct_mapping debug_build) debug_build sample_this
    (sample_slot + 16) sample_span (debug_heap 25) = Crashes.
Proof.
  apply (damaged_cookie_aborts_free (direct_mapping debug_build) debug_build
           sample_this (sample_slot + 16) sample_span (debug_heap 25)).
  - reflexivity.
  - vm_compute. reflexivity.
  - left. vm_compute. discriminate.
Defined.

(** * Allocation from the free list *)

(** On a root that does not use a thread cache, a request whose bucket has
    a free slot at the head of its active span is served by that slot: the
    span's head advances and its count of allocated slots grows by one, and
    the slot is set up. *)
Lemma AllocFlagsNoHooks_free_list (C : Collaborators) (b : Build)
    (this flags n idx : Z) (h : Heap) (p : Z) (h' : Heap) :
  build_ok b = true -> heap_ok b this h = true -> is_size_t b n ->
  is_thread_safe (roots h this) && with_thread_cache (roots h this) = false ->
  let r := roots h this in
  let raw := initial_raw_size b n + extras_size r in
  let bk := bucket_at r idx in
  let sp := active_slot_spans_head bk in
  let s := slot_spans h sp in
  SizeToBucketIndex b raw = Some idx ->
  freelist_head s <> 0 ->
  AllocFlagsNoHooks C b this flags n h = Returns (p, h') ->
  raw < size_max_plus_1 b /\
  (p, h') = set_up_slot b this flags raw (freelist_head s) (slot_size bk) false
              (set_slot_span h sp
                 (mkSlotSpan (FreelistGetNext C h (freelist_head s))
                             (num_allocated_slots s + 1) (bucket s) (raw_size s))).
Proof.
  intros Hbuild Hok Hn Htc r raw bk sp s Hidx Hhead H.
  pose proof (heap_ok_root b this h Hok) as Hr.
  pose proof (initial_raw_size_range b Hbuild n Hn) as Hn0.
  destruct (root_ok_facts b _ Hr) as (_ & Hoff & _).
  unfold AllocFlagsNoHooks, AdjustSizeForExtrasAdd in H. cbv zeta in H.
  apply bind_Returns in H as [raw' [Hadd H]].
  apply PA_DCHECK_bind in Hadd. inversion Hadd as [Hraw']. clear Hadd.
  apply PA_CHECK_bind in H as [Hcheck H].
  rewrite <- Hraw' in Hcheck.
  apply (raw_size_check b Hbuild _ n Hr Hn) in Hcheck.
  assert (Hsmall : to_size_t b (initial_raw_size b n + extras_size (roots h this)) = raw)
    by (apply Z.mod_small; unfold is_size_t in *; subst raw r; lia).
  rewrite Hsmall in Hraw'. subst raw'.
  split; [exact Hcheck|].
  rewrite Hidx in H.
  apply bind_Returns in H as [[[[ret u] z] h1] [Htake H]].
  unfold take_slot in Htake. rewrite Htc in Htake.
  unfold RawAlloc, AllocFromBucket in Htake. cbn [load_bucket] in Htake.
  fold r bk sp s in Htake.
  do 2 apply PA_DCHECK_bind in Htake.
  replace (negb (freelist_head s =? 0)) with true in Htake
    by (symmetry; apply negb_true_iff, Z.eqb_neq; exact Hhead).
  do 4 apply PA_DCHECK_bind in Htake.
  apply Returns_triple in Htake as (Hq & Hz & Hh1).
  injection Hq as -> ->.
  subst h1 z.
  replace (freelist_head s =? 0) with false in H by (symmetry; apply Z.eqb_neq; exact Hhead).
  symmetry. congruence.
Qed.

Lemma free_list_slot_facts (b : Build) (this raw idx : Z) (h : Heap) :
  build_ok b = true -> heap_ok b this h = true -> is_size_t b raw ->
  let r := roots h this in
  let bk := bucket_at r idx in
  let sp := active_slot_spans_head bk in
  let s := slot_spans h sp in
  SizeToBucketIndex b raw = Some idx ->
  freelist_head s <> 0 ->
  0 <= idx < kNumBuckets b /\ 0 < freelist_head s /\
  freelist_head s + slot_size bk <= size_max_plus_1 b /\
  span_of h (AdjustPointerForExtrasAdd b r (freelist_head s)) = sp /\
  FromSlotSpan b h sp = this /\ raw_size s = None /\ bucket s = RootBucket this idx /\
  raw <= slot_size bk /\ raw <= kMaxBucketed /\
  slot_size bk = bucket_size b idx /\ kSmallestBucket b <= slot_size bk <= kMaxBucketed.
Proof.
  intros Hbuild Hok Hraw r bk sp s Hidx Hhead.
  pose proof (build_ok_supported b Hbuild) as Hs.
  destruct (table_exists b Hs) as [lk Hlk].
  rewrite (SizeToBucketIndex_at b lk raw Hs Hlk Hraw) in Hidx.
  injection Hidx as Hidx.
  assert (Hin : In idx (bucket_index_lookup_ lk)).
  { rewrite <- Hidx. apply in_at_index, (position_in_table b lk Hs Hlk). exact Hraw. }
  pose proof (freelist_entry_facts b this h idx (heap_ok_entry b this h lk idx Hok Hlk Hin))
    as Hfacts.
  cbv zeta in Hfacts. destruct Hfacts as (_ & _ & Hfree).
  destruct (Hfree Hhead) as (Hlt & Hpos & Hfit & Hspan & Hroot & Hraw0 & Hbk).
  pose proof (bucketed_index_covers b lk raw Hs Hlk Hraw) as Hcov.
  rewrite Hidx in Hcov. destruct (Hcov Hlt) as (Hle & Hidx0 & Hcover).
  pose proof (bucket_at_slot_size b lk (roots h this) idx Hs Hlk
                (heap_ok_root b this h Hok) (conj Hidx0 Hlt)) as Hsz.
  pose proof (sizes_range b lk Hs Hlk idx (conj Hidx0 Hlt)) as Hrange.
  fold r bk in Hsz. rewrite <- Hsz in Hcover, Hrange.
  repeat split; try assumption; try lia.
  rewrite (bucket_size_at b lk) by assumption. exact Hsz.
Qed.

(** X17. An allocation served from the free list touches nothing but its
    slot: the pointer is the head of the bucket's active span plus
    [extras_offset]; that span's head advances and its count of allocated
    slots grows by one; no other slot span, no root and no byte outside
    [[slot, slot + slot_size)] changes. *)
Theorem free_list_allocation_frame (C : Collaborators) (b : Build)
    (this flags n idx : Z) (h : Heap) (p : Z) (h' : Heap) :
  build_ok b = true -> heap_ok b this h = true -> is_size_t b n ->
  extras_layout_ok b (roots h this) = true ->
  is_thread_safe (roots h this) && with_thread_cache (roots h this) = false ->
  let r := roots h this in
  let bk := bucket_at r idx in
  let sp := active_slot_spans_head bk in
  let slot := freelist_head (slot_spans h sp) in
  SizeToBucketIndex b (initial_raw_size b n + extras_size r) = Some idx ->
  slot <> 0 ->
  AllocFlagsNoHooks C b this flags n h = Returns (p, h') ->
  p = slot + extras_offset r /\
  roots h' = roots h /\ span_of h' = span_of h /\ trace h' = trace h /\
  freelist_head (slot_spans h' sp) = FreelistGetNext C h slot /\
  num_allocated_slots (slot_spans h' sp) = num_allocated_slots (slot_spans h sp) + 1 /\
  (forall x, x <> sp -> slot_spans h' x = slot_spans h x) /\
  (forall a, a < slot \/ slot + slot_size bk <= a -> mem h' a = mem h a).
Proof.
  intros Hbuild Hok Hn Hlay Htc r bk sp slot Hidx Hhead Hret.
  destruct (AllocFlagsNoHooks_free_list C b this flags n idx h p h'
              Hbuild Hok Hn Htc Hidx Hhead Hret) as [Hraw Hset].
  fold r bk sp in Hset. fold slot in Hset. fold r in Hraw.
  pose proof (initial_raw_size_range b Hbuild n Hn) as Hn0.
  destruct (root_ok_facts b _ (heap_ok_root b this h Hok)) as (_ & Hoff & _).
  fold r in Hoff.
  assert (Hrawt : is_size_t b (initial_raw_size b n + extras_size r))
    by (unfold is_size_t in *; lia).
  destruct (free_list_slot_facts b this _ idx h Hbuild Hok Hrawt Hidx Hhead)
    as (_ & Hpos & Hfit & _ & _ & _ & _ & Hcover & _ & _ & Hmin).
  fold r bk sp in Hpos, Hfit, Hcover, Hmin. fold slot in Hpos, Hfit.
  set (h1 := set_slot_span h sp _) in Hset.
  pose proof (set_up_slot_frame b this flags (initial_raw_size b n + extras_size r)
                slot (slot_size bk) false h1) as Hframe.
  pose proof (set_up_slot_memory b this flags (initial_raw_size b n + extras_size r)
                slot (slot_size bk) false h1) as Hmem.
  cbv zeta in Hframe, Hmem. rewrite <- Hset in Hframe, Hmem. cbn [fst snd] in Hframe, Hmem.
  change (roots h1 this) with r in Hmem.
  destruct Hframe as (Fr & Fs & _ & _ & Fp & Ft).
  destruct (kSmallestBucket_pow2 b (build_ok_supported b Hbuild)) as (Ek & _ & _).
  assert (Hkpos : 0 < kSmallestBucket b)
    by (rewrite Ek; apply Z.pow_pos_nonneg; [lia | apply Z.log2_nonneg]).
  assert (Hplt : slot + extras_offset r < size_max_plus_1 b).
  { destruct (extras_layout_facts b r Hlay) as (Eo & Es & Hck & Hct).
    unfold is_size_t in Hn.
    destruct (Z.eq_dec (extras_offset r) (slot_size bk)) as [E | E]; [exfalso | lia].
    assert (Hin : initial_raw_size b n = 0) by lia.
    unfold initial_raw_size in Hin.
    destruct (ENABLE_REF_COUNT_FOR_BACKUP_REF_PTR b); cbn [andb] in *.
    - destruct (Z.eqb_spec n 0); lia.
    - lia. }
  unfold is_size_t in Hn.
  destruct (Hmem Hlay Hpos Hfit ltac:(lia) Hplt) as (Hp & Hfr & _ & _).
  split; [exact Hp|]. split; [exact Fr|]. split; [exact Fp|]. split; [exact Ft|].
  rewrite Fs. subst h1. cbn [slot_spans set_slot_span]. unfold update.
  rewrite Z.eqb_refl. cbn [freelist_head num_allocated_slots].
  split; [reflexivity|]. split; [reflexivity|]. split.
  - intros x Hx. destruct (Z.eqb_spec x sp); [contradiction | reflexivity].
  - intros a Ha. apply Hfr. exact Ha.
Qed.

Lemma free_list_allocation_frame_witness :
  let r := roots (debug_heap 25) sample_this in
  let bk := bucket_at r 25 in
  let sp := active_slot_spans_head bk in
  let slot := freelist_head (slot_spans (debug_heap 25) sp) in
  sample_slot + 16 = slot + extras_offset r /\
  roots (debug_alloc_heap 0 100 25) = roots (debug_heap 25) /\
  span_of (debug_alloc_heap 0 100 25) = span_of (debug_heap 25) /\
  trace (debug_alloc_heap 0 100 25) = trace (debug_heap 25) /\
  freelist_head (slot_spans (debug_alloc_heap 0 100 25) sp)
  = FreelistGetNext (direct_mapping debug_build) (debug_heap 25) slot /\
  num_allocated_slots (slot_spans (debug_alloc_heap 0 100 25) sp)
  = num_allocated_slots (slot_spans (debug_heap 25) sp) + 1 /\
  (forall x, x <> sp ->
     slot_spans (debug_alloc_heap 0 100 25) x = slot_spans (debug_heap 25) x) /\
  (forall a, a < slot \/ slot + slot_size bk <= a ->
     mem (debug_alloc_heap 0 100 25) a = mem (debug_heap 25) a).
Proof.
  apply (free_list_allocation_frame (direct_mapping debug_build) debug_build
           sample_this 0 100 25 (debug_heap 25)).
  - reflexivity.
  - vm_compute. reflexivity.
  - vm_compute. split; [discriminate | reflexivity].
  - vm_compute. reflexivity.
  - vm_compute. reflexivity.
  - vm_compute. reflexivity.
  - vm_compute. discriminate.
  - apply returns_pointer_of. vm_compute. reflexivity.
Defined.

(** X18. [ActualSize] predicts the usable size: when a request of [n]
    bytes is served from the free list, [GetUsableSize] of the pointer
    returned is [ActualSize(n)] (for [n = 0] only in a build without the
    reference count, which otherwise raises the empty request to one
    byte). *)
Theorem ActualSize_predicts_usable_size (C : Collaborators) (b : Build)
    (this flags n idx kp : Z) (h : Heap) (p : Z) (h' : Heap) :
  build_ok b = true -> MEMORY_TOOL_REPLACES_ALLOCATOR b = false ->
  heap_ok b this h = true -> buckets_ok (roots h this) = true ->
  is_size_t b n -> initial_raw_size b n = n ->
  0 <= kp -> SystemPageSize b = 2 ^ kp ->
  MaxDirectMapped b + SystemPageSize b <= size_max_plus_1 b ->
  is_thread_safe (roots h this) && with_thread_cache (roots h this) = false ->
  SizeToBucketIndex b (n + extras_size (roots h this)) = Some idx ->
  freelist_head
    (slot_spans h (active_slot_spans_head (bucket_at (roots h this) idx))) <> 0 ->
  AllocFlagsNoHooks C b this flags n h = Returns (p, h') ->
  ActualSize b (roots h' this) n = Returns (GetUsableSize b h' p).
Proof.
  intros Hbuild Hmt Hok Hbk Hn Hinit Hkp Hpage Hfit Htc Hidx Hhead Hret.
  pose proof (build_ok_supported b Hbuild) as Hs.
  pose proof (heap_ok_root b this h Hok) as Hr.
  destruct (root_ok_facts b _ Hr) as (_ & Hoff & _).
  rewrite <- Hinit in Hidx at 1.
  destruct (AllocFlagsNoHooks_free_list C b this flags n idx h p h'
              Hbuild Hok Hn Htc Hidx Hhead Hret) as [Hraw Hset].
  rewrite Hinit in Hraw, Hidx, Hset.
  assert (Hrawt : is_size_t b (n + extras_size (roots h this)))
    by (unfold is_size_t in *; lia).
  destruct (free_list_slot_facts b this _ idx h Hbuild Hok Hrawt Hidx Hhead)
    as (Hi & _ & _ & Hspan & Hroot & Hnoraw & Hbucket & Hcover & Hle & Hsize & Hmax).
  set (r := roots h this) in *.
  set (bk := bucket_at r idx) in *.
  set (sp := active_slot_spans_head bk) in *.
  set (s := slot_spans h sp) in *.
  set (h1 := set_slot_span h sp _) in Hset.
  pose proof (set_up_slot_frame b this flags (n + extras_size r)
                (freelist_head s) (slot_size bk) false h1) as Hframe.
  cbv zeta in Hframe. rewrite <- Hset in Hframe. cbn [snd] in Hframe.
  destruct Hframe as (Fr & Fs & Fb & Fe & Fp & _).
  assert (Hp : p = AdjustPointerForExtrasAdd b r (freelist_head s))
    by (unfold set_up_slot in Hset; inversion Hset; reflexivity).
  assert (Huse : GetUsableSize b h' p = slot_size bk - extras_size r).
  { unfold GetUsableSize, FromPointerNoAlignmentCheck, FromSlotSpan, GetUtilizedSlotSize.
    rewrite Fr, Fs, Fe, Fp. cbn [roots span_of extent_root slot_spans set_slot_span h1].
    rewrite Hp, Hspan. unfold update. rewrite Z.eqb_refl. cbn [raw_size bucket].
    fold (FromSlotSpan b h sp). rewrite Hroot, Hnoraw, Hbucket.
    cbn [load_bucket]. rewrite Fr. cbn [roots h1 set_slot_span]. fold r. fold bk.
    unfold AdjustSizeForExtrasSubtract, to_size_t. apply Z.mod_small.
    pose proof (sizes_max := kMaxBucketed_is_size_t b Hs).
    unfold is_size_t in Hn. lia. }
  rewrite Huse, Fr. change (roots h1 this) with r.
  unfold is_size_t in Hn.
  destruct (ActualSize_value b r kp n Hbuild Hmt Hr Hbk Hkp Hpage Hfit
              ltac:(lia) Hraw) as (slot' & E & _ & _ & Hb1 & _ & _).
  destruct (Hb1 Hle) as (i & Hi' & _ & Hsl & _).
  rewrite Hidx in Hi'. injection Hi' as <-.
  rewrite E, Hsl, <- Hsize. reflexivity.
Qed.

Lemma ActualSize_predicts_usable_size_witness :
  ActualSize counted_build (roots (sample_alloc_heap 0 100 24) sample_this) 100
  = Returns (GetUsableSize counted_build (sample_alloc_heap 0 100 24) (sample_slot + 16)).
Proof.
  apply (ActualSize_predicts_usable_size (direct_mapping counted_build) counted_build
           sample_this 0 100 24 12 (counted_heap 24)).
  - reflexivity.
  - reflexivity.
  - vm_compute. reflexivity.
  - vm_compute. reflexivity.
  - vm_compute. split; [discriminate | reflexivity].
  - reflexivity.
  - lia.
  - reflexivity.
  - vm_compute. discriminate.
  - vm_compute. reflexivity.
  - vm_compute. reflexivity.
  - vm_compute. discriminate.
  - apply returns_pointer_of. vm_compute. reflexivity.
Defined.

(** * Freeing *)

(** X19. A direct-mapped allocation is freed at once: whatever the
    scanning mode, the thread cache and the reference count of its root,
    [FreeNoHooks] passes it to [RawFree], with the start of its slot; no
    other collaborator is called on the way. *)
Theorem direct_mapped_free_goes_to_RawFree (C : Collaborators) (b : Build)
    (ptr : Z) (h h' : Heap) :
  ptr <> 0 ->
  let slot_span := FromPointerNoAlignmentCheck h ptr in
  let root := FromSlotSpan b h slot_span in
  let slot_start := AdjustPointerForExtrasSubtract b (roots h root) ptr in
  is_direct_mapped (load_bucket h (bucket (slot_spans h slot_span))) = true ->
  FreeNoHooks C b ptr h = Returns h' ->
  exists h2,
    RawFree C root slot_start slot_span h2 = Returns h' /\
    roots h2 = roots h /\ slot_spans h2 = slot_spans h /\ trace h2 = trace h /\
    (DCHECK_IS_ON b = false -> h2 = h).
Proof.
  intros Hptr sp root slot_start Hdirect H.
  unfold FreeNoHooks in H.
  replace (ptr =? 0) with false in H by (symmetry; apply Z.eqb_neq; exact Hptr).
  apply PA_DCHECK_bind in H. fold sp root in H.
  rewrite Hdirect, andb_false_r in H.
  unfold FreeNoHooksImmediate in H.
  do 3 apply PA_DCHECK_bind in H.
  apply bind_Returns in H as [[] [_ H]].
  rewrite Hdirect in H. cbn [negb] in H. rewrite !andb_false_r in H. cbn [negb] in H.
  fold slot_start in H.
  set (h2 := if DCHECK_IS_ON b
             then set_mem h (memset (mem h) slot_start (kFreedByte b)
                               (GetUtilizedSlotSize h sp))
             else h) in H.
  assert (Hr : roots h2 = roots h) by (subst h2; destruct (DCHECK_IS_ON b); reflexivity).
  assert (Hs : slot_spans h2 = slot_spans h)
    by (subst h2; destruct (DCHECK_IS_ON b); reflexivity).
  assert (He : extent_buckets h2 = extent_buckets h)
    by (subst h2; destruct (DCHECK_IS_ON b); reflexivity).
  exists h2. split; [|split; [exact Hr | split; [exact Hs | split]]].
  - unfold RawFreeWithThreadCache in H.
    replace (load_bucket h2 (bucket (slot_spans h2 sp)))
      with (load_bucket h (bucket (slot_spans h sp))) in H
      by (unfold load_bucket; rewrite Hr, Hs, He; reflexivity).
    rewrite Hdirect in H. cbn [negb] in H. rewrite !andb_false_r in H. exact H.
  - subst h2. destruct (DCHECK_IS_ON b); reflexivity.
  - intros Hd. subst h2. rewrite Hd. reflexivity.
Qed.

Lemma returns_heap_of (o : outcome Heap) (h : Heap) :
  returned o = true -> o = Returns (heap_of o h).
Proof. destruct o; [reflexivity | discriminate]. Qed.

Lemma direct_mapped_free_goes_to_RawFree_witness :
  let slot_span := FromPointerNoAlignmentCheck mapped_heap (direct_map_slot + 16) in
  let root := FromSlotSpan counted_build mapped_heap slot_span in
  let slot_start :=
    AdjustPointerForExtrasSubtract counted_build (roots mapped_heap root)
      (direct_map_slot + 16) in
  exists h2,
    RawFree (direct_mapping counted_build) root slot_start slot_span h2
    = Returns (heap_of (FreeNoHooks (direct_mapping counted_build) counted_build
                          (direct_map_slot + 16) mapped_heap) mapped_heap) /\
    roots h2 = roots mapped_heap /\ slot_spans h2 = slot_spans mapped_heap /\
    trace h2 = trace mapped_heap /\
    (DCHECK_IS_ON counted_build = false -> h2 = mapped_heap).
Proof.
  apply (direct_mapped_free_goes_to_RawFree (direct_mapping counted_build) counted_build
           (direct_map_slot + 16) mapped_heap).
  - vm_compute. discriminate.
  - vm_compute. reflexivity.
  - apply returns_heap_of. vm_compute. reflexivity.
Defined.

(** X20. A free while other references remain is deferred: with the
    reference count in use, [FreeNoHooksImmediate] on a slot that is not the
    only reference overwrites the usable region with [kQuarantinedByte], and
    when [ReleaseFromAllocator] reports remaining holders it returns without
    giving the slot back: the heap is the one the release left. *)
Theorem deferred_free_zaps (C : Collaborators) (b : Build)
    (this ptr slot_span : Z) (h h' : Heap) :
  ENABLE_REF_COUNT_FOR_BACKUP_REF_PTR b = true ->
  allow_ref_count (roots h this) = true ->
  is_direct_mapped (load_bucket h (bucket (slot_spans h slot_span))) = false ->
  let r := roots h this in
  let usable_size := AdjustSizeForExtrasSubtract b r (GetUtilizedSlotSize h slot_span) in
  let ref_count := PartitionRefCountPointer (AdjustPointerForExtrasSubtract b r ptr) in
  let zapped := set_mem h (memset (mem h) ptr (kQuarantinedByte b) usable_size) in
  HasOneRef C h ref_count = false ->
  fst (ReleaseFromAllocator C ref_count zapped) = false ->
  FreeNoHooksImmediate C b this ptr slot_span h = Returns h' ->
  h' = snd (ReleaseFromAllocator C ref_count zapped) /\
  (forall a, ptr <= a < ptr + usable_size -> mem zapped a = kQuarantinedByte b) /\
  roots zapped = roots h /\ slot_spans zapped = slot_spans h /\ trace zapped = trace h.
Proof.
  intros He Ha Hd r usable ref_count zapped Hone Hrel H.
  unfold FreeNoHooksImmediate in H.
  do 3 apply PA_DCHECK_bind in H.
  apply bind_Returns in H as [[] [_ H]].
  fold r in H. fold usable in H.
  unfold r in H at 1. rewrite He, Ha, Hd in H. cbn [andb negb] in H.
  fold r in H. fold ref_count in H. rewrite Hone in H. cbn [negb] in H.
  fold zapped in H.
  destruct (ReleaseFromAllocator C ref_count zapped) as [released h1].
  cbn [fst snd] in *. subst released. cbn [negb] in H.
  split; [congruence|]. split; [|repeat split].
  intros a Hin. subst zapped. cbn [mem set_mem]. apply memset_inside. exact Hin.
Qed.

Lemma deferred_free_zaps_witness :
  let C := with_outstanding_refs (direct_mapping counted_build) in
  let h := sample_alloc_heap 0 100 24 in
  let r := roots h sample_this in
  let usable_size :=
    AdjustSizeForExtrasSubtract counted_build r (GetUtilizedSlotSize h sample_span) in
  let ref_count :=
    PartitionRefCountPointer
      (AdjustPointerForExtrasSubtract counted_build r (sample_slot + 16)) in
  let zapped :=
    set_mem h (memset (mem h) (sample_slot + 16) (kQuarantinedByte counted_build)
                 usable_size) in
  heap_of (FreeNoHooksImmediate C counted_build sample_this (sample_slot + 16)
             sample_span h) h
  = snd (ReleaseFromAllocator C ref_count zapped) /\
  (forall a, sample_slot + 16 <= a < sample_slot + 16 + usable_size ->
     mem zapped a = kQuarantinedByte counted_build) /\
  roots zapped = roots h /\ slot_spans zapped = slot_spans h /\ trace zapped = trace h.
Proof.
  apply (deferred_free_zaps (with_outstanding_refs (direct_mapping counted_build))
           counted_build sample_this (sample_slot + 16) sample_span
           (sample_alloc_heap 0 100 24)).
  - reflexivity.
  - vm_compute. reflexivity.
  - vm_compute. reflexivity.
  - reflexivity.
  - reflexivity.
  - apply returns_heap_of. vm_compute. reflexivity.
Defined.

(** X21. After [EnablePCScan] returns, the root is scanned: it is a
    thread-safe, scannable root whose mode is now [kEnabled]; a second
    [EnablePCScan] changes nothing and registers nothing; and [FreeNoHooks]
    of a pointer of the root that is not direct-mapped hands the pointer to
    the quarantine instead of freeing it. *)
Theorem EnablePCScan_quarantines_frees (RegisterRoot : Z -> Heap -> Heap)
    (C : Collaborators) (b : Build) (this ptr : Z) (h h1 : Heap) :
  (forall x, roots (RegisterRoot this x) this = roots x this) ->
  EnablePCScan RegisterRoot this h = Returns h1 ->
  ptr <> 0 ->
  let slot_span := FromPointerNoAlignmentCheck h1 ptr in
  FromSlotSpan b h1 slot_span = this ->
  IsValidSlotSpan b h1 slot_span = true ->
  is_direct_mapped (load_bucket h1 (bucket (slot_spans h1 slot_span))) = false ->
  is_thread_safe (roots h this) = true /\ IsScannable (roots h this) = true /\
  IsScanEnabled (roots h1 this) = true /\
  EnablePCScan RegisterRoot this h1 = Returns h1 /\
  FreeNoHooks C b ptr h1
  = Returns (MoveToQuarantine C ptr slot_span
               (record (EvMoveToQuarantine ptr slot_span) h1)).
Proof.
  intros Hreg Hen Hptr sp Hroot Hvalid Hdirect.
  unfold EnablePCScan in Hen.
  apply PA_CHECK_bind in Hen as [Hts Hen].
  apply PA_CHECK_bind in Hen as [Hsc Hen].
  assert (Hafter : is_thread_safe (roots h1 this) = true
                   /\ IsScannable (roots h1 this) = true
                   /\ IsScanEnabled (roots h1 this) = true).
  { destruct (IsScanEnabled (roots h this)) eqn:E.
    - injection Hen as <-. auto.
    - injection Hen as <-. rewrite roots_set_root, Hreg.
      unfold IsScannable, IsScanEnabled. cbn. auto. }
  destruct Hafter as (Hts1 & Hsc1 & Hen1).
  split; [exact Hts|]. split; [exact Hsc|]. split; [exact Hen1|]. split.
  - unfold EnablePCScan. rewrite Hts1, Hsc1, Hen1. reflexivity.
  - unfold FreeNoHooks.
    replace (ptr =? 0) with false by (symmetry; apply Z.eqb_neq; exact Hptr).
    fold sp. rewrite Hvalid, PA_DCHECK_true, Hroot, Hen1, Hdirect. reflexivity.
Qed.

Lemma EnablePCScan_quarantines_frees_witness :
  let h1 := heap_of (EnablePCScan (fun _ x => x) sample_this (scan_heap 24))
              (scan_heap 24) in
  let slot_span := FromPointerNoAlignmentCheck h1 (sample_slot + 16) in
  is_thread_safe (roots (scan_heap 24) sample_this) = true /\
  IsScannable (roots (scan_heap 24) sample_this) = true /\
  IsScanEnabled (roots h1 sample_this) = true /\
  EnablePCScan (fun _ x => x) sample_this h1 = Returns h1 /\
  FreeNoHooks (direct_mapping counted_build) counted_build (sample_slot + 16) h1
  = Returns (MoveToQuarantine (direct_mapping counted_build) (sample_slot + 16) slot_span
               (record (EvMoveToQuarantine (sample_slot + 16) slot_span) h1)).
Proof.
  apply (EnablePCScan_quarantines_frees (fun _ x => x) (direct_mapping counted_build)
           counted_build sample_this (sample_slot + 16) (scan_heap 24)).
  - intros x. reflexivity.
  - apply returns_heap_of. vm_compute. reflexivity.
  - vm_compute. discriminate.
  - vm_compute. reflexivity.
  - vm_compute. reflexivity.
  - vm_compute. reflexivity.
Defined.

(** * The thread cache during its creation, aligned requests, start-up *)

(** X22. While the thread's cache is being created the root is marked as
    having none, and the mark is set again afterwards; an allocation that
    re-enters during the creation therefore does not consult the thread
    cache: its outcome is the same whatever the thread-cache functions
    are. *)
Theorem thread_cache_creation_is_not_reentered (C C' : Collaborators) (b : Build)
    (this flags n : Z) (h : Heap) :
  SlowPathAlloc C' = SlowPathAlloc C -> FreelistGetNext C' = FreelistGetNext C ->
  ThreadCacheGet C h = 0 ->
  let creating := set_root h this (set_with_thread_cache (roots h this) false) in
  let created := ThreadCacheCreate C this creating in
  thread_cache_for C this h
  = (fst created,
     set_root (snd created) this
       (set_with_thread_cache (roots (snd created) this) true)) /\
  with_thread_cache (roots creating this) = false /\
  with_thread_cache (roots (snd (thread_cache_for C this h)) this) = true /\
  AllocFlagsNoHooks C b this flags n creating
  = AllocFlagsNoHooks C' b this flags n creating.
Proof.
  intros Hslow Hnext Hget creating created.
  assert (Hfor : thread_cache_for C this h
                 = (fst created,
                    set_root (snd created) this
                      (set_with_thread_cache (roots (snd created) this) true))).
  { unfold thread_cache_for. rewrite Hget. cbn [Z.eqb]. fold creating. fold created.
    destruct created as [tc hc]. reflexivity. }
  split; [exact Hfor|]. split; [|split].
  - unfold creating. rewrite roots_set_root. reflexivity.
  - rewrite Hfor. cbn [snd]. rewrite roots_set_root. reflexivity.
  - assert (Hoff : is_thread_safe (roots creating this)
                   && with_thread_cache (roots creating this) = false).
    { unfold creating. rewrite roots_set_root. cbn. apply andb_false_r. }
    unfold AllocFlagsNoHooks, take_slot. rewrite Hoff.
    unfold RawAlloc, AllocFromBucket. rewrite Hslow, Hnext. reflexivity.
Qed.

Lemma thread_cache_creation_is_not_reentered_witness :
  let C := direct_mapping counted_build in
  let creating :=
    set_root cached_heap sample_this
      (set_with_thread_cache (roots cached_heap sample_this) false) in
  let created := ThreadCacheCreate C sample_this creating in
  thread_cache_for C sample_this cached_heap
  = (fst created,
     set_root (snd created) sample_this
       (set_with_thread_cache (roots (snd created) sample_this) true)) /\
  with_thread_cache (roots creating sample_this) = false /\
  with_thread_cache (roots (snd (thread_cache_for C sample_this cached_heap))
                       sample_this) = true /\
  AllocFlagsNoHooks C counted_build sample_this 0 100 creating
  = AllocFlagsNoHooks (with_outstanding_refs C) counted_build sample_this 0 100 creating.
Proof.
  apply (thread_cache_creation_is_not_reentered (direct_mapping counted_build)
           (with_outstanding_refs (direct_mapping counted_build)) counted_build
           sample_this 0 100 cached_heap).
  - reflexivity.
  - reflexivity.
  - reflexivity.
Defined.

Lemma CountLeadingZeroBitsSizeT_top (p : Platform) (x : Z) :
  supported p = true ->
  2 ^ (kBitsPerSizeT p - 1) <= x < size_max_plus_1 p ->
  CountLeadingZeroBitsSizeT p x = 0.
Proof.
  intros Hs Hx.
  assert (Hw : 32 <= kBitsPerSizeT p) by (destruct (supported_bits p Hs); lia).
  assert (0 < 2 ^ (kBitsPerSizeT p - 1)) by (apply Z.pow_pos_nonneg; lia).
  pose proof (order_of_log2 p x ltac:(lia) ltac:(lia)) as Ho.
  unfold order_of in Ho.
  assert (Z.log2 x = kBitsPerSizeT p - 1).
  { apply Z.log2_unique; [lia|]. unfold size_max_plus_1 in Hx.
    replace (Z.succ (kBitsPerSizeT p - 1)) with (kBitsPerSizeT p) by lia. lia. }
  lia.
Qed.

(** X23. What [AlignedAllocFlags] refuses: an alignment that is not a
    power of two ends the process, whatever the flags; a size above half
    the address space, whose rounding up to a power of two does not fit
    [size_t], yields [nullptr] under [ReturnNull], the heap untouched, and
    ends the process otherwise. *)
Theorem AlignedAllocFlags_rejects (C : Collaborators) (b : Build)
    (this flags alignment size : Z) (h : Heap) :
  supported b = true -> is_size_t b size ->
  (IsPowerOfTwo alignment = false ->
   AlignedAllocFlags C b this flags alignment size h = Crashes) /\
  (IsPowerOfTwo alignment = true -> alignment <= size ->
   2 ^ (kBitsPerSizeT b - 1) < size ->
   (has_flag flags PartitionAllocReturnNull = false ->
    AlignedAllocFlags C b this flags alignment size h = Crashes) /\
   (has_flag flags PartitionAllocReturnNull = true ->
    DCHECK_IS_ON b = false
    \/ (allow_cookies (roots h this) = false /\ allow_ref_count (roots h this) = false) ->
    AlignedAllocFlags C b this flags alignment size h = Returns (0, h))).
Proof.
  intros Hs Hsize. unfold is_size_t in Hsize.
  assert (Hw : 32 <= kBitsPerSizeT b) by (destruct (supported_bits b Hs); lia).
  split.
  - intros Hp. unfold AlignedAllocFlags. rewrite Hp.
    destruct (PA_DCHECK b _); reflexivity.
  - intros Hp Hle Hbig.
    assert (Hreq : aligned_request_size b alignment size = 0).
    { unfold aligned_request_size.
      replace (size <? alignment) with false by (symmetry; apply Z.ltb_ge; lia).
      unfold to_size_t at 2. rewrite (Z.mod_small (size - 1)) by lia.
      rewrite CountLeadingZeroBitsSizeT_top by (assumption || lia).
      rewrite Z.sub_0_r, Z.shiftl_1_l. unfold to_size_t, size_max_plus_1.
      apply Z.mod_same. apply Z.pow_nonzero; lia. }
    assert (Hlt : (0 <? size) = true).
    { apply Z.ltb_lt. assert (0 < 2 ^ (kBitsPerSizeT b - 1))
        by (apply Z.pow_pos_nonneg; lia). lia. }
    split.
    + intros Hf. unfold AlignedAllocFlags. rewrite Hp, Hreq, Hlt, Hf.
      destruct (PA_DCHECK b _); reflexivity.
    + intros Hf Hd. unfold AlignedAllocFlags. rewrite Hp, Hreq, Hlt, Hf.
      unfold PA_DCHECK.
      destruct Hd as [Hd | [Hc Hr]].
      * rewrite Hd. reflexivity.
      * rewrite Hc, Hr. destruct (DCHECK_IS_ON b); reflexivity.
Qed.

Lemma AlignedAllocFlags_rejects_witness :
  (IsPowerOfTwo 64 = false ->
   AlignedAllocFlags (direct_mapping plain_build) plain_build sample_this
     PartitionAllocReturnNull 64 (2 ^ 63 + 1) aligned_heap = Crashes) /\
  (IsPowerOfTwo 64 = true -> 64 <= 2 ^ 63 + 1 ->
   2 ^ (kBitsPerSizeT plain_build - 1) < 2 ^ 63 + 1 ->
   (has_flag PartitionAllocReturnNull PartitionAllocReturnNull = false ->
    AlignedAllocFlags (direct_mapping plain_build) plain_build sample_this
      PartitionAllocReturnNull 64 (2 ^ 63 + 1) aligned_heap = Crashes) /\
   (has_flag PartitionAllocReturnNull PartitionAllocReturnNull = true ->
    DCHECK_IS_ON plain_build = false
    \/ (allow_cookies (roots aligned_heap sample_this) = false
        /\ allow_ref_count (roots aligned_heap sample_this) = false) ->
    AlignedAllocFlags (direct_mapping plain_build) plain_build sample_this
      PartitionAllocReturnNull 64 (2 ^ 63 + 1) aligned_heap
    = Returns (0, aligned_heap))).
Proof.
  apply (AlignedAllocFlags_rejects (direct_mapping plain_build) plain_build sample_this
           PartitionAllocReturnNull 64 (2 ^ 63 + 1) aligned_heap).
  - reflexivity.
  - vm_compute. split; [discriminate | reflexivity].
Defined.

(** X24. The bucket index fits its types: for every value of [size_t],
    [GetIndex] finds an entry of the table (the read is in range) that is at
    most [kNumBuckets], as its [PA_DCHECK] states, and [kNumBuckets] is below
    [2^16], so the narrowing to the [uint16_t] of [SizeToBucketIndex] loses
    nothing. *)
Theorem bucket_index_fits_uint16 (p : Platform) (n : Z) :
  supported p = true -> is_size_t p n ->
  exists index,
    GetIndex p n = Some index /\ SizeToBucketIndex p n = Some index /\
    0 <= index <= kNumBuckets p /\ kNumBuckets p < 2 ^ 16.
Proof.
  intros Hs Hn. destruct (table_exists p Hs) as [lk Hlk].
  pose proof (kNumBuckets_range p Hs) as Hk.
  pose proof (position_in_table p lk Hs Hlk n Hn) as Hpos.
  pose proof (table_entry_range p lk Hs Hlk _ Hpos) as Hrange.
  exists (at_index (bucket_index_lookup_ lk) (lookup_position p n)).
  split; [apply (GetIndex_at p lk Hs Hlk); exact Hn|].
  split; [apply SizeToBucketIndex_at; assumption|].
  split; [exact Hrange | lia].
Qed.

Lemma bucket_index_fits_uint16_witness :
  exists index,
    GetIndex p32_16 (2 ^ 32 - 1) = Some index /\
    SizeToBucketIndex p32_16 (2 ^ 32 - 1) = Some index /\
    0 <= index <= kNumBuckets p32_16 /\ kNumBuckets p32_16 < 2 ^ 16.
Proof.
  apply (bucket_index_fits_uint16 p32_16 (2 ^ 32 - 1)).
  - reflexivity.
  - vm_compute. split; [discriminate | reflexivity].
Defined.

Lemma land_pred_pow2 (x : Z) :
  0 < x -> Z.land x (x - 1) = 0 -> x = 2 ^ Z.log2 x.
Proof.
  intros Hx Hland.
  destruct (Z.log2_spec x Hx) as [Hlo Hhi].
  destruct (Z.eq_dec x (2 ^ Z.log2 x)) as [E | E]; [exact E | exfalso].
  assert (Hl : Z.log2 (x - 1) = Z.log2 x).
  { apply Z.log2_unique; [apply Z.log2_nonneg | lia]. }
  assert (Hbit : Z.testbit (Z.land x (x - 1)) (Z.log2 x) = true).
  { rewrite Z.land_spec, Z.bit_log2 by lia.
    replace (Z.testbit (x - 1) (Z.log2 x)) with (Z.testbit (x - 1) (Z.log2 (x - 1)))
      by (rewrite Hl; reflexivity).
    rewrite Z.bit_log2; [reflexivity|].
    pose proof (Z.pow_pos_nonneg 2 (Z.log2 x) ltac:(lia) (Z.log2_nonneg x)). lia. }
  rewrite Hland, Z.bits_0 in Hbit. discriminate.
Qed.

(** X25. What the start-up checks of [PartitionAllocGlobalInit] secure:
    when it returns, the handler passed in is the one installed (and is not
    null where debug checks are on), the system page size is a power of
    two, a partition page is a whole number, at least four, of system
    pages, a super page is a whole number, at least four, of partition
    pages, and the page descriptors of all partition pages of a super page,
    [kPageMetadataSize] bytes each, fit together in one system page. *)
Theorem PartitionAllocGlobalInit_layout (b : Build) (k : PageConstants)
    (g : MetadataConstants) (on_out_of_memory installed : Z) :
  0 < SystemPageSize b -> 0 < PartitionPageSize k ->
  SystemPageSize b * 4 < size_max_plus_1 b ->
  PartitionPageSize k * 4 < size_max_plus_1 b ->
  0 <= kPageMetadataSize g ->
  kPageMetadataSize g * NumPartitionPagesPerSuperPage b k < size_max_plus_1 b ->
  PartitionAllocGlobalInit b k g on_out_of_memory = Returns installed ->
  installed = on_out_of_memory /\
  (DCHECK_IS_ON b = true -> on_out_of_memory <> 0) /\
  SystemPageSize b = 2 ^ Z.log2 (SystemPageSize b) /\
  PartitionPageSize k
  = (PartitionPageSize k / SystemPageSize b) * SystemPageSize b /\
  4 <= PartitionPageSize k / SystemPageSize b /\
  kSuperPageSize b = NumPartitionPagesPerSuperPage b k * PartitionPageSize k /\
  4 <= NumPartitionPagesPerSuperPage b k /\
  NumPartitionPagesPerSuperPage b k * kPageMetadataSize g <= SystemPageSize b.
Proof.
  intros Hsys Hpp Hsys4 Hpp4 Hmeta Hfit H.
  unfold PartitionAllocGlobalInit in H.
  apply PA_CHECK_bind in H as [C1 H]. apply PA_CHECK_bind in H as [C2 H].
  apply PA_CHECK_bind in H as [C3 H]. apply PA_CHECK_bind in H as [C4 H].
  apply PA_CHECK_bind in H as [C5 H]. apply PA_CHECK_bind in H as [C6 H].
  apply PA_CHECK_bind in H as [C7 H]. apply PA_CHECK_bind in H as [_ H].
  apply PA_CHECK_bind in H as [_ H]. apply PA_CHECK_bind in H as [_ H].
  apply PA_CHECK_bind in H as [_ H].
  assert (Hnull : DCHECK_IS_ON b = true -> on_out_of_memory <> 0).
  { intros Hd. unfold PA_DCHECK in H. rewrite Hd in H.
    apply PA_CHECK_bind in H as [Cn _].
    apply negb_true_iff, Z.eqb_neq in Cn. exact Cn. }
  apply PA_DCHECK_bind in H.
  injection H as <-.
  apply Z.eqb_eq in C1, C3, C5. apply Z.leb_le in C2, C4, C6, C7.
  unfold to_size_t in *.
  rewrite (Z.mod_small (PartitionPageSize k * 4)) in C2 by lia.
  rewrite (Z.mod_small (SystemPageSize b * 4)) in C4 by lia.
  rewrite (Z.mod_small (SystemPageSize b - 1)) in C1 by lia.
  assert (HN0 : 0 <= NumPartitionPagesPerSuperPage b k).
  { unfold NumPartitionPagesPerSuperPage. apply Z.div_pos; lia. }
  rewrite (Z.mod_small (kPageMetadataSize g * _)) in C7
    by (split; [apply Z.mul_nonneg_nonneg; assumption | assumption]).
  assert (HN : kSuperPageSize b
               = NumPartitionPagesPerSuperPage b k * PartitionPageSize k).
  { unfold NumPartitionPagesPerSuperPage.
    pose proof (Z.div_mod (kSuperPageSize b) (PartitionPageSize k) ltac:(lia)). lia. }
  assert (HP : PartitionPageSize k
               = (PartitionPageSize k / SystemPageSize b) * SystemPageSize b).
  { pose proof (Z.div_mod (PartitionPageSize k) (SystemPageSize b) ltac:(lia)). lia. }
  split; [reflexivity|]. split; [exact Hnull|].
  split; [apply land_pred_pow2; assumption|].
  split; [exact HP|]. split; [nia|]. split; [exact HN|]. split; [nia | lia].
Qed.

Lemma PartitionAllocGlobalInit_layout_witness :
  let k := mkPageConstants 16384 4096 true in
  let g := mkMetadataConstants 32 32 16 in
  1 = 1 /\
  (DCHECK_IS_ON debug_build = true -> 1 <> 0) /\
  SystemPageSize debug_build = 2 ^ Z.log2 (SystemPageSize debug_build) /\
  PartitionPageSize k
  = (PartitionPageSize k / SystemPageSize debug_build)
    * SystemPageSize debug_build /\
  4 <= PartitionPageSize k / SystemPageSize debug_build /\
  kSuperPageSize debug_build
  = NumPartitionPagesPerSuperPage debug_build k * PartitionPageSize k /\
  4 <= NumPartitionPagesPerSuperPage debug_build k /\
  NumPartitionPagesPerSuperPage debug_build k * kPageMetadataSize g
  <= SystemPageSize debug_build.
Proof.
  apply (PartitionAllocGlobalInit_layout debug_build
           (mkPageConstants 16384 4096 true) (mkMetadataConstants 32 32 16) 1 1).
  - reflexivity.
  - reflexivity.
  - vm_compute. reflexivity.
  - vm_compute. reflexivity.
  - vm_compute. discriminate.
  - vm_compute. reflexivity.
  - vm_compute. reflexivity.
Defined.
